(** * KubeAgent: the cluster simulator, its command interpreter and the
      alert loop of the dashboard

    A shallow embedding of [src/services/kubernetesSimulator.ts], of the
    entity types it imports and of the alert loop and command handlers of
    [src/App.tsx].

    Conventions of the embedding.
    - A JavaScript [number] is an exact rational ([Q]).  The simulator only
      adds, multiplies, floors, rounds, compares and clamps; comparison,
      [Math.max] and [Math.min] are exact on doubles, the rounding of [+]
      and [*] is abstracted away.
    - A JavaScript string is a [string] of 8-bit characters; white space is
      ASCII white space.
    - [Math.random()] and [new Date()] read the environment: the n-th draw
      and the n-th clock reading are given by two sequences, and the world
      carries a cursor into each.
    - The [ClusterState] object held by the simulator is assigned to in
      place ([this.state.pods = ...]) and handed out by reference, so it is
      a cell of an explicit heap.  Arrays and pod objects are never written
      after [generateMockPods] returns ([getState] builds new ones with
      [map] and object spread), so they are values. *)

From Stdlib Require Import QArith Qround Qminmax ZArith Lia Lqa Ascii String.
From stdpp Require Import base option list gmap strings pretty sorting.

Local Open Scope string_scope.
Local Open Scope list_scope.

(** ** JavaScript string primitives used by the sources *)

Module JS.

Definition dquote : string := String "034"%char "".
Definition nl : string := String "010"%char "".

(** [\s] of regular expressions and the white space of [trim]. *)
Definition isSpace (c : ascii) : bool := Ascii.is_space c.

Fixpoint trimStart (s : string) : string :=
  match s with
  | String c s' => if isSpace c then trimStart s' else s
  | "" => ""
  end.

Definition trimEnd (s : string) : string :=
  String.rev (trimStart (String.rev s)).

Definition trim (s : string) : string := trimEnd (trimStart s).

(** [s.includes(sub)] *)
Fixpoint includes (sub s : string) : bool :=
  String.prefix sub s ||
  match s with
  | String _ s' => includes sub s'
  | "" => false
  end.

(** [s.padEnd(n)]: pad with spaces on the right up to length [n]. *)
Fixpoint spaces (n : nat) : string :=
  match n with
  | O => ""
  | S k => String " " (spaces k)
  end.

Definition padEnd (n : nat) (s : string) : string :=
  s +:+ spaces (n - String.length s).

(** [s.substr(start, len)] *)
Definition substr (start len : nat) (s : string) : string :=
  String.substring start len s.

(** [s.split(sep)] for a non-empty separator: [skip] counts the
    characters of a separator occurrence still to be dropped, [cur] is
    the current piece, reversed. *)
Fixpoint split_go (sep s : string) (skip : nat) (cur : string) : list string :=
  match s with
  | "" => [String.rev cur]
  | String c s' =>
      match skip with
      | S k => split_go sep s' k cur
      | O =>
          if String.prefix sep s
          then String.rev cur :: split_go sep s' (String.length sep - 1) ""
          else split_go sep s' 0 (String c cur)
      end
  end.

Definition split (sep s : string) : list string := split_go sep s 0 "".

(** [l.join(sep)] *)
Definition join (sep : string) (l : list string) : string :=
  String.concat sep l.

(** The longest prefix of non-white-space characters: what [(\S+)] and
    [([^\s]+)] capture when they match at the head of [s]. *)
Fixpoint nonSpaceRun (s : string) : string :=
  match s with
  | String c s' => if isSpace c then "" else String c (nonSpaceRun s')
  | "" => ""
  end.

Fixpoint dropPrefix (p s : string) : option string :=
  match p, s with
  | "", _ => Some s
  | String a p', String b s' =>
      if Ascii.eqb a b then dropPrefix p' s' else None
  | String _ _, "" => None
  end.

(** [lit\s+(\S+)] anchored at the head of [s]. *)
Definition litSpacesWordAt (lit s : string) : option string :=
  match dropPrefix lit s with
  | Some (String c r) =>
      if isSpace c then
        match nonSpaceRun (trimStart r) with
        | "" => None
        | w => Some w
        end
      else None
  | _ => None
  end.

(** [lit(\S+)] anchored at the head of [s]. *)
Definition litWordAt (lit s : string) : option string :=
  match dropPrefix lit s with
  | Some r =>
      match nonSpaceRun r with
      | "" => None
      | w => Some w
      end
  | None => None
  end.

(** [s.match(/exec -it\s+([^\s]+)/)?.[1]]: leftmost match, group 1. *)
Fixpoint matchExec (s : string) : option string :=
  match litSpacesWordAt "exec -it" s with
  | Some w => Some w
  | None =>
      match s with
      | String _ s' => matchExec s'
      | "" => None
      end
  end.

(** [s.match(/-n\s+(\S+)|--namespace=(\S+)/)]: leftmost match, at each
    position the first alternative before the second; the result is the
    pair of capture groups, one of which is undefined. *)
Fixpoint matchNamespace (s : string) : option (option string * option string) :=
  match litSpacesWordAt "-n" s with
  | Some w => Some (Some w, None)
  | None =>
      match litWordAt "--namespace=" s with
      | Some w => Some (None, Some w)
      | None =>
          match s with
          | String _ s' => matchNamespace s'
          | "" => None
          end
      end
  end.

(** [a || b] on values that are a string or [undefined]. *)
Definition orElse (a b : option string) : option string :=
  match a with
  | Some (String _ _) => a
  | _ => b
  end.

(** A string-or-undefined value inside a template literal. *)
Definition show (a : option string) : string :=
  match a with
  | Some s => s
  | None => "undefined"
  end.

(** [Math.floor], [Math.round] (ties towards +infinity), [Math.max],
    [Math.min]. *)
Definition floor (x : Q) : Z := Qfloor x.
Definition round (x : Q) : Z := Qfloor (x + (1 # 2)).
Definition max (x y : Q) : Q := Qmax x y.
Definition min (x y : Q) : Q := Qmin x y.

(** [x <= y], [x < y] and [x > y] on numbers. *)
Definition le (x y : Q) : bool := Qle_bool x y.
Definition lt (x y : Q) : bool := negb (Qle_bool y x).
Definition gt (x y : Q) : bool := lt y x.

(** [a[i]] for a number [i]: undefined outside the array. *)
Definition at_ {A} (a : list A) (i : Z) : option A :=
  if (i <? 0)%Z then None else a !! Z.to_nat i.

End JS.


(** ** Entity types ([types.ts]) *)

Inductive ResourceStatus := RUNNING | PENDING | ERROR | TERMINATING.

Global Instance ResourceStatus_eq_dec : EqDecision ResourceStatus.
Proof. solve_decision. Defined.

(** The string value of each member of the enum. *)
Definition statusString (s : ResourceStatus) : string :=
  match s with
  | RUNNING => "Running"
  | PENDING => "Pending"
  | ERROR => "Error"
  | TERMINATING => "Terminating"
  end.

Module PodUsage.
Record t := mk { cpu : Q; memory : Q }.
End PodUsage.

Module K8sEvent.
Inductive type_ := Normal | Warning.
Record t := mk {
  id : string;
  type : type_;
  reason : string;
  message : string;
  timestamp : string
}.
End K8sEvent.

Module Alert.
Inductive type_ := Status | Utilization.
Inductive severity_ := Warning | Critical.
Record t := mk {
  id : string;
  podId : string;
  podName : string;
  type : type_;
  severity : severity_;
  message : string;
  timestamp : Z
}.
Global Instance type_eq_dec : EqDecision type_.
Proof. solve_decision. Defined.
Global Instance severity_eq_dec : EqDecision severity_.
Proof. solve_decision. Defined.
End Alert.

Module SchedulingConstraint.
Inductive type_ := NodeAffinity | PodAffinity | PodAntiAffinity.
Inductive rule_ := Required | Preferred.
Record t := mk { type : type_; rule : rule_; labelSelector : string }.
End SchedulingConstraint.

Module Pod.
Record t := mk {
  id : string;
  name : string;
  namespace : string;
  status : ResourceStatus;
  ip : string;
  node : string;
  labels : list (string * string);
  creationTimestamp : string;
  usage : PodUsage.t;
  events : list K8sEvent.t;
  connections : option (list string);
  schedulingConstraints : option (list SchedulingConstraint.t)
}.

(** [{ ...pod, status, usage }] *)
Definition spread_status_usage (pod : t) (status' : ResourceStatus)
    (usage' : PodUsage.t) : t :=
  mk (id pod) (name pod) (namespace pod) status' (ip pod) (node pod)
     (labels pod) (creationTimestamp pod) usage' (events pod)
     (connections pod) (schedulingConstraints pod).

(** [pod.connections?.push(x)] *)
Definition push_connection (pod : t) (x : string) : t :=
  mk (id pod) (name pod) (namespace pod) (status pod) (ip pod) (node pod)
     (labels pod) (creationTimestamp pod) (usage pod) (events pod)
     (match connections pod with
      | Some cs => Some (cs ++ [x])
      | None => None
      end)
     (schedulingConstraints pod).
End Pod.

Module ClusterState.
Record t := mk { pods : list Pod.t; namespaces : list string }.
End ClusterState.

Module K8sStep.
Record t := mk { description : string; command : string; explanation : string }.
End K8sStep.

Module AgentResponse.
Inductive intent_ := QUERY | ACTION | DEBUG.
Record t := mk { steps : list K8sStep.t; intent : intent_; summary : string }.
End AgentResponse.

(** The optional field [data] of a message, which carries the assistant's
    response to the chat view, is left out. *)
Module Message.
Inductive role_ := user | agent | terminal.
Record t := mk { role : role_; content : string; timestamp : Z }.
End Message.

(** ** The world: heap of [ClusterState] objects, random source, clock *)

Definition loc := nat.

Record World := mkWorld {
  heap : gmap loc ClusterState.t;
  draws : nat;   (* number of calls to Math.random() so far *)
  reads : nat    (* number of clock readings so far *)
}.

(** A computation reads and writes the world; [None] is an uncaught
    exception. *)
Definition M (A : Type) : Type := World -> option (A * World).

Global Instance M_ret : MRet M := fun A a w => Some (a, w).
Global Instance M_bind : MBind M := fun A B f m w =>
  match m w with
  | Some (a, w') => f a w'
  | None => None
  end.

Definition throw {A} : M A := fun _ => None.

(** [new] of an object literal *)
Definition alloc (o : ClusterState.t) : M loc := fun w =>
  let l := fresh (dom (heap w)) in
  Some (l, mkWorld (<[l := o]> (heap w)) (draws w) (reads w)).

Definition deref (l : loc) : M ClusterState.t := fun w =>
  match heap w !! l with
  | Some o => Some (o, w)
  | None => None
  end.

(** [l.pods = ps] *)
Definition assign_pods (l : loc) (ps : list Pod.t) : M unit := fun w =>
  match heap w !! l with
  | Some o =>
      Some (tt, mkWorld (<[l := ClusterState.mk ps (ClusterState.namespaces o)]> (heap w))
                        (draws w) (reads w))
  | None => None
  end.

(** [a.forEach((x, i) => ...)] where the body grows an accumulator. *)
Fixpoint forEach_go {A St} (body : A -> nat -> St -> M St) (i : nat)
    (l : list A) (acc : St) : M St :=
  match l with
  | [] => mret acc
  | x :: l' => acc' ← body x i acc; forEach_go body (S i) l' acc'
  end.

Definition forEach {A St} (body : A -> nat -> St -> M St) (l : list A)
    (acc : St) : M St :=
  forEach_go body 0 l acc.

(** [for (let j = 0; j < n; j++) ...] *)
Fixpoint repeatM {St} (n : nat) (body : St -> M St) (acc : St) : M St :=
  match n with
  | O => mret acc
  | S k => acc' ← body acc; repeatM k body acc'
  end.

(** ** The topology view ([components/ClusterView.tsx]) *)

Module ClusterView.

Inductive ViewMode := mesh | grid.

(** The part of the component state that the namespace filter and the
    zoom controls read and write. *)
Record State := mk {
  selectedNamespace : string;
  viewMode : ViewMode;
  zoom : Q
}.

(** The initial values of the [useState] calls. *)
Definition initial : State := mk "all" mesh (8 # 10).

Definition filteredPods (selectedNamespace : string) (pods : list Pod.t)
    : list Pod.t :=
  if String.eqb selectedNamespace "all" then pods
  else List.filter (fun p => String.eqb (Pod.namespace p) selectedNamespace) pods.

(** [nodeSet.add(x)] on a set kept as the list of its elements in the
    order of insertion, which is the order [Array.from] reads them in. *)
Definition add (nodeSet : list string) (x : string) : list string :=
  if bool_decide (x ∈ nodeSet) then nodeSet else nodeSet ++ [x].

(** [sort()] without a comparator orders strings by their code units. *)
Definition nodes (filteredPods : list Pod.t) : list string :=
  let nodeSet := foldl (fun nodeSet p => add nodeSet (Pod.node p)) [] filteredPods in
  merge_sort String.le nodeSet.

Definition handleWheel (deltaY : Q) (s : State) : State :=
  match viewMode s with
  | mesh =>
      let zoomDelta := (deltaY * - (1 # 1000))%Q in
      mk (selectedNamespace s) (viewMode s)
         (JS.max (3 # 10) (JS.min 2 (zoom s + zoomDelta)))
  | grid => s
  end.

(** The two zoom buttons. *)
Definition zoomOut (s : State) : State :=
  mk (selectedNamespace s) (viewMode s) (JS.max (3 # 10) (zoom s - (1 # 10))).

Definition zoomIn (s : State) : State :=
  mk (selectedNamespace s) (viewMode s) (JS.min 2 (zoom s + (1 # 10))).

Definition setViewMode (m : ViewMode) (s : State) : State :=
  mk (selectedNamespace s) m (zoom s).

Definition setSelectedNamespace (ns : string) (s : State) : State :=
  mk ns (viewMode s) (zoom s).

(** The events of the view that touch this part of the state. *)
Inductive Event :=
| Wheel (deltaY : Q)
| ZoomOut
| ZoomIn
| SetViewMode (m : ViewMode)
| SelectNamespace (ns : string).

Definition handle (s : State) (e : Event) : State :=
  match e with
  | Wheel deltaY => handleWheel deltaY s
  | ZoomOut => zoomOut s
  | ZoomIn => zoomIn s
  | SetViewMode m => setViewMode m s
  | SelectNamespace ns => setSelectedNamespace ns s
  end.

(** The zoom level shown between the buttons: [Math.round(zoom * 100)]. *)
Definition percent (s : State) : Z := JS.round (zoom s * 100).

End ClusterView.

(** ** The simulator ([services/kubernetesSimulator.ts]) *)

Section Simulator.

(** The environment: the sequence of values [Math.random()] returns, the
    sequence of clock readings (milliseconds), and the two library
    conversions the sources call on them. *)
Variable random : nat -> Q.
Variable clock : nat -> Z.
Variable toString36 : Q -> string.    (* Number.prototype.toString(36) *)
Variable toISOString : Z -> string.   (* Date.prototype.toISOString() *)

(** [Math.random()] returns a number of [0, 1). *)
Hypothesis random_range : forall n, (0 <= random n < 1)%Q.

(** [Math.random()] *)
Definition Math_random : M Q := fun w =>
  Some (random (draws w), mkWorld (heap w) (S (draws w)) (reads w)).

(** [new Date()] *)
Definition Date_new : M Z := fun w =>
  Some (clock (reads w), mkWorld (heap w) (draws w) (S (reads w))).

(** [Math.random().toString(36).substr(start, len)] *)
Definition randomString (start len : nat) : M string :=
  r ← Math_random; mret (JS.substr start len (toString36 r)).

Definition INITIAL_NAMESPACES : list string :=
  ["default"; "kube-system"; "production"; "monitoring"].

Definition generateMockEvents (podName nodeName : string) : M (list K8sEvent.t) :=
  now ← Date_new;
  id1 ← randomString 2 9;
  id2 ← randomString 2 9;
  id3 ← randomString 2 9;
  id4 ← randomString 2 9;
  id5 ← randomString 2 9;
  mret [
    K8sEvent.mk id1 K8sEvent.Normal "Scheduled"
      ("Successfully assigned " +:+ podName +:+ " to " +:+ nodeName)
      (toISOString (now - 1000 * 60 * 60)%Z);
    K8sEvent.mk id2 K8sEvent.Normal "Pulling"
      ("Pulling image " +:+ JS.dquote +:+ "nginx:latest" +:+ JS.dquote)
      (toISOString (now - 1000 * 60 * 59)%Z);
    K8sEvent.mk id3 K8sEvent.Normal "Pulled"
      ("Successfully pulled image " +:+ JS.dquote +:+ "nginx:latest"
         +:+ JS.dquote +:+ " in 2.1s")
      (toISOString (now - 1000 * 60 * 58)%Z);
    K8sEvent.mk id4 K8sEvent.Normal "Created" "Created container main"
      (toISOString (now - 1000 * 60 * 57)%Z);
    K8sEvent.mk id5 K8sEvent.Normal "Started" "Started container main"
      (toISOString (now - 1000 * 60 * 56)%Z)
  ].

Definition nodes : list string := ["node-1"; "node-2"; "node-3"].
Definition names : list string :=
  ["api-gateway"; "auth-service"; "user-db"; "redis-cache"; "worker-node-a"].
Definition systemNames : list string :=
  ["coredns"; "kube-proxy"; "calico-node"; "metrics-server"].

(** The [schedulingConstraints] pushed for an application pod. *)
Definition constraintsFor (name : string) : list SchedulingConstraint.t :=
  (if String.eqb name "api-gateway"
   then [SchedulingConstraint.mk SchedulingConstraint.NodeAffinity
           SchedulingConstraint.Required "disk=ssd"] else [])
  ++ (if String.eqb name "user-db"
      then [SchedulingConstraint.mk SchedulingConstraint.PodAntiAffinity
              SchedulingConstraint.Required "app=user-db"] else [])
  ++ (if String.eqb name "redis-cache"
      then [SchedulingConstraint.mk SchedulingConstraint.PodAffinity
              SchedulingConstraint.Preferred "app=user-db"] else []).

(** Body of [names.forEach((name, i) => ...)]. *)
Definition pushDefaultPod (name : string) (i : nat) (pods : list Pod.t)
    : M (list Pod.t) :=
  let nodeName := nth (i mod length nodes) nodes "undefined" in
  suffix ← randomString 0 5;
  let fullPodName := name +:+ "-" +:+ suffix in
  let constraints := constraintsFor name in
  idr ← randomString 2 9;
  created ← Date_new;
  r_cpu ← Math_random;
  r_mem ← Math_random;
  evs ← generateMockEvents fullPodName nodeName;
  mret (pods ++ [
    Pod.mk ("pod-" +:+ idr) fullPodName "default" RUNNING
      ("10.244.0." +:+ pretty (i + 10)%nat) nodeName
      [("app", name); ("tier", if (i <? 2)%nat then "frontend" else "backend")]
      (toISOString created)
      (PodUsage.mk (inject_Z (JS.floor (r_cpu * 60)) + 5)%Q
                   (inject_Z (JS.floor (r_mem * 70)) + 10)%Q)
      evs (Some []) (Some constraints)
  ]).

(** Body of [systemNames.forEach((name, i) => ...)]. *)
Definition pushSystemPod (name : string) (i : nat) (pods : list Pod.t)
    : M (list Pod.t) :=
  let nodeName := nth 0 nodes "undefined" in
  suffix ← randomString 0 5;
  let fullPodName := name +:+ "-" +:+ suffix in
  created ← Date_new;
  r_cpu ← Math_random;
  r_mem ← Math_random;
  evs ← generateMockEvents fullPodName nodeName;
  mret (pods ++ [
    Pod.mk ("sys-" +:+ pretty i) fullPodName "kube-system" RUNNING
      ("10.96.0." +:+ pretty (i + 1)%nat) nodeName
      [("k8s-app", name)]
      (toISOString created)
      (PodUsage.mk (inject_Z (JS.floor (r_cpu * 15)) + 2)%Q
                   (inject_Z (JS.floor (r_mem * 20)) + 5)%Q)
      evs (Some []) None
  ]).

(** One turn of [for (let j = 0; j < targetCount; j++)] for the pod at
    index [k]: the pod object is updated in place inside the array. *)
Definition connectOnce (k : nat) (pods : list Pod.t) : M (list Pod.t) :=
  r ← Math_random;
  match pods !! k, JS.at_ pods (JS.floor (r * inject_Z (Z.of_nat (length pods)))) with
  | Some pod, Some target =>
      if negb (String.eqb (Pod.id target) (Pod.id pod))
         && negb (match Pod.connections pod with
                  | Some cs => bool_decide (Pod.id target ∈ cs)
                  | None => false
                  end)
      then mret (<[k := Pod.push_connection pod (Pod.id target)]> pods)
      else mret pods
  | _, _ => throw   (* [target] is undefined: reading [target.id] throws *)
  end.

(** Body of [pods.forEach(pod => ...)]. *)
Definition setupConnections (k : nat) (pods : list Pod.t) : M (list Pod.t) :=
  r ← Math_random;
  if JS.gt r (1 # 2) then
    r2 ← Math_random;
    let targetCount := (JS.floor (r2 * 2) + 1)%Z in
    repeatM (Z.to_nat targetCount) (connectOnce k) pods
  else mret pods.

Definition generateMockPods : M (list Pod.t) :=
  pods ← forEach pushDefaultPod names [];
  pods ← forEach pushSystemPod systemNames pods;
  pods ← forEach (fun _ k pods => setupConnections k pods) pods pods;
  mret pods.

(** The class: its only field is the reference to the state object. *)
Record KubernetesSimulator := mkSim { state : loc }.

Definition new_KubernetesSimulator : M KubernetesSimulator :=
  pods ← generateMockPods;
  l ← alloc (ClusterState.mk pods INITIAL_NAMESPACES);
  mret (mkSim l).

(** The callback of [this.state.pods.map] in [getState]. *)
Definition tickPod (pod : Pod.t) : M Pod.t :=
  let status := Pod.status pod in
  r1 ← Math_random;
  let status :=
    if JS.lt r1 (1 # 100)
    then (if bool_decide (status = RUNNING) then ERROR else RUNNING)
    else status in
  r2 ← Math_random;
  let cpuDelta := (r2 * 10 - 5)%Q in
  r3 ← Math_random;
  let cpuDelta := (if JS.lt r3 (5 # 100) then 50 else cpuDelta)%Q in
  let cpu' :=
    JS.max 0 (JS.min 100 (PodUsage.cpu (Pod.usage pod) + cpuDelta))%Q in
  r4 ← Math_random;
  let memory' :=
    JS.max 0 (JS.min 100 (PodUsage.memory (Pod.usage pod) + (r4 * 4 - 2)))%Q in
  mret (Pod.spread_status_usage pod status (PodUsage.mk cpu' memory')).

Definition getState (this : KubernetesSimulator) : M loc :=
  st ← deref (state this);
  pods' ← mapM tickPod (ClusterState.pods st);
  _ ← assign_pods (state this) pods';
  mret (state this).

Definition shellTranscript (podName : string) : string :=
  JS.join JS.nl
    ("Defaulting container name to main." ::
     ("Successfully connected to pod/" +:+ podName) ::
     ["/ # whoami";
     "root";
     "/ # ls -F /app";
     "bin/  config.json  main.js  node_modules/  package.json  public/";
     "/ # netstat -tuln";
     "Active Internet connections (only servers)";
     "Proto Recv-Q Send-Q Local Address           Foreign Address         State       ";
     "tcp        0      0 0.0.0.0:8080            0.0.0.0:*               LISTEN      ";
     "/ # ps aux";
     "PID   USER     TIME  COMMAND";
     "    1 root      0:05 node main.js";
     "   42 root      0:00 /bin/sh";
     "   43 root      0:00 ps aux";
     "/ # exit";
     "command terminated with exit code 0"]).

Definition tcpdumpTranscript : string :=
  JS.join JS.nl
    ["tcpdump: listening on eth0, link-type EN10MB (Ethernet)";
     "10:00:01.123 IP 10.244.0.10.45678 > 10.244.0.15.80: Flags [S]";
     "10:00:01.124 IP 10.244.0.15.80 > 10.244.0.10.45678: Flags [S.]"].

Definition podsHeader : string :=
  JS.padEnd 30 "NAME" +:+ JS.padEnd 10 "READY" +:+ JS.padEnd 15 "STATUS"
    +:+ JS.padEnd 10 "RESTARTS" +:+ "AGE".

Definition podsRow (p : Pod.t) : string :=
  JS.padEnd 10 (JS.padEnd 30 (Pod.name p) +:+ "1/1")
    +:+ JS.padEnd 10 (JS.padEnd 15 (statusString (Pod.status p)) +:+ "0")
    +:+ "2d".

(** Not of the source: the row of a fixed-width table, each field padded
    to the width its column has in the header (30, 10, 15, 10), which is
    what the listing is specified to print. *)
Definition fixedWidthRow (p : Pod.t) : string :=
  JS.padEnd 30 (Pod.name p) +:+ JS.padEnd 10 "1/1"
    +:+ JS.padEnd 15 (statusString (Pod.status p)) +:+ JS.padEnd 10 "0"
    +:+ "2d".

Definition executeCommand (this : KubernetesSimulator) (command : string)
    : M string :=
  let cmd := JS.trim command in
  if JS.includes "exec -it" cmd then
    let podName := JS.show (JS.orElse (JS.matchExec cmd) (Some "pod")) in
    mret (shellTranscript podName)
  else if JS.includes "get pods" cmd then
    let nsMatch := JS.matchNamespace cmd in
    let ns :=
      match nsMatch with
      | Some (g1, g2) => JS.orElse g1 g2
      | None => Some "default"
      end in
    let all := JS.includes "-A" cmd || JS.includes "--all-namespaces" cmd in
    st ← deref (state this);
    let filtered :=
      if all then ClusterState.pods st
      else List.filter (fun p => bool_decide (Some (Pod.namespace p) = ns))
                       (ClusterState.pods st) in
    if (length filtered =? 0)%nat
    then mret ("No resources found in " +:+ JS.show ns +:+ " namespace.")
    else
      let header := podsHeader in
      let rows := List.map podsRow filtered in
      mret (JS.join JS.nl (header :: rows))
  else if JS.includes "describe pod" cmd then
    let podName :=
      match JS.split "describe pod " cmd !! 1%nat with
      | Some rest => head (JS.split " " rest)
      | None => None
      end in
    st ← deref (state this);
    match List.find (fun p => bool_decide (Some (Pod.name p) = podName))
                    (ClusterState.pods st) with
    | None =>
        mret ("Error: pod " +:+ JS.dquote +:+ JS.show podName +:+ JS.dquote
                +:+ " not found")
    | Some pod =>
        mret ("Name: " +:+ Pod.name pod +:+ JS.nl
                +:+ "Namespace: " +:+ Pod.namespace pod +:+ JS.nl
                +:+ "Status: " +:+ statusString (Pod.status pod) +:+ JS.nl
                +:+ "IP: " +:+ Pod.ip pod)
    end
  else if JS.includes "logs" cmd then
    d1 ← Date_new;
    d2 ← Date_new;
    d3 ← Date_new;
    mret ("[" +:+ toISOString d1 +:+ "] INFO: Starting service..." +:+ JS.nl
            +:+ "[" +:+ toISOString d2 +:+ "] INFO: Listening on port 8080" +:+ JS.nl
            +:+ "[" +:+ toISOString d3 +:+ "] INFO: Health check passed")
  else if JS.includes "tcpdump" cmd then
    mret tcpdumpTranscript
  else
    mret ("Command executed: " +:+ command +:+ JS.nl
            +:+ "Output: Success (Simulated)").

(** ** The dashboard ([App.tsx]): alert loop and command handlers *)

(** The state of the component that the handlers read and write.
    [clusterState] and [lastStateRef] hold references to [ClusterState]
    objects.  Rendering is not modelled; each later render evaluates
    [simulator.getState()] once more as the argument of [useState], which
    is one more tick of the simulator. *)
Record App := mkApp {
  simulator : KubernetesSimulator;
  clusterState : loc;
  alerts : list Alert.t;
  activeToast : option Alert.t;
  lastStateRef : loc;
  messages : list Message.t
}.

Definition THRESHOLD : Q := 90.

(** Body of [newState.pods.forEach(pod => ...)]; [lastPods] is
    [lastStateRef.current.pods], [newAlerts] the array being filled. *)
Definition alertBody (lastPods : list Pod.t) (pod : Pod.t)
    (newAlerts : list Alert.t) : M (list Alert.t) :=
  match List.find (fun p => String.eqb (Pod.id p) (Pod.id pod)) lastPods with
  | None => mret newAlerts
  | Some lastPod =>
      newAlerts ←
        (if bool_decide (Pod.status pod = ERROR)
            && negb (bool_decide (Pod.status lastPod = ERROR))
         then
           aid ← randomString 2 9;
           now ← Date_new;
           mret (newAlerts ++ [
             Alert.mk aid (Pod.id pod) (Pod.name pod) Alert.Status Alert.Critical
               ("Pod " +:+ Pod.name pod +:+ " has entered Error state!") now ])
         else mret newAlerts);
      let cpu := PodUsage.cpu (Pod.usage pod) in
      let memory := PodUsage.memory (Pod.usage pod) in
      if (JS.gt cpu THRESHOLD && JS.le (PodUsage.cpu (Pod.usage lastPod)) THRESHOLD)
         || (JS.gt memory THRESHOLD
             && JS.le (PodUsage.memory (Pod.usage lastPod)) THRESHOLD)
      then
        let metric := if JS.gt cpu THRESHOLD then "CPU" else "Memory" in
        aid ← randomString 2 9;
        now ← Date_new;
        mret (newAlerts ++ [
          Alert.mk aid (Pod.id pod) (Pod.name pod) Alert.Utilization
            (if JS.gt cpu 95 then Alert.Critical else Alert.Warning)
            ("High " +:+ metric +:+ " usage on " +:+ Pod.name pod +:+ " ("
               +:+ pretty (JS.round (JS.max cpu memory)) +:+ "%)")
            now ])
      else mret newAlerts
  end.

(** The alert loop on a pair of snapshots given as values. *)
Definition alertLoop (lastPods newPods : list Pod.t) : M (list Alert.t) :=
  forEach (fun pod _ acc => alertBody lastPods pod acc) newPods [].

(** The alert loop over a sequence of snapshots: one run per pair of
    consecutive snapshots. *)
Fixpoint alertRuns (prev : list Pod.t) (later : list (list Pod.t))
    : M (list (list Alert.t)) :=
  match later with
  | [] => mret []
  | next :: rest =>
      a ← alertLoop prev next;
      r ← alertRuns next rest;
      mret (a :: r)
  end.

(** The callback of [setInterval]. *)
Definition onInterval (app : App) : M App :=
  newState ← getState (simulator app);
  new ← deref newState;
  newAlerts ←
    forEach (fun pod _ acc =>
               last ← deref (lastStateRef app);
               alertBody (ClusterState.pods last) pod acc)
            (ClusterState.pods new) [];
  let alerts' :=
    if (0 <? length newAlerts)%nat
    then take 50 (newAlerts ++ alerts app) else alerts app in
  let activeToast' :=
    if (0 <? length newAlerts)%nat
    then head newAlerts else activeToast app in
  cur ← deref newState;
  copy ← alloc cur;                       (* { ...newState } *)
  mret (mkApp (simulator app) copy alerts' activeToast' newState (messages app)).

(** First render: [useState(() => new KubernetesSimulator())],
    [useState(simulator.getState())], [useRef(clusterState)]. *)
Definition mount : M App :=
  sim ← new_KubernetesSimulator;
  cs ← getState sim;
  now ← Date_new;
  mret (mkApp sim cs [] None cs
          [Message.mk Message.agent
             "Hello! I'm KubeAgent. I've enabled real-time monitoring for your cluster. I'll alert you if any pod enters an Error state or exceeds 90% utilization."
             now]).

Definition terminalMessage (command output : string) (now : Z) : Message.t :=
  Message.mk Message.terminal ("$ " +:+ command +:+ JS.nl +:+ output) now.

Definition handleTerminalCommand (command : string) (app : App) : M App :=
  if bool_decide (JS.trim command = "") then mret app
  else
    output ← executeCommand (simulator app) command;
    now ← Date_new;
    st ← getState (simulator app);
    cur ← deref st;
    copy ← alloc cur;
    mret (mkApp (simulator app) copy (alerts app) (activeToast app)
                (lastStateRef app)
                (messages app ++ [terminalMessage command output now])).

(** Body of [for (const step of response.steps)] in [handleUserInput]. *)
Definition runStep (step : K8sStep.t) (msgs : list Message.t)
    : KubernetesSimulator -> M (list Message.t) := fun sim =>
  terminalOutput ← executeCommand sim (K8sStep.command step);
  now ← Date_new;
  mret (msgs ++ [terminalMessage (K8sStep.command step) terminalOutput now]).

(** [handleUserInput] from the point where the assistant's response has
    arrived; no computation of the [try] block throws. *)
Definition handleUserInput (text : string) (response : AgentResponse.t)
    (app : App) : M App :=
  t1 ← Date_new;
  let msgs := messages app ++ [Message.mk Message.user text t1] in
  t2 ← Date_new;
  let msgs := msgs ++ [Message.mk Message.agent (AgentResponse.summary response) t2] in
  msgs ← forEach (fun step _ acc => runStep step acc (simulator app))
                 (AgentResponse.steps response) msgs;
  st ← getState (simulator app);
  cur ← deref st;
  copy ← alloc cur;
  mret (mkApp (simulator app) copy (alerts app) (activeToast app)
              (lastStateRef app) msgs).


(** ** Vocabulary of the statements *)

(** The invariant of [PodUsage]: both percentages lie in [0,100]. *)
Definition usage_in_range (p : Pod.t) : Prop :=
  (0 <= PodUsage.cpu (Pod.usage p) <= 100)%Q
  /\ (0 <= PodUsage.memory (Pod.usage p) <= 100)%Q.

(** [p'] has the fields of [p] other than [status] and [usage]. *)
Definition same_but_status_usage (p p' : Pod.t) : Prop :=
  Pod.id p' = Pod.id p /\ Pod.name p' = Pod.name p
  /\ Pod.namespace p' = Pod.namespace p /\ Pod.ip p' = Pod.ip p
  /\ Pod.node p' = Pod.node p /\ Pod.labels p' = Pod.labels p
  /\ Pod.creationTimestamp p' = Pod.creationTimestamp p
  /\ Pod.events p' = Pod.events p
  /\ Pod.connections p' = Pod.connections p
  /\ Pod.schedulingConstraints p' = Pod.schedulingConstraints p.

(** [p'] has the fields of [p] other than [connections]. *)
Definition same_but_connections (p p' : Pod.t) : Prop :=
  Pod.id p' = Pod.id p /\ Pod.namespace p' = Pod.namespace p
  /\ Pod.status p' = Pod.status p /\ Pod.usage p' = Pod.usage p.

(** What the status-flip rule of [getState] does to a status when the
    draw [r] is the first of the four draws made for the pod. *)
Definition flipStatus (r : Q) (s : ResourceStatus) : ResourceStatus :=
  if JS.lt r (1 # 100)
  then match s with RUNNING => ERROR | _ => RUNNING end
  else s.

(** The shape of the seed cluster that survives ticks and commands: the
    namespaces of the nine pods, in order. *)
Definition seedNamespaces : list string :=
  replicate 5 "default" ++ replicate 4 "kube-system".

Definition seeded (p : Pod.t) : Prop :=
  usage_in_range p /\ (Pod.status p = RUNNING \/ Pod.status p = ERROR).

(** The invariant of the simulator in a world. *)
Definition sim_inv (l : loc) (w : World) : Prop :=
  exists st, heap w !! l = Some st
    /\ Forall seeded (ClusterState.pods st)
    /\ Pod.namespace <$> ClusterState.pods st = seedNamespaces.

(** What one tick does to a pod. *)
Definition tick_rel (p p' : Pod.t) : Prop :=
  same_but_status_usage p p' /\ usage_in_range p'
  /\ exists r, Pod.status p' = flipStatus r (Pod.status p).

(** One step of the simulator as the dashboard drives it: a tick or the
    execution of a command. *)
Inductive step (sim : KubernetesSimulator) : World -> World -> Prop :=
| step_tick w l w' :
    getState sim w = Some (l, w') -> step sim w w'
| step_command command w out w' :
    executeCommand sim command w = Some (out, w') -> step sim w w'.

(** The worlds reachable from the construction of the simulator. *)
Inductive reachable (sim : KubernetesSimulator) : World -> Prop :=
| reachable_init w0 w :
    new_KubernetesSimulator w0 = Some (sim, w) -> reachable sim w
| reachable_step w w' :
    reachable sim w -> step sim w w' -> reachable sim w'.

(** The pod with identifier [id] in a snapshot, as the alert loop looks it
    up: the first one whose [id] is equal. *)
Definition lookupPod (id : string) (snap : list Pod.t) : option Pod.t :=
  List.find (fun p => String.eqb (Pod.id p) id) snap.

(** The two edge conditions of the alert loop between the previous and
    the next version of a pod. *)
Definition statusEdge (lastPod pod : Pod.t) : bool :=
  bool_decide (Pod.status pod = ERROR)
  && negb (bool_decide (Pod.status lastPod = ERROR)).

Definition utilizationEdge (lastPod pod : Pod.t) : bool :=
  (JS.gt (PodUsage.cpu (Pod.usage pod)) 90
   && JS.le (PodUsage.cpu (Pod.usage lastPod)) 90)
  || (JS.gt (PodUsage.memory (Pod.usage pod)) 90
      && JS.le (PodUsage.memory (Pod.usage lastPod)) 90).

(** The memory half of the utilization edge alone. *)
Definition memoryEdge (lastPod pod : Pod.t) : bool :=
  JS.gt (PodUsage.memory (Pod.usage pod)) 90
  && JS.le (PodUsage.memory (Pod.usage lastPod)) 90.

(** The two alerts the loop builds for a pod; [aid] and [now] come from
    the random source and the clock. *)
Definition statusAlert (pod : Pod.t) (aid : string) (now : Z) : Alert.t :=
  Alert.mk aid (Pod.id pod) (Pod.name pod) Alert.Status Alert.Critical
    ("Pod " +:+ Pod.name pod +:+ " has entered Error state!") now.

Definition utilizationAlert (pod : Pod.t) (aid : string) (now : Z) : Alert.t :=
  let cpu := PodUsage.cpu (Pod.usage pod) in
  let memory := PodUsage.memory (Pod.usage pod) in
  Alert.mk aid (Pod.id pod) (Pod.name pod) Alert.Utilization
    (if JS.gt cpu 95 then Alert.Critical else Alert.Warning)
    ("High " +:+ (if JS.gt cpu 90 then "CPU" else "Memory") +:+ " usage on "
       +:+ Pod.name pod +:+ " (" +:+ pretty (JS.round (JS.max cpu memory)) +:+ "%)")
    now.

(** What one turn of the alert loop appends for [pod]. *)
Definition emits (lastPods : list Pod.t) (pod : Pod.t) (new : list Alert.t) : Prop :=
  match lookupPod (Pod.id pod) lastPods with
  | None => new = []
  | Some lastPod =>
      exists s u, new = s ++ u
        /\ (if statusEdge lastPod pod
            then exists aid now, s = [statusAlert pod aid now] else s = [])
        /\ (if utilizationEdge lastPod pod
            then exists aid now, u = [utilizationAlert pod aid now] else u = [])
  end.

(** The alerts of one type raised for one pod among [alerts]. *)
Definition alertsFor (ty : Alert.type_) (id : string) (alerts : list Alert.t)
    : list Alert.t :=
  List.filter (fun a => bool_decide (Alert.type a = ty)
                        && String.eqb (Alert.podId a) id) alerts.

(** All the alerts raised for one pod among [alerts]. *)
Definition alertsOfPod (id : string) (alerts : list Alert.t) : list Alert.t :=
  List.filter (fun a => String.eqb (Alert.podId a) id) alerts.

(** Along the successive versions [p :: later] of one pod: for each tick,
    1 if the utilization edge holds between the two versions, else 0. *)
Fixpoint utilizationEdges (p : Pod.t) (later : list Pod.t) : list nat :=
  match later with
  | [] => []
  | q :: rest => (if utilizationEdge p q then 1%nat else 0%nat) :: utilizationEdges q rest
  end.

(** No tick along [p :: later] on which memory crosses the threshold. *)
Fixpoint noMemoryEdge (p : Pod.t) (later : list Pod.t) : Prop :=
  match later with
  | [] => True
  | q :: rest => memoryEdge p q = false /\ noMemoryEdge q rest
  end.

(** Shapes of strings: only white space, no white space, and the place
    where a captured word ends (end of the text or white space). *)
Fixpoint allSpaces (s : string) : Prop :=
  match s with
  | "" => True
  | String c s' => JS.isSpace c = true /\ allSpaces s'
  end.

Fixpoint noSpace (s : string) : Prop :=
  match s with
  | "" => True
  | String c s' => JS.isSpace c = false /\ noSpace s'
  end.

Definition wordEnds (post : string) : Prop :=
  match post with
  | "" => True
  | String c _ => JS.isSpace c = true
  end.

(** [cmd] carries the flag [-n <ns>], respectively [--namespace=<ns>]. *)
Definition shortFlag (cmd ns : string) : Prop :=
  exists pre sp post,
    cmd = pre +:+ "-n" +:+ sp +:+ ns +:+ post
    /\ sp <> "" /\ allSpaces sp /\ ns <> "" /\ noSpace ns /\ wordEnds post.

Definition longFlag (cmd ns : string) : Prop :=
  exists pre post,
    cmd = pre +:+ "--namespace=" +:+ ns +:+ post
    /\ ns <> "" /\ noSpace ns /\ wordEnds post.

(** A sample environment and sample data for concrete instances. *)
Definition sampleRandom (n : nat) : Q :=
  (inject_Z (Z.of_nat (n mod 10)) / 10)%Q.
Definition sampleClock (n : nat) : Z := 1700000000000 + Z.of_nat n.
Definition sampleToString36 (q : Q) : string := "0.k3x9q2m7p1w".
Definition sampleToISOString (z : Z) : string := "2023-11-14T22:13:20.000Z".
Definition emptyWorld : World := mkWorld ∅ 0 0.

Definition samplePod (id ns : string) (st : ResourceStatus) (cpu mem : Q) : Pod.t :=
  Pod.mk id ("web-" +:+ id) ns st "10.244.0.10" "node-1" [("app", "web")]
    "2023-11-14T22:13:20.000Z" (PodUsage.mk cpu mem) [] (Some []) None.

(** ** Vocabulary of further statements *)

(** Where a pod runs and how it is labelled. *)
Definition placement (p : Pod.t)
    : string * string * string * list (string * string) :=
  (Pod.namespace p, Pod.ip p, Pod.node p, Pod.labels p).

(** The placement of the nine seed pods, in the order of the array. *)
Definition seedPlacement
    : list (string * string * string * list (string * string)) :=
  [("default", "10.244.0.10", "node-1", [("app", "api-gateway"); ("tier", "frontend")]);
   ("default", "10.244.0.11", "node-2", [("app", "auth-service"); ("tier", "frontend")]);
   ("default", "10.244.0.12", "node-3", [("app", "user-db"); ("tier", "backend")]);
   ("default", "10.244.0.13", "node-1", [("app", "redis-cache"); ("tier", "backend")]);
   ("default", "10.244.0.14", "node-2", [("app", "worker-node-a"); ("tier", "backend")]);
   ("kube-system", "10.96.0.1", "node-1", [("k8s-app", "coredns")]);
   ("kube-system", "10.96.0.2", "node-1", [("k8s-app", "kube-proxy")]);
   ("kube-system", "10.96.0.3", "node-1", [("k8s-app", "calico-node")]);
   ("kube-system", "10.96.0.4", "node-1", [("k8s-app", "metrics-server")])].

(** The fields of a pod that no tick changes. *)
Definition static (p : Pod.t) :=
  (Pod.id p, Pod.name p, placement p, Pod.creationTimestamp p, Pod.events p,
   Pod.connections p, Pod.schedulingConstraints p).

(** The fields of a pod other than its links. *)
Definition unlinked (p : Pod.t) :=
  (Pod.id p, Pod.name p, placement p, Pod.creationTimestamp p, Pod.events p,
   Pod.schedulingConstraints p, Pod.status p, Pod.usage p).

(** The event history [generateMockEvents] gives a pod. *)
Definition events_ok (p : Pod.t) : Prop :=
  K8sEvent.reason <$> Pod.events p
  = ["Scheduled"; "Pulling"; "Pulled"; "Created"; "Started"]
  /\ Forall (fun e => K8sEvent.type e = K8sEvent.Normal) (Pod.events p)
  /\ K8sEvent.message <$> head (Pod.events p)
     = Some ("Successfully assigned " +:+ Pod.name p +:+ " to " +:+ Pod.node p).

(** The outbound links of a pod: at most [n], no link to itself, no
    target twice, every target the identifier of a pod of [ids]. *)
Definition conn_ok (ids : list string) (n : nat) (p : Pod.t) : Prop :=
  exists cs, Pod.connections p = Some cs
    /\ NoDup cs /\ (Pod.id p ∉ cs) /\ (forall x, x ∈ cs -> x ∈ ids)
    /\ (length cs <= n)%nat.

(** What the seed loops establish for the pod built from [base] at index
    [i] of its roster, apart from its placement. *)
Definition seed_pod (idPrefix base : string) (p : Pod.t) : Prop :=
  (exists sfx, Pod.name p = base +:+ "-" +:+ sfx)
  /\ (exists r, Pod.id p = idPrefix +:+ r)
  /\ Pod.connections p = Some []
  /\ events_ok p.

(** The bound on the links of the pod at index [i] while the connection
    loop is in turn [k], after [j] rounds of its inner loop. *)
Definition linkBound (k j i : nat) : nat :=
  if (i <? k)%nat then 2%nat else if (i =? k)%nat then j else 0%nat.

(** The fields the seed facts are about. *)
Definition core (p : Pod.t) :=
  (Pod.id p, Pod.name p, placement p, Pod.events p).

(** The seed facts that hold along every run. *)
Definition seed_core (pods : list Pod.t) : Prop :=
  placement <$> pods = seedPlacement
  /\ Forall2 (fun base p => exists sfx, Pod.name p = base +:+ "-" +:+ sfx)
       (names ++ systemNames) pods
  /\ Pod.id <$> drop 5 pods = ["sys-0"; "sys-1"; "sys-2"; "sys-3"]
  /\ Forall events_ok pods.

Definition seed_inv (st : ClusterState.t) : Prop :=
  ClusterState.namespaces st = INITIAL_NAMESPACES
  /\ seed_core (ClusterState.pods st)
  /\ Forall (conn_ok (Pod.id <$> ClusterState.pods st) 2) (ClusterState.pods st).

(** A store with two pods of distinct identifiers and a dashboard on it,
    for concrete instances. *)
Definition sampleStore : ClusterState.t :=
  ClusterState.mk [samplePod "p1" "default" RUNNING 88 40;
                   samplePod "p2" "kube-system" RUNNING 20 30]
                  ["default"; "kube-system"].
Definition sampleHeapWorld : World := mkWorld {[ 0%nat := sampleStore ]} 0 0.
Definition sampleApp : App := mkApp (mkSim 0%nat) 0%nat [] None 0%nat [].

(** A dashboard whose previous snapshot is an object of its own: the
    store holds the pod at 95% cpu, the previous snapshot at 80%. *)
Definition sampleAlertWorld : World :=
  mkWorld (<[ 1%nat := ClusterState.mk [samplePod "p1" "default" RUNNING 80 40]
                                       ["default"] ]>
             {[ 0%nat := ClusterState.mk [samplePod "p1" "default" RUNNING 95 40]
                                         ["default"] ]}) 0 0.
Definition sampleAlertApp : App := mkApp (mkSim 0%nat) 1%nat [] None 1%nat [].

(** ** Further code of the dashboard ([App.tsx]) and of the terminal view *)

(** The part of the component state that holds the contexts and the
    active tab. *)
Inductive Tab := topology | terminal.

Record View := mkView {
  contexts : list string;
  activeContext : string;
  showContextSelector : bool;
  activeTab : Tab
}.

(** The initial values of the [useState] calls. *)
Definition initialView : View :=
  mkView ["minikube-dev"; "gke-prod-cluster"; "eks-staging-01"] "minikube-dev"
         false topology.

(** [handlePodAction]: the action of a pod card of the topology view. *)
Definition handlePodAction (action : string) (pod : Pod.t) (app : App)
    (view : View) : M (App * View) :=
  app' ←
    (if String.eqb action "logs" then
       let command :=
         "kubectl logs " +:+ Pod.name pod +:+ " -n " +:+ Pod.namespace pod in
       output ← executeCommand (simulator app) command;
       t1 ← Date_new;
       t2 ← Date_new;
       mret (mkApp (simulator app) (clusterState app) (alerts app)
               (activeToast app) (lastStateRef app)
               (messages app ++ [
                  Message.mk Message.agent
                    ("Opening logs for " +:+ Pod.name pod +:+ " in "
                       +:+ activeContext view +:+ "...") t1;
                  Message.mk Message.terminal
                    ("$ " +:+ command +:+ JS.nl +:+ output) t2 ]))
     else if String.eqb action "exec" then
       let command :=
         "kubectl exec -it " +:+ Pod.name pod +:+ " -n " +:+ Pod.namespace pod
           +:+ " -- /bin/sh" in
       output ← executeCommand (simulator app) command;
       t1 ← Date_new;
       t2 ← Date_new;
       mret (mkApp (simulator app) (clusterState app) (alerts app)
               (activeToast app) (lastStateRef app)
               (messages app ++ [
                  Message.mk Message.agent
                    ("Initializing interactive shell in " +:+ Pod.name pod
                       +:+ " on " +:+ activeContext view +:+ "...") t1;
                  Message.mk Message.terminal
                    ("$ " +:+ command +:+ JS.nl +:+ output) t2 ]))
     else mret app);
  mret (app', mkView (contexts view) (activeContext view)
                     (showContextSelector view) terminal).

(** [handleAddContext]; [name] is what [prompt] returned, [None] when the
    dialog was cancelled. *)
Definition handleAddContext (name : option string) (app : App) (view : View)
    : M (App * View) :=
  match name with
  | Some (String _ _ as name) =>
      if negb (bool_decide (name ∈ contexts view)) then
        now ← Date_new;
        mret (mkApp (simulator app) (clusterState app) (alerts app)
                (activeToast app) (lastStateRef app)
                (messages app ++ [
                   Message.mk Message.agent
                     ("Switched context to " +:+ JS.dquote +:+ name +:+ JS.dquote
                        +:+ ". I am now monitoring this new environment.") now ]),
              mkView (contexts view ++ [name]) name false (activeTab view))
      else mret (app, view)
  | _ => mret (app, view)
  end.

(** [isShellActive] of the terminal view, on the messages it is given. *)
Definition isShellActive (messages : list Message.t) : bool :=
  match last messages with
  | Some lastMessage =>
      JS.includes "exec -it" (Message.content lastMessage)
      && negb (JS.includes "command terminated" (Message.content lastMessage))
  | None => false
  end.

(** The three log lines of the logs rule. *)
Definition logLines (d1 d2 d3 : Z) : string :=
  "[" +:+ toISOString d1 +:+ "] INFO: Starting service..." +:+ JS.nl
    +:+ "[" +:+ toISOString d2 +:+ "] INFO: Listening on port 8080" +:+ JS.nl
    +:+ "[" +:+ toISOString d3 +:+ "] INFO: Health check passed".

(** The [messages] prop of the terminal view:
    [messages.filter(m => m.role === 'terminal')]. *)
Definition terminalViewMessages (app : App) : list Message.t :=
  List.filter (fun m => match Message.role m with
                        | Message.terminal => true
                        | _ => false
                        end) (messages app).

(** The table that the list-pods rule prints for the pods [l]. *)
Definition listing (l : list Pod.t) : string :=
  JS.join JS.nl (podsHeader :: List.map podsRow l).

(** [handleSubmit] of the terminal view ([components/TerminalView.tsx]),
    with [handleTerminalCommand] as its [onExecuteCommand]; the second
    component of the result is the content of the input box. *)
Definition handleSubmit (inputValue : string) (app : App) : M (App * string) :=
  if negb (bool_decide (JS.trim inputValue = "")) then
    app' ← handleTerminalCommand (JS.trim inputValue) app;
    mret (app', "")
  else mret (app, inputValue).

(** What one step of the loop appends: the terminal message of a command
    run in a world whose heap is that of [w]. *)
Definition stepMessage (sim : KubernetesSimulator) (w : World) (step : K8sStep.t)
    (m : Message.t) : Prop :=
  exists wi out wi',
    heap wi = heap w /\ draws wi = draws w
    /\ executeCommand sim (K8sStep.command step) wi = Some (out, wi')
    /\ m = terminalMessage (K8sStep.command step) out (clock (reads wi')).

(** ** Reasoning about computations *)

(** [returns m Q]: from every world [m] finishes without exception,
    leaves the heap as it was, and its result satisfies [Q]. *)
Definition returns {A} (m : M A) (Q : A -> Prop) : Prop :=
  forall w, exists a w', m w = Some (a, w') /\ heap w' = heap w /\ Q a.

Lemma bind_eq {A B} (m : M A) (f : A -> M B) (w : World) :
  (m ≫= f) w = match m w with Some (a, w') => f a w' | None => None end.
Proof. reflexivity. Qed.

Lemma returns_ret {A} (a : A) (Q : A -> Prop) : Q a -> returns (mret a) Q.
Proof. intros HQ w. exists a, w. auto. Qed.

Lemma returns_bind {A B} (m : M A) (f : A -> M B) (Q1 : A -> Prop)
    (Q2 : B -> Prop) :
  returns m Q1 -> (forall a, Q1 a -> returns (f a) Q2) ->
  returns (m ≫= f) Q2.
Proof.
  intros Hm Hf w. destruct (Hm w) as (a & w1 & E1 & H1 & HQ1).
  destruct (Hf a HQ1 w1) as (b & w2 & E2 & H2 & HQ2).
  exists b, w2. unfold mbind, M_bind. rewrite E1. split; [exact E2|].
  split; [congruence | exact HQ2].
Qed.

Lemma returns_weaken {A} (m : M A) (Q1 Q2 : A -> Prop) :
  returns m Q1 -> (forall a, Q1 a -> Q2 a) -> returns m Q2.
Proof.
  intros Hm HQ w. destruct (Hm w) as (a & w1 & E1 & H1 & HQ1).
  exists a, w1. auto.
Qed.

Lemma returns_random : returns Math_random (fun _ => True).
Proof. intros w. eexists _, _. split; [reflexivity|]. simpl. auto. Qed.

Lemma returns_Date : returns Date_new (fun _ => True).
Proof. intros w. eexists _, _. split; [reflexivity|]. simpl. auto. Qed.

Lemma returns_randomString a b : returns (randomString a b) (fun _ => True).
Proof.
  eapply returns_bind; [apply returns_random|].
  intros r _. by apply returns_ret.
Qed.

Lemma returns_mapM {A B} (f : A -> M B) (R : A -> B -> Prop) (l : list A) :
  (forall a, returns (f a) (R a)) -> returns (mapM f l) (Forall2 R l).
Proof.
  intros Hf. induction l as [|a l IH]; simpl.
  - apply returns_ret. constructor.
  - eapply returns_bind; [apply Hf|]. intros b Hb.
    eapply returns_bind; [apply IH|]. intros k Hk.
    apply returns_ret. by constructor.
Qed.

Lemma returns_forEach_go {A St} (body : A -> nat -> St -> M St)
    (I : nat -> St -> Prop) (l : list A) :
  forall i acc,
  (forall k x acc, l !! k = Some x -> I (i + k)%nat acc ->
     returns (body x (i + k)%nat acc) (I (S (i + k)))) ->
  I i acc ->
  returns (forEach_go body i l acc) (I (i + length l)%nat).
Proof.
  induction l as [|x l IH]; intros i acc Hbody HI; simpl.
  - apply returns_ret. by rewrite Nat.add_0_r.
  - eapply returns_bind.
    + specialize (Hbody 0%nat x acc eq_refl). rewrite Nat.add_0_r in Hbody.
      by apply Hbody.
    + intros acc' HI'. replace (i + S (length l))%nat with (S i + length l)%nat by lia.
      apply IH; [|exact HI'].
      intros k y acc0 Hk. replace (S i + k)%nat with (i + S k)%nat by lia.
      by apply Hbody.
Qed.

Lemma returns_forEach {A St} (body : A -> nat -> St -> M St)
    (I : nat -> St -> Prop) (l : list A) (acc : St) :
  (forall k x acc, l !! k = Some x -> I k acc ->
     returns (body x k acc) (I (S k))) ->
  I 0%nat acc ->
  returns (forEach body l acc) (I (length l)).
Proof.
  intros Hbody HI. unfold forEach.
  apply (returns_forEach_go body I l 0%nat acc); auto.
Qed.

Lemma returns_repeatM {St} (body : St -> M St) (I : St -> Prop) (n : nat) :
  forall acc,
  (forall acc, I acc -> returns (body acc) I) -> I acc ->
  returns (repeatM n body acc) I.
Proof.
  induction n as [|n IH]; intros acc Hbody HI; simpl.
  - by apply returns_ret.
  - eapply returns_bind; [by apply Hbody|]. intros acc' HI'. by apply IH.
Qed.

(** ** Numbers *)

Lemma lt_spec x y : JS.lt x y = true <-> (x < y)%Q.
Proof.
  unfold JS.lt. rewrite negb_true_iff.
  destruct (Qle_bool y x) eqn:E.
  - apply Qle_bool_iff in E. split; [discriminate|]. intros H. lra.
  - split; [|reflexivity]. intros _.
    destruct (Qlt_le_dec x y) as [H|H]; [exact H|].
    apply Qle_bool_iff in H. congruence.
Qed.

Lemma gt_spec x y : JS.gt x y = true <-> (y < x)%Q.
Proof. apply lt_spec. Qed.

Lemma le_spec x y : JS.le x y = true <-> (x <= y)%Q.
Proof. apply Qle_bool_iff. Qed.

Lemma gt_le_negb x y : JS.le x y = negb (JS.gt x y).
Proof. unfold JS.gt, JS.lt, JS.le. by rewrite negb_involutive. Qed.

(** [Math.max(0, Math.min(100, x))] lies in [0,100]. *)
Lemma clamp_range x : (0 <= JS.max 0 (JS.min 100 x) <= 100)%Q.
Proof.
  unfold JS.max, JS.min. split.
  - apply Q.le_max_l.
  - apply Q.max_lub; [lra | apply Q.le_min_l].
Qed.

Lemma floor_mul_range (r : Q) (n : Z) :
  (0 < n)%Z -> (0 <= r < 1)%Q ->
  (0 <= JS.floor (r * inject_Z n) < n)%Z.
Proof.
  intros Hn [H0 H1]. unfold JS.floor.
  assert (Hq : (0 < inject_Z n)%Q) by (rewrite (Zlt_Qlt 0 n) in Hn; exact Hn).
  split.
  - rewrite <- (Qfloor_Z 0). apply Qfloor_resp_le.
    apply Qmult_le_0_compat; [exact H0 | by apply Qlt_le_weak].
  - rewrite Zlt_Qlt. eapply Qle_lt_trans; [apply Qfloor_le|].
    pose proof (Qmult_lt_compat_r r 1 (inject_Z n) Hq H1) as H. lra.
Qed.


(** ** The tick *)

Lemma returns_random_range : returns Math_random (fun r => (0 <= r < 1)%Q).
Proof. intros w. eexists _, _. split; [reflexivity|]. simpl. auto. Qed.

(** [tickPod] makes four draws and never fails; its result is a function
    of the pod and of the draws. *)
Lemma tickPod_eq (pod : Pod.t) (w : World) :
  tickPod pod w =
  Some (Pod.spread_status_usage pod
          (flipStatus (random (draws w)) (Pod.status pod))
          (PodUsage.mk
             (JS.max 0 (JS.min 100
                (PodUsage.cpu (Pod.usage pod) +
                 (if JS.lt (random (2 + draws w)) (5 # 100) then 50
                  else random (1 + draws w) * 10 - 5))))
             (JS.max 0 (JS.min 100
                (PodUsage.memory (Pod.usage pod) + (random (3 + draws w) * 4 - 2))))),
        mkWorld (heap w) (4 + draws w) (reads w)).
Proof.
  unfold tickPod, flipStatus, Math_random, mbind, M_bind, mret, M_ret. simpl.
  destruct (Pod.status pod); reflexivity.
Qed.

Lemma returns_tickPod (pod : Pod.t) : returns (tickPod pod) (tick_rel pod).
Proof.
  intros w. eexists _, _. split; [apply tickPod_eq|]. split; [reflexivity|].
  split; [|split].
  - unfold same_but_status_usage. simpl. tauto.
  - split; simpl; apply clamp_range.
  - simpl. eauto.
Qed.

(** [getState] on a simulator whose state object is in the heap: it
    returns the reference held in [this.state] and stores the ticked
    pods in that object. *)
Lemma getState_spec (this : KubernetesSimulator) (w : World) (st : ClusterState.t) :
  heap w !! state this = Some st ->
  exists pods' w',
    getState this w = Some (state this, w')
    /\ heap w' = <[state this := ClusterState.mk pods' (ClusterState.namespaces st)]> (heap w)
    /\ Forall2 tick_rel (ClusterState.pods st) pods'.
Proof.
  intros Hst.
  destruct (returns_mapM tickPod tick_rel (ClusterState.pods st) returns_tickPod w)
    as (pods' & w1 & E1 & H1 & HF).
  exists pods'. eexists.
  unfold getState. rewrite bind_eq. unfold deref at 1. rewrite Hst.
  rewrite bind_eq, E1, bind_eq. unfold assign_pods. rewrite H1, Hst.
  split; [reflexivity|]. simpl. auto.
Qed.

(** ** Commands *)

Lemma deref_eq (l : loc) (w : World) (st : ClusterState.t) :
  heap w !! l = Some st -> deref l w = Some (st, w).
Proof. intros H. unfold deref. by rewrite H. Qed.

(** Every command returns, and the heap after it is the heap before. *)
Lemma executeCommand_spec (this : KubernetesSimulator) (command : string)
    (w : World) (st : ClusterState.t) :
  heap w !! state this = Some st ->
  exists out w', executeCommand this command w = Some (out, w') /\ heap w' = heap w.
Proof.
  intros Hst. unfold executeCommand.
  destruct (JS.includes "exec -it" (JS.trim command)).
  { eexists _, _. split; reflexivity. }
  destruct (JS.includes "get pods" (JS.trim command)).
  { rewrite bind_eq, (deref_eq _ _ _ Hst).
    match goal with |- context [if ?b then _ else _] => destruct b end;
      eexists _, _; split; reflexivity. }
  destruct (JS.includes "describe pod" (JS.trim command)).
  { rewrite bind_eq, (deref_eq _ _ _ Hst).
    match goal with |- context [List.find ?f ?l] => destruct (List.find f l) end;
      eexists _, _; split; reflexivity. }
  destruct (JS.includes "logs" (JS.trim command)).
  { eexists _, _. split; reflexivity. }
  destruct (JS.includes "tcpdump" (JS.trim command));
    eexists _, _; split; reflexivity.
Qed.

Lemma executeCommand_heap (this : KubernetesSimulator) (command : string)
    (w w' : World) (out : string) :
  executeCommand this command w = Some (out, w') -> heap w' = heap w.
Proof.
  unfold executeCommand.
  destruct (JS.includes "exec -it" (JS.trim command)).
  { intros [= _ <-]. reflexivity. }
  destruct (JS.includes "get pods" (JS.trim command)).
  { rewrite bind_eq. unfold deref. destruct (heap w !! state this); [|discriminate].
    match goal with |- context [if ?b then _ else _] => destruct b end;
      intros [= _ <-]; reflexivity. }
  destruct (JS.includes "describe pod" (JS.trim command)).
  { rewrite bind_eq. unfold deref. destruct (heap w !! state this); [|discriminate].
    match goal with |- context [List.find ?f ?l] => destruct (List.find f l) end;
      intros [= _ <-]; reflexivity. }
  destruct (JS.includes "logs" (JS.trim command)).
  { intros [= _ <-]. reflexivity. }
  destruct (JS.includes "tcpdump" (JS.trim command));
    intros [= _ <-]; reflexivity.
Qed.

(** ** Initialization *)

Lemma seed_usage (r1 r2 : Q) (n1 n2 k1 k2 : Z) :
  (0 < n1)%Z -> (0 < n2)%Z -> (0 <= k1)%Z -> (0 <= k2)%Z ->
  (n1 + k1 <= 100)%Z -> (n2 + k2 <= 100)%Z ->
  (0 <= r1 < 1)%Q -> (0 <= r2 < 1)%Q ->
  forall p,
  Pod.usage p = PodUsage.mk (inject_Z (JS.floor (r1 * inject_Z n1)) + inject_Z k1)%Q
                            (inject_Z (JS.floor (r2 * inject_Z n2)) + inject_Z k2)%Q ->
  usage_in_range p.
Proof.
  intros Hn1 Hn2 Hk1 Hk2 Hb1 Hb2 Hr1 Hr2 p Hp. unfold usage_in_range.
  rewrite Hp. cbn [PodUsage.cpu PodUsage.memory].
  pose proof (floor_mul_range r1 n1 Hn1 Hr1) as [F1 G1].
  pose proof (floor_mul_range r2 n2 Hn2 Hr2) as [F2 G2].
  rewrite <- !inject_Z_plus.
  change 0%Q with (inject_Z 0). change 100%Q with (inject_Z 100).
  rewrite <- !Zle_Qle. lia.
Qed.

Lemma returns_generateMockEvents a b :
  returns (generateMockEvents a b) (fun _ => True).
Proof.
  unfold generateMockEvents.
  eapply returns_bind; [apply returns_Date|]. intros now _.
  do 5 (eapply returns_bind; [apply returns_randomString|]; intros ? _).
  by apply returns_ret.
Qed.

Lemma returns_pushDefaultPod name i pods :
  returns (pushDefaultPod name i pods)
    (fun r => exists p, r = pods ++ [p] /\ seeded p /\ Pod.namespace p = "default").
Proof.
  unfold pushDefaultPod.
  eapply returns_bind; [apply returns_randomString|]. intros suffix _.
  eapply returns_bind; [apply returns_randomString|]. intros idr _.
  eapply returns_bind; [apply returns_Date|]. intros created _.
  eapply returns_bind; [apply returns_random_range|]. intros r1 Hr1.
  eapply returns_bind; [apply returns_random_range|]. intros r2 Hr2.
  eapply returns_bind; [apply returns_generateMockEvents|]. intros evs _.
  apply returns_ret. eexists. split; [reflexivity|]. split; [|reflexivity].
  split; [|by left].
  by apply (seed_usage r1 r2 60 70 5 10).
Qed.

Lemma returns_pushSystemPod name i pods :
  returns (pushSystemPod name i pods)
    (fun r => exists p, r = pods ++ [p] /\ seeded p /\ Pod.namespace p = "kube-system").
Proof.
  unfold pushSystemPod.
  eapply returns_bind; [apply returns_randomString|]. intros suffix _.
  eapply returns_bind; [apply returns_Date|]. intros created _.
  eapply returns_bind; [apply returns_random_range|]. intros r1 Hr1.
  eapply returns_bind; [apply returns_random_range|]. intros r2 Hr2.
  eapply returns_bind; [apply returns_generateMockEvents|]. intros evs _.
  apply returns_ret. eexists. split; [reflexivity|]. split; [|reflexivity].
  split; [|by left].
  by apply (seed_usage r1 r2 15 20 2 5).
Qed.

Lemma at_in_range {A} (a : list A) (i : Z) :
  (0 <= i < Z.of_nat (length a))%Z -> is_Some (JS.at_ a i).
Proof.
  intros [H0 H1]. unfold JS.at_.
  destruct (Z.ltb_spec i 0); [lia|].
  apply lookup_lt_is_Some_2. lia.
Qed.

Lemma returns_connectOnce (pods0 : list Pod.t) (k : nat) (acc : list Pod.t) :
  (k < length pods0)%nat ->
  Forall2 same_but_connections pods0 acc ->
  returns (connectOnce k acc) (Forall2 same_but_connections pods0).
Proof.
  intros Hk HF. pose proof (Forall2_length _ _ _ HF) as Hlen.
  unfold connectOnce.
  eapply returns_bind; [apply returns_random_range|]. intros r Hr.
  destruct (lookup_lt_is_Some_2 acc k) as [pod Hpod]; [lia|].
  destruct (at_in_range acc (JS.floor (r * inject_Z (Z.of_nat (length acc)))))
    as [target Ht].
  { apply floor_mul_range; [lia | exact Hr]. }
  rewrite Hpod, Ht.
  match goal with |- context [if ?b then _ else _] => destruct b end;
    apply returns_ret; [|exact HF].
  destruct (lookup_lt_is_Some_2 pods0 k Hk) as [p0 Hp0].
  rewrite <- (list_insert_id pods0 k p0 Hp0).
  apply Forall2_insert; [exact HF|].
  pose proof (Forall2_lookup_lr _ _ _ _ _ _ HF Hp0 Hpod) as (? & ? & ? & ?).
  unfold same_but_connections. simpl. auto.
Qed.

Lemma returns_setupConnections (pods0 : list Pod.t) (k : nat) (acc : list Pod.t) :
  (k < length pods0)%nat ->
  Forall2 same_but_connections pods0 acc ->
  returns (setupConnections k acc) (Forall2 same_but_connections pods0).
Proof.
  intros Hk HF. unfold setupConnections.
  eapply returns_bind; [apply returns_random|]. intros r _.
  destruct (JS.gt r (1 # 2)); [|by apply returns_ret].
  eapply returns_bind; [apply returns_random|]. intros r2 _.
  apply returns_repeatM; [|exact HF].
  intros acc' HF'. by apply returns_connectOnce.
Qed.

Lemma same_but_connections_refl (l : list Pod.t) :
  Forall2 same_but_connections l l.
Proof. apply Forall_Forall2_diag, Forall_forall. intros p _. by repeat split. Qed.

Lemma seeded_same_but_connections (l l' : list Pod.t) :
  Forall2 same_but_connections l l' ->
  Forall seeded l -> Forall seeded l'
  /\ Pod.namespace <$> l' = Pod.namespace <$> l.
Proof.
  induction 1 as [|p p' l l' (Hid & Hns & Hst & Hus) HF IH]; intros HS.
  - by split.
  - apply Forall_cons in HS as [[Hu Hs] HS]. destruct (IH HS) as [IH1 IH2].
    split.
    + constructor; [|exact IH1]. unfold seeded, usage_in_range.
      rewrite Hus, Hst. split; assumption.
    + by rewrite !fmap_cons, Hns, IH2.
Qed.

(** [generateMockPods] never throws and yields the nine seed pods. *)
Lemma returns_generateMockPods :
  returns generateMockPods
    (fun pods => Forall seeded pods /\ Pod.namespace <$> pods = seedNamespaces).
Proof.
  unfold generateMockPods.
  eapply returns_bind.
  { apply (returns_forEach pushDefaultPod
             (fun k acc => Forall seeded acc
                           /\ Pod.namespace <$> acc = replicate k "default")).
    - intros k x acc _ [HS HN].
      eapply returns_weaken; [apply returns_pushDefaultPod|].
      intros r (p & -> & Hp & Hns). split.
      + apply Forall_app. split; [exact HS | by constructor].
      + rewrite fmap_app, HN, replicate_S_end.
        cbn [fmap list_fmap]. by rewrite Hns.
    - by split. }
  intros pods1 [HS1 HN1].
  eapply returns_bind.
  { apply (returns_forEach pushSystemPod
             (fun k acc => Forall seeded acc
                           /\ Pod.namespace <$> acc
                              = replicate 5 "default" ++ replicate k "kube-system")).
    - intros k x acc _ [HS HN].
      eapply returns_weaken; [apply returns_pushSystemPod|].
      intros r (p & -> & Hp & Hns). split.
      + apply Forall_app. split; [exact HS | by constructor].
      + rewrite fmap_app, HN, (replicate_S_end k), app_assoc.
        cbn [fmap list_fmap]. by rewrite Hns.
    - split; [exact HS1|]. rewrite HN1. simpl. reflexivity. }
  intros pods2 [HS2 HN2].
  eapply returns_bind.
  { apply (returns_forEach (fun _ k pods => setupConnections k pods)
             (fun _ acc => Forall2 same_but_connections pods2 acc)).
    - intros k x acc Hk HF. apply returns_setupConnections; [|exact HF].
      by apply lookup_lt_Some in Hk.
    - apply same_but_connections_refl. }
  intros pods3 HF. apply returns_ret.
  destruct (seeded_same_but_connections _ _ HF HS2) as [H1 H2].
  split; [exact H1|]. by rewrite H2.
Qed.

(** The constructor never throws; the simulator it returns satisfies the
    invariant. *)
Lemma new_KubernetesSimulator_spec (w0 : World) :
  exists sim w, new_KubernetesSimulator w0 = Some (sim, w) /\ sim_inv (state sim) w.
Proof.
  destruct (returns_generateMockPods w0) as (pods & w1 & E1 & H1 & HS & HN).
  unfold new_KubernetesSimulator. rewrite bind_eq, E1, bind_eq. unfold alloc.
  eexists _, _. split; [reflexivity|].
  eexists. simpl. rewrite lookup_insert_eq. split; [reflexivity|]. by split.
Qed.

(** ** The invariant along every run *)

Lemma flipStatus_seeded r s :
  s = RUNNING \/ s = ERROR ->
  flipStatus r s = RUNNING \/ flipStatus r s = ERROR.
Proof. unfold flipStatus. intros [-> | ->]; destruct (JS.lt r (1 # 100)); auto. Qed.

Lemma tick_rel_seeded (l l' : list Pod.t) :
  Forall2 tick_rel l l' -> Forall seeded l ->
  Forall seeded l' /\ Pod.namespace <$> l' = Pod.namespace <$> l.
Proof.
  induction 1 as [|p p' l l' (Hsame & Hu & r & Hr) HF IH]; intros HS.
  - by split.
  - apply Forall_cons in HS as [[_ Hs] HS]. destruct (IH HS) as [IH1 IH2].
    split.
    + constructor; [|exact IH1]. split; [exact Hu|].
      rewrite Hr. by apply flipStatus_seeded.
    + destruct Hsame as (_ & _ & Hns & _). by rewrite !fmap_cons, Hns, IH2.
Qed.

Lemma step_sim_inv (sim : KubernetesSimulator) (w w' : World) :
  sim_inv (state sim) w -> step sim w w' -> sim_inv (state sim) w'.
Proof.
  intros (st & Hst & HS & HN) Hstep. destruct Hstep as [w l w' E | c w out w' E].
  - destruct (getState_spec sim w st Hst) as (pods' & w1 & E1 & H1 & HF).
    rewrite E1 in E. injection E as _ <-.
    destruct (tick_rel_seeded _ _ HF HS) as [HS' HN'].
    eexists. rewrite H1, lookup_insert_eq. split; [reflexivity|].
    simpl. split; [exact HS'|]. by rewrite HN'.
  - apply executeCommand_heap in E. exists st. rewrite E. auto.
Qed.

Lemma reachable_sim_inv (sim : KubernetesSimulator) (w : World) :
  reachable sim w -> sim_inv (state sim) w.
Proof.
  induction 1 as [w0 w E | w w' _ IH Hstep].
  - destruct (new_KubernetesSimulator_spec w0) as (sim' & w1 & E1 & Hinv).
    rewrite E1 in E. by injection E as <- <-.
  - by apply (step_sim_inv sim w w').
Qed.

(** From a reachable world every tick and every command goes through, so
    runs of any length exist. *)
Lemma reachable_progress (sim : KubernetesSimulator) (w : World) :
  reachable sim w ->
  (exists l w', getState sim w = Some (l, w'))
  /\ (forall command, exists out w', executeCommand sim command w = Some (out, w')).
Proof.
  intros Hr. destruct (reachable_sim_inv sim w Hr) as (st & Hst & _). split.
  - destruct (getState_spec sim w st Hst) as (? & ? & E & _). eauto.
  - intros c. destruct (executeCommand_spec sim c w st Hst) as (? & ? & E & _). eauto.
Qed.

(** C1. In every world reachable from the construction of the simulator
    by any sequence of ticks and command executions, the state object of
    the simulator is in the heap and every pod of it has
    [0 <= usage.cpu <= 100] and [0 <= usage.memory <= 100]. *)
Theorem usage_invariant (sim : KubernetesSimulator) (w : World) :
  reachable sim w ->
  exists st, heap w !! state sim = Some st
    /\ forall pod, pod ∈ ClusterState.pods st ->
         (0 <= PodUsage.cpu (Pod.usage pod) <= 100)%Q
         /\ (0 <= PodUsage.memory (Pod.usage pod) <= 100)%Q.
Proof.
  intros Hr. destruct (reachable_sim_inv sim w Hr) as (st & Hst & HS & _).
  exists st. split; [exact Hst|]. intros pod Hin.
  rewrite Forall_forall in HS. by destruct (HS pod Hin) as [Hu _].
Qed.

(** The status-flip rule of the loop body on a pod given as a value,
    whatever its status: when the first draw made for the pod is below 0.01
    the status becomes Error if it was Running and Running otherwise; when
    it is not, the status is kept. *)
Lemma tickPod_status (pod : Pod.t) (w : World) :
  exists pod' w',
    tickPod pod w = Some (pod', w')
    /\ Pod.status pod' =
       if JS.lt (random (draws w)) (1 # 100)
       then match Pod.status pod with
            | RUNNING => ERROR
            | ERROR | PENDING | TERMINATING => RUNNING
            end
       else Pod.status pod.
Proof.
  eexists _, _. split; [apply tickPod_eq|]. simpl. unfold flipStatus.
  destruct (JS.lt (random (draws w)) (1 # 100)); [|reflexivity].
  by destruct (Pod.status pod).
Qed.

(** In the worlds the simulator reaches, pods are only ever Running or
    Error, so there the rule toggles between these two. *)
Lemma reachable_statuses (sim : KubernetesSimulator) (w : World) :
  reachable sim w ->
  exists st, heap w !! state sim = Some st
    /\ forall pod, pod ∈ ClusterState.pods st ->
         Pod.status pod = RUNNING \/ Pod.status pod = ERROR.
Proof.
  intros Hr. destruct (reachable_sim_inv sim w Hr) as (st & Hst & HS & _).
  exists st. split; [exact Hst|]. intros pod Hin.
  rewrite Forall_forall in HS. by destruct (HS pod Hin) as [_ Hs].
Qed.



(** C9. For every command string and every world in which the state
    object of the simulator holds a cluster state, [executeCommand]
    returns and leaves the heap, hence that cluster state with every pod
    field and the namespaces list, exactly as it was. *)
Theorem executeCommand_readonly (this : KubernetesSimulator) (command : string)
    (w : World) (st : ClusterState.t) :
  heap w !! state this = Some st ->
  exists out w',
    executeCommand this command w = Some (out, w')
    /\ heap w' = heap w
    /\ heap w' !! state this = Some st.
Proof.
  intros Hst. destruct (executeCommand_spec this command w st Hst) as (out & w' & E & H).
  exists out, w'. split; [exact E|]. split; [exact H|]. by rewrite H.
Qed.

(** C10. A tick, that is a call of [getState], returns, keeps the
    namespaces list and the number and order of the pods, and changes at
    most [status] and [usage] of each pod: id, name, namespace, ip, node,
    labels, creationTimestamp, events, connections and
    schedulingConstraints of the pod at each index are unchanged. *)
Theorem getState_frame (this : KubernetesSimulator) (w : World) (st : ClusterState.t) :
  heap w !! state this = Some st ->
  exists w' st',
    getState this w = Some (state this, w')
    /\ heap w' !! state this = Some st'
    /\ ClusterState.namespaces st' = ClusterState.namespaces st
    /\ length (ClusterState.pods st') = length (ClusterState.pods st)
    /\ forall i pod, ClusterState.pods st !! i = Some pod ->
         exists pod', ClusterState.pods st' !! i = Some pod'
           /\ Pod.id pod' = Pod.id pod /\ Pod.name pod' = Pod.name pod
           /\ Pod.namespace pod' = Pod.namespace pod /\ Pod.ip pod' = Pod.ip pod
           /\ Pod.node pod' = Pod.node pod /\ Pod.labels pod' = Pod.labels pod
           /\ Pod.creationTimestamp pod' = Pod.creationTimestamp pod
           /\ Pod.events pod' = Pod.events pod
           /\ Pod.connections pod' = Pod.connections pod
           /\ Pod.schedulingConstraints pod' = Pod.schedulingConstraints pod.
Proof.
  intros Hst. destruct (getState_spec this w st Hst) as (pods' & w' & E & H & HF).
  exists w'. eexists. split; [exact E|]. rewrite H, lookup_insert_eq.
  split; [reflexivity|]. simpl. split; [reflexivity|].
  split; [symmetry; by eapply Forall2_length|].
  intros i pod Hi.
  destruct (Forall2_lookup_l _ _ _ _ _ HF Hi) as (pod' & Hi' & Hsame & _).
  exists pod'. split; [exact Hi'|]. exact Hsame.
Qed.


(** ** The alert loop *)

Lemma returns_alertBody (lastPods : list Pod.t) (pod : Pod.t) (acc : list Alert.t) :
  returns (alertBody lastPods pod acc)
    (fun r => exists new, r = acc ++ new /\ emits lastPods pod new).
Proof.
  unfold alertBody, emits, lookupPod.
  destruct (List.find _ lastPods) as [lastPod|].
  2:{ apply returns_ret. exists []. by rewrite app_nil_r. }
  eapply (returns_bind _ _
    (fun r => exists s, r = acc ++ s
       /\ if statusEdge lastPod pod
          then exists aid now, s = [statusAlert pod aid now] else s = [])).
  { unfold statusEdge.
    destruct (bool_decide (Pod.status pod = ERROR)
              && negb (bool_decide (Pod.status lastPod = ERROR))).
    - eapply returns_bind; [apply returns_randomString|]. intros aid _.
      eapply returns_bind; [apply returns_Date|]. intros now _.
      apply returns_ret. eexists. split; [reflexivity|]. by exists aid, now.
    - apply returns_ret. exists []. by rewrite app_nil_r. }
  intros acc1 (s & -> & Hs).
  change THRESHOLD with 90%Q. fold (utilizationEdge lastPod pod).
  destruct (utilizationEdge lastPod pod) eqn:Hu.
  - eapply returns_bind; [apply returns_randomString|]. intros aid _.
    eapply returns_bind; [apply returns_Date|]. intros now _.
    apply returns_ret. eexists. rewrite <- app_assoc. split; [reflexivity|].
    eexists s, _. split; [reflexivity|]. split; [exact Hs|]. by exists aid, now.
  - apply returns_ret. exists s. split; [reflexivity|].
    exists s, []. rewrite app_nil_r. auto.
Qed.

Lemma returns_alertLoop (lastPods newPods : list Pod.t) :
  returns (alertLoop lastPods newPods)
    (fun alerts => exists chunks,
       alerts = concat chunks /\ Forall2 (emits lastPods) newPods chunks).
Proof.
  unfold alertLoop.
  eapply returns_weaken.
  { apply (returns_forEach (fun pod _ acc => alertBody lastPods pod acc)
             (fun k acc => exists chunks,
                acc = concat chunks
                /\ Forall2 (emits lastPods) (take k newPods) chunks)).
    - intros k pod acc Hk (chunks & -> & HF).
      eapply returns_weaken; [apply returns_alertBody|].
      intros r (new & -> & Hnew). exists (chunks ++ [new]). split.
      + rewrite concat_app. simpl. by rewrite app_nil_r.
      + rewrite (take_S_r _ _ _ Hk). apply Forall2_app; [exact HF|].
        by repeat constructor.
    - exists []. split; [reflexivity|]. rewrite take_0. constructor. }
  intros alerts (chunks & -> & HF). exists chunks. split; [reflexivity|].
  by rewrite firstn_all in HF.
Qed.

Lemma returns_alertRuns (later : list (list Pod.t)) :
  forall prev,
  returns (alertRuns prev later)
    (fun runs => Forall2 (fun pn alerts =>
                   exists chunks, alerts = concat chunks
                     /\ Forall2 (emits pn.1) pn.2 chunks)
                 (zip (prev :: later) later) runs).
Proof.
  induction later as [|next rest IH]; intros prev; simpl.
  - apply returns_ret. constructor.
  - eapply returns_bind; [apply returns_alertLoop|]. intros a Ha.
    eapply returns_bind; [apply IH|]. intros r Hr.
    apply returns_ret. by constructor.
Qed.

Lemma emits_podId (lastPods : list Pod.t) (pod : Pod.t) (new : list Alert.t) :
  emits lastPods pod new -> forall a, In a new -> Alert.podId a = Pod.id pod.
Proof.
  unfold emits. destruct (lookupPod (Pod.id pod) lastPods) as [lastPod|].
  2:{ intros -> a []. }
  intros (s & u & -> & Hs & Hu) a Ha. apply in_app_or in Ha as [Ha|Ha].
  - destruct (statusEdge lastPod pod).
    + destruct Hs as (aid & now & ->). by destruct Ha as [<-|[]].
    + subst s. destruct Ha.
  - destruct (utilizationEdge lastPod pod).
    + destruct Hu as (aid & now & ->). by destruct Ha as [<-|[]].
    + subst u. destruct Ha.
Qed.

Lemma filter_none {A} (g : A -> bool) (l : list A) :
  (forall a, In a l -> g a = false) -> List.filter g l = [].
Proof.
  induction l as [|x l IH]; intros H; simpl; [reflexivity|].
  rewrite (H x (or_introl eq_refl)). apply IH. intros a Ha. apply H. by right.
Qed.

Lemma lookupPod_Some (id : string) (snap : list Pod.t) (p : Pod.t) :
  lookupPod id snap = Some p -> p ∈ snap /\ Pod.id p = id.
Proof.
  intros H. apply find_some in H as [Hin Heq]. split.
  - by apply list_elem_of_In.
  - by apply String.eqb_eq.
Qed.

(** With distinct identifiers the lookup finds the pod itself. *)
Lemma lookupPod_NoDup (snap : list Pod.t) (p : Pod.t) :
  NoDup (Pod.id <$> snap) -> p ∈ snap -> lookupPod (Pod.id p) snap = Some p.
Proof.
  induction snap as [|q snap IH]; intros Hnd Hin.
  - by apply elem_of_nil in Hin.
  - rewrite fmap_cons in Hnd. apply NoDup_cons in Hnd as [Hq Hnd].
    unfold lookupPod. simpl. destruct (String.eqb_spec (Pod.id q) (Pod.id p)) as [E|E].
    + apply elem_of_cons in Hin as [->|Hin]; [reflexivity|].
      exfalso. apply Hq. rewrite E. apply list_elem_of_fmap. eauto.
    + apply elem_of_cons in Hin as [->|Hin]; [done|]. by apply IH.
Qed.

(** Among the alerts of a run, those of one pod are the ones appended in
    the turn of that pod, when identifiers are distinct. *)
Lemma chunks_select (lastPods newPods : list Pod.t) (chunks : list (list Alert.t))
    (pod : Pod.t) (g : Alert.t -> bool) :
  (forall a, g a = true -> Alert.podId a = Pod.id pod) ->
  Forall2 (emits lastPods) newPods chunks ->
  NoDup (Pod.id <$> newPods) -> pod ∈ newPods ->
  exists new, emits lastPods pod new
    /\ List.filter g (concat chunks) = List.filter g new.
Proof.
  intros Hg. induction 1 as [|q c newPods chunks Hq HF IH]; intros Hnd Hin.
  - by apply elem_of_nil in Hin.
  - rewrite fmap_cons in Hnd. apply NoDup_cons in Hnd as [Hnq Hnd].
    simpl. rewrite List.filter_app.
    apply elem_of_cons in Hin as [->|Hin].
    + exists c. split; [exact Hq|].
      rewrite (filter_none g (concat chunks)); [by rewrite app_nil_r|].
      intros a Ha. destruct (g a) eqn:E; [|reflexivity]. exfalso.
      apply Hg in E. apply in_concat in Ha as (c' & Hc' & Ha).
      apply list_elem_of_In in Hc'.
      apply list_elem_of_lookup in Hc' as [k Hk].
      destruct (Forall2_lookup_r _ _ _ _ _ HF Hk) as (q' & Hq' & Hem).
      apply (emits_podId _ _ _ Hem) in Ha. apply Hnq.
      rewrite <- E, Ha. apply list_elem_of_fmap. exists q'. split; [reflexivity|].
      apply list_elem_of_lookup. eauto.
    + destruct (IH Hnd Hin) as (new & Hnew & Heq). exists new. split; [exact Hnew|].
      rewrite (filter_none g c); [exact Heq|].
      intros a Ha. destruct (g a) eqn:E; [|reflexivity]. exfalso.
      apply Hg in E. apply (emits_podId _ _ _ Hq) in Ha. apply Hnq.
      rewrite <- Ha, E. apply list_elem_of_fmap. eauto.
Qed.

Lemma alertsFor_emits (lastPods : list Pod.t) (pod lastPod : Pod.t)
    (new : list Alert.t) :
  lookupPod (Pod.id pod) lastPods = Some lastPod ->
  emits lastPods pod new ->
  (if statusEdge lastPod pod
   then exists aid now, alertsFor Alert.Status (Pod.id pod) new = [statusAlert pod aid now]
   else alertsFor Alert.Status (Pod.id pod) new = [])
  /\ (if utilizationEdge lastPod pod
      then exists aid now,
             alertsFor Alert.Utilization (Pod.id pod) new = [utilizationAlert pod aid now]
      else alertsFor Alert.Utilization (Pod.id pod) new = []).
Proof.
  intros Hl. unfold emits. rewrite Hl. intros (s & u & -> & Hs & Hu).
  unfold alertsFor. rewrite !List.filter_app.
  destruct (statusEdge lastPod pod), (utilizationEdge lastPod pod);
    repeat match goal with
           | H : exists _, _ |- _ => destruct H as [? H]
           end; subst; simpl; rewrite ?String.eqb_refl; simpl;
    split; eauto.
Qed.

(** C5. In a run of the alert loop on a previous and a next snapshot
    with distinct pod identifiers in the next one, for every pod of the
    next snapshot: if the previous snapshot has no pod with its id, no
    alert at all is raised for it; otherwise the Status alerts raised for
    it are exactly one, Critical and with message
    "Pod {name} has entered Error state!", when its status is Error and
    the previous status was not, and none otherwise (in particular none
    from Error to Error). *)
Theorem status_alert_edge (prev next : list Pod.t) (pod : Pod.t) (w : World) :
  NoDup (Pod.id <$> next) -> pod ∈ next ->
  exists alerts w',
    alertLoop prev next w = Some (alerts, w')
    /\ match lookupPod (Pod.id pod) prev with
       | None => alertsOfPod (Pod.id pod) alerts = []
       | Some lastPod =>
           if bool_decide (Pod.status pod = ERROR)
              && negb (bool_decide (Pod.status lastPod = ERROR))
           then exists aid now,
                  alertsFor Alert.Status (Pod.id pod) alerts =
                  [Alert.mk aid (Pod.id pod) (Pod.name pod) Alert.Status Alert.Critical
                     ("Pod " +:+ Pod.name pod +:+ " has entered Error state!") now]
           else alertsFor Alert.Status (Pod.id pod) alerts = []
       end.
Proof.
  intros Hnd Hin.
  destruct (returns_alertLoop prev next w) as (alerts & w' & E & _ & chunks & -> & HF).
  exists (concat chunks), w'. split; [exact E|].
  destruct (lookupPod (Pod.id pod) prev) as [lastPod|] eqn:Hl.
  - destruct (chunks_select prev next chunks pod
                (fun a => bool_decide (Alert.type a = Alert.Status)
                          && String.eqb (Alert.podId a) (Pod.id pod)))
      as (new & Hnew & Heq); auto.
    { intros a [_ Ha]%andb_true_iff. by apply String.eqb_eq. }
    unfold alertsFor at 1 2. rewrite Heq.
    destruct (alertsFor_emits prev pod lastPod new Hl Hnew) as [Hs _]. exact Hs.
  - destruct (chunks_select prev next chunks pod
                (fun a => String.eqb (Alert.podId a) (Pod.id pod)))
      as (new & Hnew & Heq); auto.
    { intros a Ha. by apply String.eqb_eq. }
    unfold alertsOfPod. rewrite Heq. unfold emits in Hnew. rewrite Hl in Hnew.
    by subst new.
Qed.

Lemma emits_inv (lastPods : list Pod.t) (pod : Pod.t) (new : list Alert.t)
    (a : Alert.t) :
  emits lastPods pod new -> In a new ->
  exists lastPod aid now,
    lookupPod (Pod.id pod) lastPods = Some lastPod
    /\ ((statusEdge lastPod pod = true /\ a = statusAlert pod aid now)
        \/ (utilizationEdge lastPod pod = true /\ a = utilizationAlert pod aid now)).
Proof.
  unfold emits. destruct (lookupPod (Pod.id pod) lastPods) as [lastPod|].
  2:{ intros -> []. }
  intros (s & u & -> & Hs & Hu) Ha. exists lastPod.
  apply in_app_or in Ha as [Ha|Ha].
  - destruct (statusEdge lastPod pod); [|subst s; destruct Ha].
    destruct Hs as (aid & now & ->). destruct Ha as [<-|[]].
    exists aid, now. split; [reflexivity|]. by left.
  - destruct (utilizationEdge lastPod pod); [|subst u; destruct Ha].
    destruct Hu as (aid & now & ->). destruct Ha as [<-|[]].
    exists aid, now. split; [reflexivity|]. by right.
Qed.

(** C4. Every Utilization alert that a run of the alert loop raises is
    raised for a pod of the next snapshot, carries its id and name, has
    severity Critical if the pod's next cpu is above 95 and Warning
    otherwise, and its message is
    "High {Metric} usage on {name} ({round(max(cpu, memory))}%)" where
    Metric is "CPU" if the next cpu is above 90 and "Memory" otherwise.
    In particular from usage (85, 50) to usage (96, 50) the run raises
    exactly one alert: Utilization, Critical, "High CPU usage ... (96%)". *)
Theorem utilization_alert_content :
  (forall (prev next : list Pod.t) (w w' : World) (alerts : list Alert.t) (a : Alert.t),
     alertLoop prev next w = Some (alerts, w') ->
     a ∈ alerts -> Alert.type a = Alert.Utilization ->
     exists pod, pod ∈ next
       /\ Alert.podId a = Pod.id pod /\ Alert.podName a = Pod.name pod
       /\ Alert.severity a =
          (if JS.gt (PodUsage.cpu (Pod.usage pod)) 95
           then Alert.Critical else Alert.Warning)
       /\ Alert.message a =
          "High "
          +:+ (if JS.gt (PodUsage.cpu (Pod.usage pod)) 90 then "CPU" else "Memory")
          +:+ " usage on " +:+ Pod.name pod +:+ " ("
          +:+ pretty (JS.round (JS.max (PodUsage.cpu (Pod.usage pod))
                                       (PodUsage.memory (Pod.usage pod))))
          +:+ "%)")
  /\ (forall w : World, exists aid now w',
        alertLoop [samplePod "p1" "default" RUNNING 85 50]
                  [samplePod "p1" "default" RUNNING 96 50] w
        = Some ([Alert.mk aid "p1" "web-p1" Alert.Utilization Alert.Critical
                   "High CPU usage on web-p1 (96%)" now], w')).
Proof.
  split.
  - intros prev next w w' alerts a E Hin Hty.
    destruct (returns_alertLoop prev next w) as (alerts0 & w0 & E0 & _ & chunks & -> & HF).
    rewrite E0 in E. injection E as <- <-.
    apply list_elem_of_In, in_concat in Hin as (c & Hc & Ha).
    apply list_elem_of_In, list_elem_of_lookup in Hc as [k Hk].
    destruct (Forall2_lookup_r _ _ _ _ _ HF Hk) as (pod & Hpod & Hem).
    exists pod. split; [apply list_elem_of_lookup; eauto|].
    destruct (emits_inv _ _ _ _ Hem Ha) as (lastPod & aid & now & _ & [[_ ->]|[_ ->]]).
    + discriminate Hty.
    + repeat split.
  - intros w. eexists _, _, _. reflexivity.
Qed.

(** ** Edge triggering along a sequence of snapshots *)

Lemma utilizationEdge_spec (lastPod pod : Pod.t) :
  utilizationEdge lastPod pod = true <->
  ((90 < PodUsage.cpu (Pod.usage pod))%Q
   /\ (PodUsage.cpu (Pod.usage lastPod) <= 90)%Q)
  \/ ((90 < PodUsage.memory (Pod.usage pod))%Q
      /\ (PodUsage.memory (Pod.usage lastPod) <= 90)%Q).
Proof.
  unfold utilizationEdge.
  rewrite orb_true_iff, !andb_true_iff, !gt_spec, !le_spec. reflexivity.
Qed.

Lemma utilization_count (id : string) (prev next : list Pod.t) (p0 p : Pod.t)
    (alerts : list Alert.t) :
  NoDup (Pod.id <$> next) ->
  lookupPod id prev = Some p0 -> lookupPod id next = Some p ->
  (exists chunks, alerts = concat chunks /\ Forall2 (emits prev) next chunks) ->
  length (alertsFor Alert.Utilization id alerts)
  = if utilizationEdge p0 p then 1%nat else 0%nat.
Proof.
  intros Hnd H0 Hp (chunks & -> & HF).
  apply lookupPod_Some in Hp as [Hin <-].
  destruct (chunks_select prev next chunks p
              (fun a => bool_decide (Alert.type a = Alert.Utilization)
                        && String.eqb (Alert.podId a) (Pod.id p)))
    as (new & Hnew & Heq); auto.
  { intros a [_ Ha]%andb_true_iff. by apply String.eqb_eq. }
  unfold alertsFor at 1. rewrite Heq.
  destruct (alertsFor_emits prev p p0 new H0 Hnew) as [_ Hu].
  destruct (utilizationEdge p0 p).
  - destruct Hu as (aid & now & Hu). unfold alertsFor in Hu. by rewrite Hu.
  - unfold alertsFor in Hu. by rewrite Hu.
Qed.

Lemma edges_above_threshold (q : Pod.t) (rest : list Pod.t) :
  (90 < PodUsage.cpu (Pod.usage q))%Q ->
  Forall (fun p => (90 < PodUsage.cpu (Pod.usage p))%Q) rest ->
  noMemoryEdge q rest ->
  utilizationEdges q rest = replicate (length rest) 0%nat.
Proof.
  revert q. induction rest as [|p rest IH]; intros q Hq HF HM; [reflexivity|].
  apply Forall_cons in HF as [Hp HF]. destruct HM as [Hm HM]. simpl.
  rewrite (IH p Hp HF HM). f_equal.
  unfold utilizationEdge. unfold memoryEdge in Hm. rewrite Hm, orb_false_r.
  assert (JS.le (PodUsage.cpu (Pod.usage q)) 90 = false) as ->.
  { destruct (JS.le (PodUsage.cpu (Pod.usage q)) 90) eqn:E; [|reflexivity].
    apply le_spec in E. lra. }
  by rewrite andb_false_r.
Qed.

(** C3, as amended.  Along a sequence of snapshots with distinct pod
    identifiers, for a pod present in all of them, the run of the alert
    loop on each pair of consecutive snapshots raises exactly one
    Utilization alert for the pod if (next.cpu > 90 and prev.cpu <= 90) or
    (next.memory > 90 and prev.memory <= 90), and none otherwise.  Hence
    when the pod's cpu crosses from <= 90 to > 90 on the first tick and
    stays above 90 afterwards, and its memory does not cross from <= 90 to
    > 90 on a later tick, exactly one Utilization alert is raised for it,
    on the crossing tick. *)
Theorem utilization_edge_triggered (id : string) (prev : list Pod.t)
    (later : list (list Pod.t)) (p0 : Pod.t) (ps : list Pod.t) (w : World) :
  Forall (fun snap => NoDup (Pod.id <$> snap)) later ->
  lookupPod id prev = Some p0 ->
  Forall2 (fun snap p => lookupPod id snap = Some p) later ps ->
  exists runs w',
    alertRuns prev later w = Some (runs, w')
    /\ (fun alerts => length (alertsFor Alert.Utilization id alerts)) <$> runs
       = utilizationEdges p0 ps
    /\ forall p1 rest,
         ps = p1 :: rest ->
         (PodUsage.cpu (Pod.usage p0) <= 90)%Q ->
         (90 < PodUsage.cpu (Pod.usage p1))%Q ->
         Forall (fun p => (90 < PodUsage.cpu (Pod.usage p))%Q) rest ->
         noMemoryEdge p1 rest ->
         (fun alerts => length (alertsFor Alert.Utilization id alerts)) <$> runs
         = 1%nat :: replicate (length rest) 0%nat.
Proof.
  intros Hnd H0 Hps.
  destruct (returns_alertRuns later prev w) as (runs & w' & E & _ & HR).
  exists runs, w'. split; [exact E|].
  assert (Hcount : (fun alerts => length (alertsFor Alert.Utilization id alerts)) <$> runs
                   = utilizationEdges p0 ps).
  { clear E. revert prev p0 ps runs Hnd H0 Hps HR.
    induction later as [|next rest IH]; intros prev p0 ps runs Hnd H0 Hps HR.
    - apply Forall2_nil_inv_l in Hps as ->. simpl in HR.
      apply Forall2_nil_inv_l in HR as ->. reflexivity.
    - apply Forall2_cons_inv_l in Hps as (p & ps' & Hp & Hps & ->).
      simpl in HR. apply Forall2_cons_inv_l in HR as (a & runs' & Ha & HR & ->).
      apply Forall_cons in Hnd as [Hnd1 Hnd].
      rewrite fmap_cons. simpl. f_equal.
      + by apply (utilization_count id prev next p0 p a).
      + by apply (IH next p ps' runs'). }
  split; [exact Hcount|].
  intros p1 rest -> Hle Hlt HF HM. rewrite Hcount. simpl.
  rewrite (edges_above_threshold p1 rest Hlt HF HM). f_equal.
  assert (utilizationEdge p0 p1 = true) as ->; [|reflexivity].
  apply utilizationEdge_spec. by left.
Qed.

(** ** Listing pods *)

Lemma append_String (c : ascii) (s t : string) :
  String c s +:+ t = String c (s +:+ t).
Proof. reflexivity. Qed.

Lemma append_empty_l (t : string) : "" +:+ t = t.
Proof. reflexivity. Qed.

Lemma dropPrefix_Some (p s r : string) :
  JS.dropPrefix p s = Some r -> s = p +:+ r.
Proof.
  revert s. induction p as [|a p IH]; intros s H; simpl in H.
  - by injection H as ->.
  - destruct s as [|b s]; [discriminate|].
    destruct (Ascii.eqb_spec a b) as [->|]; [|discriminate].
    rewrite append_String. f_equal. by apply IH.
Qed.

Lemma trimStart_split (s : string) :
  exists sp, s = sp +:+ JS.trimStart s /\ allSpaces sp.
Proof.
  induction s as [|c s (sp & IH & Hsp)]; simpl.
  - by exists "".
  - destruct (JS.isSpace c) eqn:E.
    + exists (String c sp). rewrite append_String, <- IH. by repeat split.
    + by exists "".
Qed.

Lemma nonSpaceRun_split (s : string) :
  exists post, s = JS.nonSpaceRun s +:+ post
    /\ noSpace (JS.nonSpaceRun s) /\ wordEnds post.
Proof.
  induction s as [|c s (post & IH & Hns & Hpost)]; simpl.
  - by exists "".
  - destruct (JS.isSpace c) eqn:E.
    + exists (String c s). by repeat split.
    + exists post. rewrite append_String, <- IH. by repeat split.
Qed.

Lemma litSpacesWordAt_sound (lit s w : string) :
  JS.litSpacesWordAt lit s = Some w ->
  exists sp post, s = lit +:+ sp +:+ w +:+ post
    /\ sp <> "" /\ allSpaces sp /\ w <> "" /\ noSpace w /\ wordEnds post.
Proof.
  unfold JS.litSpacesWordAt.
  destruct (JS.dropPrefix lit s) as [[|c r]|] eqn:Hd; try discriminate.
  destruct (JS.isSpace c) eqn:Hc; [|discriminate].
  destruct (trimStart_split r) as (sp & Hr & Hsp).
  destruct (nonSpaceRun_split (JS.trimStart r)) as (post & Ht & Hns & Hpost).
  destruct (JS.nonSpaceRun (JS.trimStart r)) as [|a w'] eqn:Hw; [discriminate|].
  intros [= <-]. exists (String c sp), post.
  apply dropPrefix_Some in Hd. rewrite Hd, append_String, <- Ht, <- Hr.
  split; [reflexivity|]. by repeat (split; [done|]).
Qed.

Lemma litWordAt_sound (lit s w : string) :
  JS.litWordAt lit s = Some w ->
  exists post, s = lit +:+ w +:+ post /\ w <> "" /\ noSpace w /\ wordEnds post.
Proof.
  unfold JS.litWordAt.
  destruct (JS.dropPrefix lit s) as [r|] eqn:Hd; [|discriminate].
  destruct (nonSpaceRun_split r) as (post & Hr & Hns & Hpost).
  destruct (JS.nonSpaceRun r) as [|a w'] eqn:Hw; [discriminate|].
  intros [= <-]. exists post.
  apply dropPrefix_Some in Hd. rewrite Hd, <- Hr.
  split; [reflexivity|]. by repeat (split; [done|]).
Qed.

(** What the regular expression of the namespace flag captures. *)
Lemma matchNamespace_sound (s : string) (g1 g2 : option string) :
  JS.matchNamespace s = Some (g1, g2) ->
  (exists ns, g1 = Some ns /\ g2 = None /\ shortFlag s ns)
  \/ (exists ns, g1 = None /\ g2 = Some ns /\ longFlag s ns).
Proof.
  assert (Hhere : forall s,
    match JS.litSpacesWordAt "-n" s with
    | Some w => Some (Some w, None)
    | None => match JS.litWordAt "--namespace=" s with
              | Some w => Some (None, Some w)
              | None => None
              end
    end = Some (g1, g2) ->
    (exists ns, g1 = Some ns /\ g2 = None /\ shortFlag s ns)
    \/ (exists ns, g1 = None /\ g2 = Some ns /\ longFlag s ns)).
  { intros t H.
    destruct (JS.litSpacesWordAt "-n" t) as [w|] eqn:H1.
    - injection H as <- <-. left. exists w. repeat split.
      destruct (litSpacesWordAt_sound _ _ _ H1) as (sp & post & Ht & ?).
      by exists "", sp, post.
    - destruct (JS.litWordAt "--namespace=" t) as [w|] eqn:H2; [|discriminate].
      injection H as <- <-. right. exists w. repeat split.
      destruct (litWordAt_sound _ _ _ H2) as (post & Ht & ?).
      by exists "", post. }
  induction s as [|c s IH]; intros H.
  - apply Hhere. simpl in *.
    destruct (JS.litSpacesWordAt "-n" ""); [exact H|].
    by destruct (JS.litWordAt "--namespace=" "").
  - simpl in H.
    destruct (JS.litSpacesWordAt "-n" (String c s)) as [w|] eqn:H1.
    { apply Hhere. by rewrite H1. }
    destruct (JS.litWordAt "--namespace=" (String c s)) as [w|] eqn:H2.
    { apply Hhere. by rewrite H1, H2. }
    destruct (IH H) as [(ns & ? & ? & pre & sp & post & -> & ?)
                       |(ns & ? & ? & pre & post & -> & ?)].
    + left. exists ns. repeat split; try assumption.
      by exists (String c pre), sp, post.
    + right. exists ns. repeat split; try assumption.
      by exists (String c pre), post.
Qed.

Lemma matchNamespace_eq (s : string) :
  JS.matchNamespace s =
  match JS.litSpacesWordAt "-n" s with
  | Some w => Some (Some w, None)
  | None =>
      match JS.litWordAt "--namespace=" s with
      | Some w => Some (None, Some w)
      | None =>
          match s with
          | String _ s' => JS.matchNamespace s'
          | "" => None
          end
      end
  end.
Proof. destruct s; reflexivity. Qed.

Lemma dropPrefix_append (p r : string) : JS.dropPrefix p (p +:+ r) = Some r.
Proof.
  induction p as [|a p IH]; [reflexivity|].
  rewrite append_String. simpl. by rewrite Ascii.eqb_refl.
Qed.

Lemma trimStart_append (sp t : string) :
  allSpaces sp -> JS.trimStart (sp +:+ t) = JS.trimStart t.
Proof.
  induction sp as [|c sp IH]; intros H; [reflexivity|].
  destruct H as [Hc H]. rewrite append_String. simpl. rewrite Hc. by apply IH.
Qed.

Lemma nonSpaceRun_append (w post : string) :
  noSpace w -> wordEnds post -> JS.nonSpaceRun (w +:+ post) = w.
Proof.
  induction w as [|c w IH]; intros Hw Hp.
  - rewrite append_empty_l. destruct post as [|c post]; [reflexivity|].
    simpl in *. by rewrite Hp.
  - destruct Hw as [Hc Hw]. rewrite append_String. simpl. rewrite Hc.
    f_equal. by apply IH.
Qed.

(** A text that carries a namespace flag is matched by the expression. *)
Lemma matchNamespace_complete (s ns : string) :
  shortFlag s ns \/ longFlag s ns -> JS.matchNamespace s <> None.
Proof.
  assert (Hpre : forall pre t,
            JS.matchNamespace t <> None -> JS.matchNamespace (pre +:+ t) <> None).
  { induction pre as [|c pre IH]; intros t Ht; [exact Ht|].
    rewrite append_String, matchNamespace_eq.
    destruct (JS.litSpacesWordAt "-n" _); [discriminate|].
    destruct (JS.litWordAt "--namespace=" _); [discriminate|].
    by apply IH. }
  intros [(pre & sp & post & -> & Hsp & Hall & Hns & Hno & Hend)
         |(pre & post & -> & Hns & Hno & Hend)]; apply Hpre.
  - rewrite matchNamespace_eq. unfold JS.litSpacesWordAt.
    rewrite dropPrefix_append.
    destruct sp as [|c sp]; [done|]. destruct Hall as [Hc Hall].
    rewrite append_String, Hc, (trimStart_append sp _ Hall).
    destruct ns as [|a ns]; [done|].
    assert (JS.trimStart (String a ns +:+ post) = String a ns +:+ post) as ->.
    { rewrite append_String. simpl. destruct Hno as [-> _]. reflexivity. }
    rewrite (nonSpaceRun_append _ _ Hno Hend). discriminate.
  - rewrite matchNamespace_eq.
    destruct (JS.litSpacesWordAt "-n" _); [discriminate|].
    unfold JS.litWordAt. rewrite dropPrefix_append.
    rewrite (nonSpaceRun_append _ _ Hno Hend).
    destruct ns; [done|discriminate].
Qed.

(** The namespace the listing uses: a captured flag value, or "default"
    when the expression does not match. *)
Lemma listing_namespace (cmd : string) :
  exists ns,
    match JS.matchNamespace cmd with
    | Some (g1, g2) => JS.orElse g1 g2
    | None => Some "default"
    end = Some ns
    /\ (((forall ns', ~ shortFlag cmd ns' /\ ~ longFlag cmd ns') /\ ns = "default")
        \/ shortFlag cmd ns \/ longFlag cmd ns).
Proof.
  destruct (JS.matchNamespace cmd) as [[g1 g2]|] eqn:E.
  - destruct (matchNamespace_sound cmd g1 g2 E)
      as [(ns & -> & -> & H)|(ns & -> & -> & H)]; exists ns.
    + split; [|auto]. destruct H as (_ & _ & _ & _ & _ & _ & Hne & _).
      by destruct ns.
    + split; [reflexivity|auto].
  - exists "default". split; [reflexivity|]. left. split; [|reflexivity].
    intros ns'. split; intros H;
      by apply (matchNamespace_complete cmd ns'); [auto|].
Qed.

(** The two outer [padEnd(10)] of a row are applied to texts that are
    already longer, so they add nothing. *)
Lemma length_append (s t : string) :
  String.length (s +:+ t) = (String.length s + String.length t)%nat.
Proof. induction s; simpl; [reflexivity|]. by rewrite <- IHs. Qed.

Lemma length_spaces (n : nat) : String.length (JS.spaces n) = n.
Proof. induction n; simpl; [reflexivity|]. by rewrite IHn. Qed.

Lemma append_empty_r (s : string) : s +:+ "" = s.
Proof. induction s; [reflexivity|]. by rewrite append_String, IHs. Qed.

Lemma append_assoc (s t u : string) : (s +:+ t) +:+ u = s +:+ t +:+ u.
Proof. induction s; [reflexivity|]. by rewrite !append_String, IHs. Qed.

Lemma length_padEnd (n : nat) (s : string) : (n <= String.length (JS.padEnd n s))%nat.
Proof. unfold JS.padEnd. rewrite length_append, length_spaces. lia. Qed.

Lemma padEnd_long (n : nat) (s : string) :
  (n <= String.length s)%nat -> JS.padEnd n s = s.
Proof.
  intros H. unfold JS.padEnd. replace (n - String.length s)%nat with 0%nat by lia.
  apply append_empty_r.
Qed.

Lemma allSpaces_spaces (n : nat) : allSpaces (JS.spaces n).
Proof. induction n; simpl; auto. Qed.

Lemma podsRow_eq (p : Pod.t) :
  podsRow p =
  JS.padEnd 30 (Pod.name p) +:+ "1/1"
    +:+ JS.padEnd 15 (statusString (Pod.status p)) +:+ "0" +:+ "2d".
Proof.
  unfold podsRow.
  rewrite (padEnd_long 10 (JS.padEnd 30 (Pod.name p) +:+ "1/1")).
  2:{ rewrite length_append. pose proof (length_padEnd 30 (Pod.name p)). lia. }
  rewrite (padEnd_long 10 (JS.padEnd 15 (statusString (Pod.status p)) +:+ "0")).
  2:{ rewrite length_append.
      pose proof (length_padEnd 15 (statusString (Pod.status p))). lia. }
  by rewrite !append_assoc.
Qed.

(** Every row is 16 characters short of the fixed-width row: the 7
    blanks after "1/1" and the 9 blanks after "0" are missing. *)
Lemma podsRow_short (p : Pod.t) :
  String.length (fixedWidthRow p) = (String.length (podsRow p) + 16)%nat.
Proof.
  rewrite podsRow_eq. unfold fixedWidthRow.
  change (JS.padEnd 10 "1/1") with "1/1       ".
  change (JS.padEnd 10 "0") with "0         ".
  rewrite !length_append. cbn [String.length]. lia.
Qed.

Lemma filter_namespace (ns : string) (pods : list Pod.t) :
  List.filter (fun p => bool_decide (Some (Pod.namespace p) = Some ns)) pods
  = List.filter (fun p => String.eqb (Pod.namespace p) ns) pods.
Proof.
  apply List.filter_ext. intros p.
  destruct (String.eqb_spec (Pod.namespace p) ns) as [->|Hne].
  - by rewrite bool_decide_eq_true_2.
  - rewrite bool_decide_eq_false_2; [reflexivity|]. by intros [= ?].
Qed.

(** The list-pods rule on a command that reaches it. *)
Lemma executeCommand_get_pods (this : KubernetesSimulator) (command : string)
    (w : World) (st : ClusterState.t) :
  heap w !! state this = Some st ->
  JS.includes "exec -it" (JS.trim command) = false ->
  JS.includes "get pods" (JS.trim command) = true ->
  exists ns filtered,
    (((forall ns', ~ shortFlag (JS.trim command) ns'
                   /\ ~ longFlag (JS.trim command) ns') /\ ns = "default")
     \/ shortFlag (JS.trim command) ns \/ longFlag (JS.trim command) ns)
    /\ filtered =
       (if JS.includes "-A" (JS.trim command)
           || JS.includes "--all-namespaces" (JS.trim command)
        then ClusterState.pods st
        else List.filter (fun p => String.eqb (Pod.namespace p) ns)
                         (ClusterState.pods st))
    /\ executeCommand this command w =
       Some (match filtered with
             | [] => "No resources found in " +:+ ns +:+ " namespace."
             | _ :: _ => JS.join JS.nl (podsHeader :: List.map podsRow filtered)
             end, w).
Proof.
  intros Hst Hex Hget.
  destruct (listing_namespace (JS.trim command)) as (ns & Hns & Hshape).
  exists ns. eexists. split; [exact Hshape|]. split; [reflexivity|].
  unfold executeCommand. rewrite Hex, Hget. cbv zeta.
  rewrite bind_eq, (deref_eq _ _ _ Hst), Hns, filter_namespace.
  match goal with |- context [match ?l with [] => _ | _ :: _ => _ end] =>
    destruct l; reflexivity end.
Qed.

(** The list rule.  For every command whose trimmed text contains
    "get pods" and not the token "exec -it" of the rule that is tried
    first: the namespace is the value of a [-n <ns>] or [--namespace=<ns>]
    flag of the text, "default" when the text has no match; when the text
    contains "-A" or "--all-namespaces" the listing takes every pod,
    otherwise the pods of that namespace; when no pod is left the result
    is "No resources found in {ns} namespace."; otherwise it is the header
    line NAME, READY, STATUS, RESTARTS, AGE followed by exactly one line
    per listed pod, in order, each made of the pod's name, "1/1", the pod's
    status, "0" and the age placeholder "2d" in this order.  On a store of
    4 kube-system pods and 5 default pods "kubectl get pods -n kube-system"
    gives the header and exactly 4 rows, all of pods of kube-system. *)
Lemma get_pods_listing :
  (forall (this : KubernetesSimulator) (command : string) (w : World)
          (st : ClusterState.t),
     heap w !! state this = Some st ->
     JS.includes "exec -it" (JS.trim command) = false ->
     JS.includes "get pods" (JS.trim command) = true ->
     exists ns filtered,
       (((forall ns', ~ shortFlag (JS.trim command) ns'
                      /\ ~ longFlag (JS.trim command) ns') /\ ns = "default")
        \/ shortFlag (JS.trim command) ns \/ longFlag (JS.trim command) ns)
       /\ filtered =
          (if JS.includes "-A" (JS.trim command)
              || JS.includes "--all-namespaces" (JS.trim command)
           then ClusterState.pods st
           else List.filter (fun p => String.eqb (Pod.namespace p) ns)
                            (ClusterState.pods st))
       /\ executeCommand this command w =
          Some (match filtered with
                | [] => "No resources found in " +:+ ns +:+ " namespace."
                | _ :: _ => JS.join JS.nl (podsHeader :: List.map podsRow filtered)
                end, w))
  /\ podsHeader
     = "NAME                          READY     STATUS         RESTARTS  AGE"
  /\ (forall p : Pod.t, exists pad1 pad2,
        podsRow p = Pod.name p +:+ pad1 +:+ "1/1"
                      +:+ statusString (Pod.status p) +:+ pad2 +:+ "0" +:+ "2d"
        /\ allSpaces pad1 /\ allSpaces pad2)
  /\ (forall (this : KubernetesSimulator) (w : World) (st : ClusterState.t),
        heap w !! state this = Some st ->
        length (List.filter (fun p => String.eqb (Pod.namespace p) "kube-system")
                            (ClusterState.pods st)) = 4%nat ->
        length (List.filter (fun p => String.eqb (Pod.namespace p) "default")
                            (ClusterState.pods st)) = 5%nat ->
        exists rows,
          executeCommand this "kubectl get pods -n kube-system" w
          = Some (JS.join JS.nl (podsHeader :: List.map podsRow rows), w)
          /\ length rows = 4%nat
          /\ Forall (fun p => Pod.namespace p = "kube-system"
                              /\ p ∈ ClusterState.pods st) rows).
Proof.
  split; [exact executeCommand_get_pods|].
  split; [reflexivity|]. split.
  - intros p. rewrite podsRow_eq. unfold JS.padEnd.
    exists (JS.spaces (30 - String.length (Pod.name p))),
           (JS.spaces (15 - String.length (statusString (Pod.status p)))).
    rewrite !append_assoc. split; [reflexivity|].
    split; apply allSpaces_spaces.
  - intros this w st Hst H4 _.
    exists (List.filter (fun p => String.eqb (Pod.namespace p) "kube-system")
                        (ClusterState.pods st)).
    split; [|split; [exact H4|]].
    + unfold executeCommand.
      change (JS.trim "kubectl get pods -n kube-system")
        with "kubectl get pods -n kube-system".
      change (JS.includes "exec -it" "kubectl get pods -n kube-system") with false.
      change (JS.includes "get pods" "kubectl get pods -n kube-system") with true.
      change (JS.matchNamespace "kubectl get pods -n kube-system")
        with (Some (Some "kube-system", @None string)).
      change (JS.includes "-A" "kubectl get pods -n kube-system") with false.
      change (JS.includes "--all-namespaces" "kubectl get pods -n kube-system")
        with false.
      cbv zeta. cbn [JS.orElse orb].
      rewrite bind_eq, (deref_eq _ _ _ Hst), filter_namespace.
      destruct (List.filter _ (ClusterState.pods st)); [discriminate H4|reflexivity].
    + apply Forall_forall. intros p Hp.
      apply list_elem_of_In, filter_In in Hp as [Hin Hns].
      split; [by apply String.eqb_eq | by apply list_elem_of_In].
Qed.

(** ** Blank commands *)

Lemma executeCommand_blank (this : KubernetesSimulator) (command : string)
    (w : World) :
  JS.trim command = "" ->
  executeCommand this command w
  = Some ("Command executed: " +:+ command +:+ JS.nl
            +:+ "Output: Success (Simulated)", w).
Proof. intros H. unfold executeCommand. rewrite H. reflexivity. Qed.

Lemma handleTerminalCommand_blank (command : string) (app : App) (w : World) :
  JS.trim command = "" -> handleTerminalCommand command app w = Some (app, w).
Proof.
  intros H. unfold handleTerminalCommand. by rewrite bool_decide_eq_true_2.
Qed.

(** C8.  The code at a blank command.  [executeCommand] on three spaces
    does not stay silent: it answers with the fallback acknowledgment.
    The terminal handler returns before calling it, so there the command
    is a no-op; the loop over the steps of an assistant response has no
    such guard and appends a terminal message with that output. *)
Theorem blank_command_not_noop (this : KubernetesSimulator) (app : App)
    (step : K8sStep.t) (msgs : list Message.t) (w : World) :
  executeCommand this "   " w
  = Some ("Command executed:    " +:+ JS.nl +:+ "Output: Success (Simulated)", w)
  /\ handleTerminalCommand "   " app w = Some (app, w)
  /\ runStep (K8sStep.mk (K8sStep.description step) "   " (K8sStep.explanation step))
             msgs this w
     = Some (msgs ++ [Message.mk Message.terminal
                        ("$    " +:+ JS.nl +:+ "Command executed:    " +:+ JS.nl
                           +:+ "Output: Success (Simulated)")
                        (clock (reads w))],
             mkWorld (heap w) (draws w) (S (reads w))).
Proof.
  split; [by apply executeCommand_blank|].
  split; [by apply handleTerminalCommand_blank|].
  unfold runStep. rewrite bind_eq. cbn [K8sStep.command].
  rewrite (executeCommand_blank this "   " w eq_refl). reflexivity.
Qed.

(** ** Snapshots and the store *)

(** [getState] hands out the reference of the store itself: the caller
    holds the very object the next tick writes to. *)
Lemma getState_returns_store (this : KubernetesSimulator) (w w' : World) (l : loc) :
  getState this w = Some (l, w') -> l = state this.
Proof.
  unfold getState. rewrite bind_eq.
  destruct (deref (state this) w) as [[st w1]|]; [|discriminate].
  rewrite bind_eq. destruct (mapM tickPod (ClusterState.pods st) w1) as [[ps w2]|];
    [|discriminate].
  rewrite bind_eq. destruct (assign_pods (state this) ps w2) as [[[] w3]|];
    [|discriminate].
  by intros [= <- _].
Qed.

Lemma statusEdge_same (p : Pod.t) : statusEdge p p = false.
Proof. unfold statusEdge. apply andb_negb_r. Qed.

Lemma utilizationEdge_same (p : Pod.t) : utilizationEdge p p = false.
Proof. unfold utilizationEdge. rewrite !gt_le_negb, !andb_negb_r. reflexivity. Qed.

(** A snapshot compared with itself raises nothing. *)
Lemma emits_same (pods : list Pod.t) (chunks : list (list Alert.t)) :
  NoDup (Pod.id <$> pods) ->
  forall l, Forall (fun p => p ∈ pods) l ->
  Forall2 (emits pods) l chunks -> concat chunks = [].
Proof.
  intros Hnd l Hsub HF. induction HF as [|p c l chunks Hp HF IH]; [reflexivity|].
  apply Forall_cons in Hsub as [Hin Hsub].
  simpl. rewrite (IH Hsub).
  unfold emits in Hp. rewrite (lookupPod_NoDup pods p Hnd Hin) in Hp.
  rewrite statusEdge_same, utilizationEdge_same in Hp.
  by destruct Hp as (s0 & u & -> & -> & ->).
Qed.

Lemma forEach_go_deref (l : loc) (st : ClusterState.t) (xs : list Pod.t) :
  forall i acc w,
  heap w !! l = Some st ->
  forEach_go (fun pod (_ : nat) acc =>
                last ← deref l; alertBody (ClusterState.pods last) pod acc)
             i xs acc w
  = forEach_go (fun pod (_ : nat) acc => alertBody (ClusterState.pods st) pod acc)
               i xs acc w.
Proof.
  induction xs as [|x xs IH]; intros i acc w Hl; simpl; [reflexivity|].
  rewrite !bind_eq, (deref_eq _ _ _ Hl).
  destruct (returns_alertBody (ClusterState.pods st) x acc w)
    as (acc' & w' & E & Hh & _).
  rewrite E. apply IH. by rewrite Hh.
Qed.

Lemma tick_rel_ids (l l' : list Pod.t) :
  Forall2 tick_rel l l' -> Pod.id <$> l' = Pod.id <$> l.
Proof.
  induction 1 as [|p p' l l' ((Hid & _) & _) HF IH]; [reflexivity|].
  by rewrite !fmap_cons, Hid, IH.
Qed.

(** The interval callback of the dashboard, started as [mount] leaves it
    ([lastStateRef] holds the reference of the store): the previous and
    the next snapshot are one object, so with distinct pod identifiers no
    alert is ever raised, whatever the tick did. *)
Lemma onInterval_raises_nothing (app : App) (w : World) (st : ClusterState.t) :
  lastStateRef app = state (simulator app) ->
  heap w !! state (simulator app) = Some st ->
  NoDup (Pod.id <$> ClusterState.pods st) ->
  exists app' w' st',
    onInterval app w = Some (app', w')
    /\ alerts app' = alerts app /\ activeToast app' = activeToast app
    /\ simulator app' = simulator app
    /\ lastStateRef app' = state (simulator app')
    /\ heap w' !! state (simulator app') = Some st'
    /\ NoDup (Pod.id <$> ClusterState.pods st').
Proof.
  intros Hlast Hst Hnd.
  destruct (getState_spec (simulator app) w st Hst) as (pods' & w1 & E1 & H1 & HF).
  set (st' := ClusterState.mk pods' (ClusterState.namespaces st)) in *.
  assert (Hst' : heap w1 !! state (simulator app) = Some st').
  { by rewrite H1, lookup_insert_eq. }
  assert (Hnd' : NoDup (Pod.id <$> pods')) by (by rewrite (tick_rel_ids _ _ HF)).
  unfold onInterval. rewrite bind_eq, E1, bind_eq, (deref_eq _ _ _ Hst'), bind_eq.
  unfold forEach. rewrite Hlast, (forEach_go_deref _ st' _ _ _ _ Hst').
  destruct (returns_alertLoop pods' pods' w1) as (new & w2 & E2 & H2 & chunks & -> & HC).
  unfold alertLoop, forEach in E2. cbn [ClusterState.pods st']. rewrite E2.
  rewrite (emits_same pods' chunks Hnd' pods') by (by apply Forall_forall || exact HC).
  assert (Hst2 : heap w2 !! state (simulator app) = Some st') by (by rewrite H2).
  rewrite bind_eq, (deref_eq _ _ _ Hst2), bind_eq. unfold alloc.
  cbn [length Nat.ltb Nat.leb mret M_ret].
  eexists _, _, st'. split; [reflexivity|]. cbn.
  repeat split; try done.
  rewrite lookup_insert_ne; [exact Hst2|].
  intros Heq. pose proof (is_fresh (dom (heap w2))) as Hf. rewrite Heq in Hf.
  apply Hf, elem_of_dom. eauto.
Qed.
(** ** More about the tick *)

Lemma mapM_tickPod_world (pods : list Pod.t) :
  forall w, exists pods',
    mapM tickPod pods w
    = Some (pods', mkWorld (heap w) (4 * length pods + draws w) (reads w)).
Proof.
  induction pods as [|p pods IH]; intros w.
  - exists []. destruct w. reflexivity.
  - cbn [mapM]. rewrite bind_eq, tickPod_eq.
    destruct (IH (mkWorld (heap w) (4 + draws w) (reads w))) as (pods' & E).
    rewrite bind_eq, E. eexists. cbn [heap draws reads length].
    replace (4 * length pods + (4 + draws w))%nat
      with (4 * S (length pods) + draws w)%nat by lia.
    reflexivity.
Qed.

Lemma getState_run (this : KubernetesSimulator) (w : World) (st : ClusterState.t) :
  heap w !! state this = Some st ->
  exists pods',
    getState this w
    = Some (state this,
            mkWorld (<[state this := ClusterState.mk pods' (ClusterState.namespaces st)]>
                       (heap w))
                    (4 * length (ClusterState.pods st) + draws w) (reads w)).
Proof.
  intros Hst. destruct (mapM_tickPod_world (ClusterState.pods st) w) as (pods' & E).
  exists pods'.
  unfold getState. rewrite bind_eq, (deref_eq _ _ _ Hst), bind_eq, E, bind_eq.
  unfold assign_pods. cbn [heap draws reads]. by rewrite Hst.
Qed.

(** X1. A tick draws exactly four random numbers per pod, never reads the
    clock, and writes no heap cell other than the state object of the
    simulator. *)
Theorem getState_footprint (this : KubernetesSimulator) (w : World)
    (st : ClusterState.t) :
  heap w !! state this = Some st ->
  exists w',
    getState this w = Some (state this, w')
    /\ draws w' = (draws w + 4 * length (ClusterState.pods st))%nat
    /\ reads w' = reads w
    /\ forall l, l <> state this -> heap w' !! l = heap w !! l.
Proof.
  intros Hst. destruct (getState_run this w st Hst) as (pods' & E).
  eexists. split; [exact E|]. cbn [heap draws reads].
  split; [lia|]. split; [reflexivity|].
  intros l Hl. by rewrite lookup_insert_ne.
Qed.

Lemma clamp_step (x lo hi d : Q) :
  (0 <= x <= 100)%Q -> (lo <= 0)%Q -> (0 <= hi)%Q -> (lo <= d <= hi)%Q ->
  (x + lo <= JS.max 0 (JS.min 100 (x + d)) <= x + hi)%Q.
Proof.
  intros Hx Hlo Hhi Hd. unfold JS.max, JS.min. split.
  - apply Q.max_le_iff. right. apply Q.min_glb_iff. split; lra.
  - apply Q.max_lub_iff. split; [lra|]. apply Q.min_le_iff. right. lra.
Qed.

(** X2. One tick moves the usage of a pod by a bounded step: for a pod
    whose usage is in [0,100], the new memory is within 2 of the old one,
    and the new cpu is within 5 of the old one unless the spike draw (the
    third of the four) is below 0.05, in which case it is exactly
    min(100, cpu + 50) whatever the second draw was. *)
Theorem tickPod_bounded_step (pod : Pod.t) (w : World) :
  (0 <= PodUsage.cpu (Pod.usage pod) <= 100)%Q ->
  (0 <= PodUsage.memory (Pod.usage pod) <= 100)%Q ->
  exists pod' w',
    tickPod pod w = Some (pod', w')
    /\ (PodUsage.memory (Pod.usage pod) - 2
        <= PodUsage.memory (Pod.usage pod')
        <= PodUsage.memory (Pod.usage pod) + 2)%Q
    /\ if JS.lt (random (2 + draws w)) (5 # 100)
       then (PodUsage.cpu (Pod.usage pod')
             == Qmin 100 (PodUsage.cpu (Pod.usage pod) + 50))%Q
       else (PodUsage.cpu (Pod.usage pod) - 5
             <= PodUsage.cpu (Pod.usage pod')
             <= PodUsage.cpu (Pod.usage pod) + 5)%Q.
Proof.
  intros Hc Hm. eexists _, _. split; [apply tickPod_eq|].
  cbn [Pod.usage Pod.spread_status_usage PodUsage.cpu PodUsage.memory].
  pose proof (random_range (3 + draws w)) as H3.
  pose proof (random_range (1 + draws w)) as H1.
  split.
  - pose proof (clamp_step (PodUsage.memory (Pod.usage pod)) (-2) 2
                  (random (3 + draws w) * 4 - 2) Hm) as H.
    unfold Qminus. apply H; lra.
  - destruct (JS.lt (random (2 + draws w)) (5 # 100)).
    + unfold JS.max, JS.min.
      apply Q.max_r. apply Q.min_glb; lra.
    + pose proof (clamp_step (PodUsage.cpu (Pod.usage pod)) (-5) 5
                    (random (1 + draws w) * 10 - 5) Hc) as H.
      unfold Qminus. apply H; lra.
Qed.

(** ** More about the handlers of the dashboard *)

Lemma step_heap_other (sim : KubernetesSimulator) (w w' : World) (l : loc) :
  step sim w w' -> l <> state sim -> heap w' !! l = heap w !! l.
Proof.
  intros [w0 l0 w1 E | c w0 out w1 E] Hl.
  - unfold getState in E. rewrite bind_eq in E. unfold deref in E.
    destruct (heap w0 !! state sim) as [st|] eqn:Hst; [|discriminate].
    destruct (getState_run sim w0 st Hst) as (pods' & E2).
    unfold getState in E2. rewrite bind_eq, (deref_eq _ _ _ Hst) in E2.
    rewrite E2 in E. injection E as _ <-. cbn [heap].
    by rewrite lookup_insert_ne.
  - apply executeCommand_heap in E. by rewrite E.
Qed.

Lemma steps_heap_other (sim : KubernetesSimulator) (w w' : World) (l : loc) :
  rtc (step sim) w w' -> l <> state sim -> heap w' !! l = heap w !! l.
Proof.
  induction 1 as [|w1 w2 w3 H12 _ IH]; intros Hl; [reflexivity|].
  rewrite (IH Hl). by apply (step_heap_other sim).
Qed.

Lemma fresh_not_store (w : World) (l : loc) (st : ClusterState.t) :
  heap w !! l = Some st -> fresh (dom (heap w)) <> l.
Proof.
  intros Hst Heq. pose proof (is_fresh (dom (heap w))) as Hf.
  rewrite Heq in Hf. apply Hf, elem_of_dom. eauto.
Qed.

(** What the interval callback computes, step by step. *)
Lemma onInterval_spec (app : App) (w : World) (st last : ClusterState.t) :
  heap w !! state (simulator app) = Some st ->
  heap w !! lastStateRef app = Some last ->
  exists pods' w1 last' new w2,
    let st' := ClusterState.mk pods' (ClusterState.namespaces st) in
    getState (simulator app) w = Some (state (simulator app), w1)
    /\ Forall2 tick_rel (ClusterState.pods st) pods'
    /\ heap w1 !! state (simulator app) = Some st'
    /\ heap w1 !! lastStateRef app = Some last'
    /\ alertLoop (ClusterState.pods last') pods' w1 = Some (new, w2)
    /\ heap w2 = heap w1
    /\ onInterval app w
       = Some (mkApp (simulator app) (fresh (dom (heap w2)))
                 (if (0 <? length new)%nat
                  then take 50 (new ++ alerts app) else alerts app)
                 (if (0 <? length new)%nat
                  then head new else activeToast app)
                 (state (simulator app)) (messages app),
               mkWorld (<[fresh (dom (heap w2)) := st']> (heap w2))
                       (draws w2) (reads w2)).
Proof.
  intros Hst Hlast.
  destruct (getState_spec (simulator app) w st Hst) as (pods' & w1 & E1 & H1 & HF).
  set (st' := ClusterState.mk pods' (ClusterState.namespaces st)) in *.
  assert (Hst' : heap w1 !! state (simulator app) = Some st')
    by (by rewrite H1, lookup_insert_eq).
  assert (Hl : exists last', heap w1 !! lastStateRef app = Some last').
  { rewrite H1. destruct (decide (state (simulator app) = lastStateRef app)) as [<-|Hne].
    - rewrite lookup_insert_eq. eauto.
    - rewrite lookup_insert_ne by done. eauto. }
  destruct Hl as (last' & Hlast').
  destruct (returns_alertLoop (ClusterState.pods last') pods' w1)
    as (new & w2 & E2 & H2 & _).
  exists pods', w1, last', new, w2. cbn zeta. fold st'.
  repeat (split; [assumption|]).
  unfold onInterval. rewrite bind_eq, E1, bind_eq, (deref_eq _ _ _ Hst'), bind_eq.
  unfold forEach. rewrite (forEach_go_deref _ last' _ _ _ _ Hlast').
  unfold alertLoop, forEach in E2. cbn [ClusterState.pods st']. rewrite E2.
  assert (Hst2 : heap w2 !! state (simulator app) = Some st') by (by rewrite H2).
  cbv zeta. rewrite bind_eq, (deref_eq _ _ _ Hst2), bind_eq. reflexivity.
Qed.

(** X3. What one run of the interval callback does to the feed and the
    toast.  Let [new] be the alerts the loop raises when it compares the
    ticked pods with the pods of the object [lastStateRef] points to (as
    that object is after the tick).  When [new] is empty the feed and the
    toast are as before.  Otherwise the feed is the first 50 entries of
    [new] followed by the old feed, and the toast is the first alert of
    [new].  A feed of at most 50 alerts stays so, and the messages are not
    touched. *)
Theorem onInterval_feed (app : App) (w : World) (st last : ClusterState.t) :
  heap w !! state (simulator app) = Some st ->
  heap w !! lastStateRef app = Some last ->
  exists pods' w1 last' new w2 app' w',
    getState (simulator app) w = Some (state (simulator app), w1)
    /\ heap w1 !! state (simulator app)
       = Some (ClusterState.mk pods' (ClusterState.namespaces st))
    /\ heap w1 !! lastStateRef app = Some last'
    /\ alertLoop (ClusterState.pods last') pods' w1 = Some (new, w2)
    /\ onInterval app w = Some (app', w')
    /\ alerts app'
       = match new with
         | [] => alerts app
         | _ :: _ => take 50 (new ++ alerts app)
         end
    /\ activeToast app'
       = match new with
         | [] => activeToast app
         | a :: _ => Some a
         end
    /\ (length (alerts app) <= 50 -> length (alerts app') <= 50)%nat
    /\ messages app' = messages app.
Proof.
  intros Hst Hlast.
  destruct (onInterval_spec app w st last Hst Hlast)
    as (pods' & w1 & last' & new & w2 & E1 & _ & Hst1 & Hl1 & E2 & _ & E).
  exists pods', w1, last', new, w2. eexists _, _.
  split; [exact E1|]. split; [exact Hst1|]. split; [exact Hl1|].
  split; [exact E2|]. split; [exact E|].
  cbn [alerts activeToast messages].
  destruct new as [|a new]; cbn [length Nat.ltb Nat.leb head].
  - split; [reflexivity|]. split; [reflexivity|]. split; [auto|reflexivity].
  - split; [reflexivity|]. split; [reflexivity|]. split; [|reflexivity].
    intros _. rewrite length_take. lia.
Qed.

(** X4. Whatever [lastStateRef] held before, after one run of the
    interval callback it holds the reference of the store; a second run
    then compares the store with itself and, the pod identifiers being
    distinct, changes neither the feed nor the toast. *)
Theorem onInterval_twice (app : App) (w : World) (st last : ClusterState.t) :
  heap w !! state (simulator app) = Some st ->
  heap w !! lastStateRef app = Some last ->
  NoDup (Pod.id <$> ClusterState.pods st) ->
  exists app1 w1 app2 w2,
    onInterval app w = Some (app1, w1)
    /\ lastStateRef app1 = state (simulator app)
    /\ onInterval app1 w1 = Some (app2, w2)
    /\ alerts app2 = alerts app1 /\ activeToast app2 = activeToast app1.
Proof.
  intros Hst Hlast Hnd.
  destruct (onInterval_spec app w st last Hst Hlast)
    as (pods' & w1 & last' & new & w2 & E1 & HF & Hst1 & _ & _ & H2 & E).
  eexists _, _. 
  edestruct (onInterval_raises_nothing
               (mkApp (simulator app) (fresh (dom (heap w2)))
                  (if (0 <? length new)%nat
                   then take 50 (new ++ alerts app) else alerts app)
                  (if (0 <? length new)%nat then head new else activeToast app)
                  (state (simulator app)) (messages app))
               (mkWorld (<[fresh (dom (heap w2))
                           := ClusterState.mk pods' (ClusterState.namespaces st)]>
                           (heap w2)) (draws w2) (reads w2)))
    as (app2 & w3 & st3 & E3 & Ha & Ht & _).
  - reflexivity.
  - cbn [simulator heap]. rewrite lookup_insert_ne.
    + rewrite H2. exact Hst1.
    + apply (fresh_not_store w2 _ (ClusterState.mk pods' (ClusterState.namespaces st))).
      by rewrite H2.
  - cbn [ClusterState.pods]. by rewrite (tick_rel_ids _ _ HF).
  - exists app2, w3. split; [exact E|]. split; [reflexivity|].
    split; [exact E3|]. split; assumption.
Qed.

(** X5. The object the interval callback stores for the view
    ([{ ...newState }]) is a fresh one: it holds the pods of the tick just
    made, and no later tick or command changes what it holds. *)
Theorem onInterval_copy_stable (app : App) (w : World) (st last : ClusterState.t) :
  heap w !! state (simulator app) = Some st ->
  heap w !! lastStateRef app = Some last ->
  exists app' w' snap,
    onInterval app w = Some (app', w')
    /\ clusterState app' <> state (simulator app)
    /\ heap w' !! state (simulator app) = Some snap
    /\ heap w' !! clusterState app' = Some snap
    /\ forall w'', rtc (step (simulator app)) w' w'' ->
         heap w'' !! clusterState app' = Some snap.
Proof.
  intros Hst Hlast.
  destruct (onInterval_spec app w st last Hst Hlast)
    as (pods' & w1 & last' & new & w2 & _ & _ & Hst1 & _ & _ & H2 & E).
  assert (Hne : fresh (dom (heap w2)) <> state (simulator app)).
  { apply (fresh_not_store w2 _ (ClusterState.mk pods' (ClusterState.namespaces st))).
    by rewrite H2. }
  eexists _, _, _. split; [exact E|]. cbn [clusterState heap].
  split; [exact Hne|].
  split; [rewrite lookup_insert_ne by exact Hne; rewrite H2; exact Hst1|].
  split; [apply lookup_insert_eq|].
  intros w'' Hsteps. rewrite (steps_heap_other _ _ _ _ Hsteps Hne).
  apply lookup_insert_eq.
Qed.

(** X6. A terminal command that is not blank runs on the cluster as it is,
    appends exactly one terminal message "$ {command}\n{output}", and then
    ticks the cluster once: the view is refreshed from a state one tick
    later than the one the output was computed from.  Feed, toast and
    [lastStateRef] are left alone. *)
Theorem handleTerminalCommand_runs_then_ticks (command : string) (app : App)
    (w : World) (st : ClusterState.t) :
  JS.trim command <> "" ->
  heap w !! state (simulator app) = Some st ->
  exists out w1 app' w' pods',
    executeCommand (simulator app) command w = Some (out, w1)
    /\ heap w1 = heap w
    /\ handleTerminalCommand command app w = Some (app', w')
    /\ messages app'
       = messages app
         ++ [Message.mk Message.terminal ("$ " +:+ command +:+ JS.nl +:+ out)
               (clock (reads w1))]
    /\ Forall2 tick_rel (ClusterState.pods st) pods'
    /\ heap w' !! state (simulator app)
       = Some (ClusterState.mk pods' (ClusterState.namespaces st))
    /\ heap w' !! clusterState app' = heap w' !! state (simulator app)
    /\ alerts app' = alerts app /\ activeToast app' = activeToast app
    /\ lastStateRef app' = lastStateRef app.
Proof.
  intros Hnb Hst.
  destruct (executeCommand_spec (simulator app) command w st Hst)
    as (out & w1 & E1 & H1).
  set (w1' := mkWorld (heap w1) (draws w1) (S (reads w1))).
  assert (Hst1 : heap w1' !! state (simulator app) = Some st)
    by (cbn [heap w1']; by rewrite H1).
  destruct (getState_spec (simulator app) w1' st Hst1) as (pods' & w2 & E2 & H2 & HF).
  set (st' := ClusterState.mk pods' (ClusterState.namespaces st)) in *.
  assert (Hst2 : heap w2 !! state (simulator app) = Some st')
    by (by rewrite H2, lookup_insert_eq).
  exists out, w1. eexists _, _, pods'.
  split; [exact E1|]. split; [exact H1|].
  unfold handleTerminalCommand. rewrite bool_decide_eq_false_2 by exact Hnb.
  rewrite bind_eq, E1, bind_eq. unfold Date_new at 1. fold w1'.
  rewrite bind_eq, E2, bind_eq, (deref_eq _ _ _ Hst2), bind_eq. unfold alloc.
  split; [reflexivity|]. cbn [messages heap clusterState alerts activeToast lastStateRef].
  split; [reflexivity|]. split; [exact HF|].
  assert (Hne : fresh (dom (heap w2)) <> state (simulator app))
    by (by apply (fresh_not_store w2 _ st')).
  rewrite lookup_insert_ne by exact Hne. rewrite lookup_insert_eq.
  split; [exact Hst2|]. split; [by rewrite Hst2|]. auto.
Qed.

(** ** More about the seed cluster *)

Lemma returns_repeatM_indexed {St} (body : St -> M St) (I : nat -> St -> Prop)
    (n : nat) :
  forall j acc,
  (forall j acc, I j acc -> returns (body acc) (I (S j))) -> I j acc ->
  returns (repeatM n body acc) (I (n + j)%nat).
Proof.
  induction n as [|n IH]; intros j acc Hbody HI; simpl.
  - by apply returns_ret.
  - eapply returns_bind; [by apply Hbody|]. intros acc' HI'.
    replace (S (n + j)) with (n + S j)%nat by lia. by apply IH.
Qed.

Lemma returns_generateMockEvents_full a b :
  returns (generateMockEvents a b)
    (fun evs =>
       K8sEvent.reason <$> evs = ["Scheduled"; "Pulling"; "Pulled"; "Created"; "Started"]
       /\ Forall (fun e => K8sEvent.type e = K8sEvent.Normal) evs
       /\ K8sEvent.message <$> head evs
          = Some ("Successfully assigned " +:+ a +:+ " to " +:+ b)).
Proof.
  unfold generateMockEvents.
  eapply returns_bind; [apply returns_Date|]. intros now _.
  do 5 (eapply returns_bind; [apply returns_randomString|]; intros ? _).
  apply returns_ret. split; [reflexivity|]. split; [|reflexivity].
  repeat constructor.
Qed.

Lemma returns_pushDefaultPod_full name i pods :
  returns (pushDefaultPod name i pods)
    (fun r => exists p, r = pods ++ [p]
       /\ placement p
          = ("default", "10.244.0." +:+ pretty (i + 10)%nat,
             nth (i mod 3) nodes "undefined",
             [("app", name); ("tier", if (i <? 2)%nat then "frontend" else "backend")])
       /\ seed_pod "pod-" name p).
Proof.
  unfold pushDefaultPod.
  eapply returns_bind; [apply returns_randomString|]. intros suffix _.
  eapply returns_bind; [apply returns_randomString|]. intros idr _.
  eapply returns_bind; [apply returns_Date|]. intros created _.
  eapply returns_bind; [apply returns_random|]. intros r1 _.
  eapply returns_bind; [apply returns_random|]. intros r2 _.
  eapply returns_bind; [apply returns_generateMockEvents_full|]. intros evs Hev.
  apply returns_ret. eexists. split; [reflexivity|]. split; [reflexivity|].
  split; [by exists suffix|]. split; [by exists idr|]. split; [reflexivity|].
  exact Hev.
Qed.

Lemma returns_pushSystemPod_full name i pods :
  returns (pushSystemPod name i pods)
    (fun r => exists p, r = pods ++ [p]
       /\ placement p
          = ("kube-system", "10.96.0." +:+ pretty (i + 1)%nat, "node-1",
             [("k8s-app", name)])
       /\ Pod.id p = "sys-" +:+ pretty i
       /\ seed_pod "sys-" name p).
Proof.
  unfold pushSystemPod.
  eapply returns_bind; [apply returns_randomString|]. intros suffix _.
  eapply returns_bind; [apply returns_Date|]. intros created _.
  eapply returns_bind; [apply returns_random|]. intros r1 _.
  eapply returns_bind; [apply returns_random|]. intros r2 _.
  eapply returns_bind; [apply returns_generateMockEvents_full|]. intros evs Hev.
  apply returns_ret. eexists. split; [reflexivity|]. split; [reflexivity|].
  split; [reflexivity|].
  split; [by exists suffix|]. split; [by exists (pretty i)|]. split; [reflexivity|].
  exact Hev.
Qed.

Lemma conn_ok_mono ids n m p : (n <= m)%nat -> conn_ok ids n p -> conn_ok ids m p.
Proof.
  intros Hnm (cs & H1 & H2 & H3 & H4 & H5). exists cs. repeat split; auto. lia.
Qed.

Lemma unlinked_ids (l l' : list Pod.t) :
  unlinked <$> l' = unlinked <$> l -> Pod.id <$> l' = Pod.id <$> l.
Proof.
  intros H. apply (f_equal (fmap (fun t => t.1.1.1.1.1.1.1))) in H.
  by rewrite <- !list_fmap_compose in H.
Qed.

Lemma linkBound_round k j i : (linkBound k j i <= linkBound k (S j) i)%nat.
Proof. unfold linkBound. destruct (i <? k)%nat, (i =? k)%nat; lia. Qed.

Lemma linkBound_turn k n i :
  (n <= 2)%nat -> (linkBound k n i <= linkBound (S k) 0 i)%nat.
Proof.
  intros Hn. unfold linkBound.
  destruct (Nat.ltb_spec i k), (Nat.eqb_spec i k), (Nat.ltb_spec i (S k)),
    (Nat.eqb_spec i (S k)); lia.
Qed.

(** The links of the pod at index [k] may grow by one in a round of the
    inner loop; nothing else changes. *)
Lemma returns_connectOnce_full (pods0 : list Pod.t) (k j : nat) (acc : list Pod.t) :
  (k < length pods0)%nat ->
  unlinked <$> acc = unlinked <$> pods0 ->
  (forall i p, acc !! i = Some p ->
     conn_ok (Pod.id <$> pods0) (linkBound k j i) p) ->
  returns (connectOnce k acc)
    (fun acc' =>
       unlinked <$> acc' = unlinked <$> pods0
       /\ forall i p, acc' !! i = Some p ->
            conn_ok (Pod.id <$> pods0) (linkBound k (S j) i) p).
Proof.
  intros Hk Hu Hc.
  assert (Hlen : length acc = length pods0).
  { apply (f_equal length) in Hu. by rewrite !length_fmap in Hu. }
  assert (Hstay : forall i p, acc !! i = Some p ->
            conn_ok (Pod.id <$> pods0) (linkBound k (S j) i) p).
  { intros i p Hi. eapply conn_ok_mono; [apply linkBound_round|]. by apply Hc. }
  unfold connectOnce.
  eapply returns_bind; [apply returns_random_range|]. intros r Hr.
  destruct (lookup_lt_is_Some_2 acc k) as [pod Hpod]; [lia|].
  destruct (at_in_range acc (JS.floor (r * inject_Z (Z.of_nat (length acc)))))
    as [target Ht].
  { apply floor_mul_range; [lia | exact Hr]. }
  rewrite Hpod, Ht.
  destruct (Hc k pod Hpod) as (cs & Hcs & Hnd & Hself & Hids & Hn).
  assert (Hb : linkBound k j k = j).
  { unfold linkBound. by rewrite Nat.ltb_irrefl, Nat.eqb_refl. }
  rewrite Hb in Hn. rewrite Hcs.
  destruct (String.eqb_spec (Pod.id target) (Pod.id pod)) as [Heq|Hne];
    [by apply returns_ret|].
  destruct (bool_decide_reflect (Pod.id target ∈ cs)) as [Hin|Hnin];
    [by apply returns_ret|].
  apply returns_ret. split.
  - rewrite list_fmap_insert, list_insert_id; [exact Hu|].
    rewrite list_lookup_fmap, Hpod. reflexivity.
  - intros i p Hi. destruct (decide (i = k)) as [->|Hik].
    + rewrite list_lookup_insert_eq in Hi by lia. injection Hi as <-.
      assert (Hb' : linkBound k (S j) k = S j).
      { unfold linkBound. by rewrite Nat.ltb_irrefl, Nat.eqb_refl. }
      rewrite Hb'. exists (cs ++ [Pod.id target]).
      split; [cbn; by rewrite Hcs|].
      split; [apply NoDup_app; split; [exact Hnd|]; split;
              [intros x Hx ?%list_elem_of_singleton; by subst | apply NoDup_singleton]|].
      split; [cbn; intros [?|?%list_elem_of_singleton]%elem_of_app; [done|];
              by apply Hne|].
      split.
      * intros x [Hx| ->%list_elem_of_singleton]%elem_of_app; [by apply Hids|].
        rewrite <- (unlinked_ids _ _ Hu). apply list_elem_of_fmap.
        exists target. split; [reflexivity|].
        unfold JS.at_ in Ht. destruct (_ <? 0)%Z; [discriminate|].
        by apply list_elem_of_lookup_2 in Ht.
      * rewrite length_app. simpl. lia.
    + rewrite list_lookup_insert_ne in Hi by done. by apply Hstay.
Qed.

Lemma returns_setupConnections_full (pods0 : list Pod.t) (k : nat) (acc : list Pod.t) :
  (k < length pods0)%nat ->
  unlinked <$> acc = unlinked <$> pods0 ->
  (forall i p, acc !! i = Some p ->
     conn_ok (Pod.id <$> pods0) (linkBound k 0 i) p) ->
  returns (setupConnections k acc)
    (fun acc' =>
       unlinked <$> acc' = unlinked <$> pods0
       /\ forall i p, acc' !! i = Some p ->
            conn_ok (Pod.id <$> pods0) (linkBound (S k) 0 i) p).
Proof.
  intros Hk Hu Hc. unfold setupConnections.
  eapply returns_bind; [apply returns_random|]. intros r _.
  destruct (JS.gt r (1 # 2)).
  - eapply returns_bind; [apply returns_random_range|]. intros r2 Hr2.
    pose proof (floor_mul_range r2 2 ltac:(lia) Hr2) as Hf.
    change (inject_Z 2) with 2%Q in Hf.
    eapply returns_weaken.
    { apply (returns_repeatM_indexed (connectOnce k)
               (fun j acc' =>
                  unlinked <$> acc' = unlinked <$> pods0
                  /\ forall i p, acc' !! i = Some p ->
                       conn_ok (Pod.id <$> pods0) (linkBound k j i) p)
               (Z.to_nat (JS.floor (r2 * 2) + 1)) 0%nat acc).
      - intros j acc' [Hu' Hc']. by apply returns_connectOnce_full.
      - by split. }
    intros acc' [Hu' Hc']. split; [exact Hu'|]. intros i p Hi.
    eapply conn_ok_mono; [|by apply Hc'].
    apply linkBound_turn. lia.
  - apply returns_ret. split; [exact Hu|]. intros i p Hi.
    eapply conn_ok_mono; [|by apply Hc]. apply linkBound_turn. lia.
Qed.

Lemma core_lookup (l l' : list Pod.t) (i : nat) (p' : Pod.t) :
  core <$> l' = core <$> l -> l' !! i = Some p' ->
  exists p, l !! i = Some p /\ core p' = core p.
Proof.
  intros H Hi. apply (f_equal (fun t => t !! i)) in H.
  rewrite !list_lookup_fmap, Hi in H.
  destruct (l !! i) as [p|]; [|discriminate]. exists p. split; [reflexivity|].
  change (Some (core p') = Some (core p)) in H. by apply (inj Some).
Qed.

Lemma core_eq (p p' : Pod.t) :
  core p' = core p ->
  Pod.id p' = Pod.id p /\ Pod.name p' = Pod.name p
  /\ Pod.node p' = Pod.node p /\ Pod.events p' = Pod.events p.
Proof. unfold core, placement. intros [= H1 H2 H3 H4 H5 H6 H7]. auto. Qed.

Lemma seed_core_transfer (l l' : list Pod.t) :
  core <$> l' = core <$> l -> seed_core l -> seed_core l'.
Proof.
  intros H (Hpl & Hn & Hid & Hev).
  assert (Hlen : length l' = length l).
  { apply (f_equal length) in H. by rewrite !length_fmap in H. }
  split; [|split; [|split]].
  - rewrite <- Hpl. apply (f_equal (fmap (fun t => t.1.2))) in H.
    by rewrite <- !list_fmap_compose in H.
  - apply Forall2_same_length_lookup. split.
    + rewrite Hlen. by eapply Forall2_length.
    + intros i base p' Hb Hp'.
      destruct (core_lookup l l' i p' H Hp') as (p & Hp & Hc).
      destruct (Forall2_lookup_lr _ _ _ _ _ _ Hn Hb Hp) as [sfx Hs].
      exists sfx. rewrite <- Hs. by destruct (core_eq _ _ Hc) as (_ & ? & _).
  - rewrite <- Hid. apply (f_equal (fmap (fun t => t.1.1.1))) in H.
    rewrite <- !list_fmap_compose in H. rewrite !fmap_drop.
    change (Pod.id <$> l' = Pod.id <$> l) in H. by rewrite H.
  - apply Forall_lookup. intros i p' Hp'.
    destruct (core_lookup l l' i p' H Hp') as (p & Hp & Hc).
    rewrite Forall_lookup in Hev. specialize (Hev i p Hp).
    destruct (core_eq _ _ Hc) as (_ & Hname & Hnode & Hevs).
    unfold events_ok in *. by rewrite Hevs, Hname, Hnode.
Qed.

Lemma unlinked_core (l l' : list Pod.t) :
  unlinked <$> l' = unlinked <$> l -> core <$> l' = core <$> l.
Proof.
  intros H.
  apply (f_equal (fmap (fun t => (t.1.1.1.1.1.1.1, t.1.1.1.1.1.1.2,
                                   t.1.1.1.1.1.2, t.1.1.1.2)))) in H.
  by rewrite <- !list_fmap_compose in H.
Qed.

Lemma static_core (l l' : list Pod.t) :
  static <$> l' = static <$> l -> core <$> l' = core <$> l.
Proof.
  intros H.
  apply (f_equal (fmap (fun t => (t.1.1.1.1.1.1, t.1.1.1.1.1.2,
                                   t.1.1.1.1.2, t.1.1.2)))) in H.
  by rewrite <- !list_fmap_compose in H.
Qed.

Lemma tick_rel_static (l l' : list Pod.t) :
  Forall2 tick_rel l l' -> static <$> l' = static <$> l.
Proof.
  induction 1 as [|p p' l l' ((H1 & H2 & H3 & H4 & H5 & H6 & H7 & H8 & H9 & H10) & _)
                    HF IH]; [reflexivity|].
  rewrite !fmap_cons, IH. f_equal. unfold static, placement. congruence.
Qed.

Lemma conn_ok_transfer (l l' : list Pod.t) :
  static <$> l' = static <$> l ->
  Forall (conn_ok (Pod.id <$> l) 2) l -> Forall (conn_ok (Pod.id <$> l') 2) l'.
Proof.
  intros H HF.
  assert (Hids : Pod.id <$> l' = Pod.id <$> l).
  { apply (f_equal (fmap (fun t => t.1.1.1.1.1.1))) in H.
    by rewrite <- !list_fmap_compose in H. }
  rewrite Hids. apply Forall_lookup. intros i p' Hp'.
  apply (f_equal (fun t => t !! i)) in H.
  rewrite !list_lookup_fmap, Hp' in H.
  destruct (l !! i) as [p|] eqn:Hp; [|discriminate].
  change (Some (static p') = Some (static p)) in H. apply (inj Some) in H.
  rewrite Forall_lookup in HF. destruct (HF i p Hp) as (cs & Hc & Hrest).
  exists cs.
  pose proof (f_equal (fun t => t.1.1.1.1.1.1) H) as Hid.
  pose proof (f_equal (fun t => t.1.2) H) as Hconn. simpl in Hid, Hconn.
  rewrite Hconn, Hid. by split.
Qed.

(** [generateMockPods] never throws and establishes the seed facts. *)
Lemma returns_generateMockPods_full :
  returns generateMockPods
    (fun pods => seed_core pods /\ Forall (conn_ok (Pod.id <$> pods) 2) pods).
Proof.
  unfold generateMockPods.
  eapply (returns_bind _ _
    (fun pods => Forall2 (seed_pod "pod-") names pods
                 /\ placement <$> pods = take 5 seedPlacement)).
  { unfold forEach, names. cbn [forEach_go].
    do 5 (eapply returns_bind; [apply returns_pushDefaultPod_full|];
          intros ? (? & -> & ? & ?)).
    apply returns_ret. cbn beta. cbn [app].
    split; [repeat (apply List.Forall2_cons; [assumption|]); apply List.Forall2_nil|].
    cbn [fmap list_fmap].
    repeat match goal with H : placement _ = _ |- _ => rewrite H; clear H end.
    reflexivity. }
  intros pods1 [HS1 HP1].
  eapply (returns_bind _ _
    (fun pods => exists sys, pods = pods1 ++ sys
                 /\ Forall2 (seed_pod "sys-") systemNames sys
                 /\ placement <$> sys = drop 5 seedPlacement
                 /\ Pod.id <$> sys = ["sys-0"; "sys-1"; "sys-2"; "sys-3"])).
  { unfold forEach, systemNames. cbn [forEach_go].
    do 4 (eapply returns_bind; [apply returns_pushSystemPod_full|];
          intros ? (? & -> & ? & ? & ?)).
    apply returns_ret. eexists [_; _; _; _]. rewrite <- !app_assoc. cbn [app].
    split; [reflexivity|].
    split; [repeat (apply List.Forall2_cons; [assumption|]); apply List.Forall2_nil|].
    cbn [fmap list_fmap].
    repeat match goal with H : placement _ = _ |- _ => rewrite H; clear H end.
    repeat match goal with H : Pod.id _ = _ |- _ => rewrite H; clear H end.
    split; reflexivity. }
  intros pods2 (sys & -> & HS2 & HP2 & HI2).
  assert (Hlen1 : length pods1 = 5%nat).
  { apply Forall2_length in HS1. by rewrite <- HS1. }
  assert (Hseed : forall i p, (pods1 ++ sys) !! i = Some p ->
            Pod.connections p = Some [] /\ events_ok p).
  { intros i p [Hi|[_ Hi]]%lookup_app_Some.
    - destruct (Forall2_lookup_r _ _ _ _ _ HS1 Hi) as (b & _ & _ & _ & Hc & He); auto.
    - destruct (Forall2_lookup_r _ _ _ _ _ HS2 Hi) as (b & _ & _ & _ & Hc & He); auto. }
  eapply returns_bind.
  { apply (returns_forEach (fun _ k pods => setupConnections k pods)
             (fun k acc =>
                unlinked <$> acc = unlinked <$> (pods1 ++ sys)
                /\ forall i p, acc !! i = Some p ->
                     conn_ok (Pod.id <$> (pods1 ++ sys)) (linkBound k 0 i) p)).
    - intros k x acc Hk [Hu Hc]. apply returns_setupConnections_full; auto.
      by apply lookup_lt_Some in Hk.
    - split; [reflexivity|]. intros i p Hi. destruct (Hseed i p Hi) as [Hc _].
      exists []. rewrite Hc. split; [reflexivity|]. split; [apply NoDup_nil_2|].
      split; [apply not_elem_of_nil|]. split; [by intros x ?%elem_of_nil|].
      simpl. lia. }
  intros pods3 [Hu Hc]. apply returns_ret. split.
  - apply (seed_core_transfer (pods1 ++ sys)); [by apply unlinked_core|].
    split; [|split; [|split]].
    + by rewrite fmap_app, HP1, HP2.
    + apply Forall2_app.
      * eapply Forall2_impl; [exact HS1|]. by intros b p (H & _).
      * eapply Forall2_impl; [exact HS2|]. by intros b p (H & _).
    + by rewrite <- Hlen1, drop_app_length.
    + apply Forall_lookup. intros i p Hi. by destruct (Hseed i p Hi).
  - apply Forall_lookup. intros i p Hi. rewrite (unlinked_ids _ _ Hu).
    eapply conn_ok_mono; [|by apply Hc].
    unfold linkBound.
    destruct (i <? length (pods1 ++ sys))%nat, (i =? length (pods1 ++ sys))%nat; lia.
Qed.

Lemma new_KubernetesSimulator_seed (w0 w : World) (sim : KubernetesSimulator) :
  new_KubernetesSimulator w0 = Some (sim, w) ->
  exists st, heap w !! state sim = Some st /\ seed_inv st.
Proof.
  destruct (returns_generateMockPods_full w0) as (pods & w1 & E1 & H1 & HS & HC).
  unfold new_KubernetesSimulator. rewrite bind_eq, E1, bind_eq. unfold alloc.
  intros [= <- <-]. eexists. cbn [heap state]. rewrite lookup_insert_eq.
  split; [reflexivity|]. split; [reflexivity|]. split; assumption.
Qed.

Lemma seed_inv_tick (st : ClusterState.t) (pods' : list Pod.t) :
  seed_inv st -> Forall2 tick_rel (ClusterState.pods st) pods' ->
  seed_inv (ClusterState.mk pods' (ClusterState.namespaces st)).
Proof.
  intros (Hns & Hcore & Hconn) HF. pose proof (tick_rel_static _ _ HF) as Hs.
  split; [exact Hns|]. cbn [ClusterState.pods]. split.
  - by apply (seed_core_transfer (ClusterState.pods st)); [apply static_core|].
  - by apply (conn_ok_transfer (ClusterState.pods st)).
Qed.

Lemma reachable_seed_inv (sim : KubernetesSimulator) (w : World) :
  reachable sim w -> exists st, heap w !! state sim = Some st /\ seed_inv st.
Proof.
  induction 1 as [w0 w E | w w' _ (st & Hst & Hinv) Hstep].
  - by apply (new_KubernetesSimulator_seed w0).
  - destruct Hstep as [w l w' E | c w out w' E].
    + destruct (getState_spec sim w st Hst) as (pods' & w1 & E1 & H1 & HF).
      rewrite E1 in E. injection E as _ <-.
      eexists. rewrite H1, lookup_insert_eq. split; [reflexivity|].
      by apply seed_inv_tick.
    + apply executeCommand_heap in E. exists st. by rewrite E.
Qed.

(** X7. The seed cluster keeps its shape along every run: the store has
    the four namespaces default, kube-system, production and monitoring,
    and nine pods, five application pods in default spread round-robin
    over node-1, node-2, node-3 with the addresses 10.244.0.10 to
    10.244.0.14 and four system pods in kube-system, all on node-1, with
    the addresses 10.96.0.1 to 10.96.0.4 and the identifiers sys-0 to
    sys-3; every pod is named after its roster entry, followed by a dash
    and a suffix. *)
Theorem seed_cluster_shape (sim : KubernetesSimulator) (w : World) :
  reachable sim w ->
  exists st, heap w !! state sim = Some st
    /\ ClusterState.namespaces st
       = ["default"; "kube-system"; "production"; "monitoring"]
    /\ placement <$> ClusterState.pods st = seedPlacement
    /\ Forall2 (fun base p => exists sfx, Pod.name p = base +:+ "-" +:+ sfx)
         ["api-gateway"; "auth-service"; "user-db"; "redis-cache"; "worker-node-a";
          "coredns"; "kube-proxy"; "calico-node"; "metrics-server"]
         (ClusterState.pods st)
    /\ Pod.id <$> drop 5 (ClusterState.pods st) = ["sys-0"; "sys-1"; "sys-2"; "sys-3"].
Proof.
  intros Hr.
  destruct (reachable_seed_inv sim w Hr) as (st & Hst & Hns & (H1 & H2 & H3 & _) & _).
  exists st. auto.
Qed.

(** X8. Along every run each pod carries the event history it was given
    at creation: five Normal events with the reasons Scheduled, Pulling,
    Pulled, Created, Started in this order, the first of which says
    "Successfully assigned {name} to {node}" with the pod's own name and
    node. *)
Theorem seed_event_history (sim : KubernetesSimulator) (w : World) :
  reachable sim w ->
  exists st, heap w !! state sim = Some st
    /\ forall pod, pod ∈ ClusterState.pods st ->
         K8sEvent.reason <$> Pod.events pod
         = ["Scheduled"; "Pulling"; "Pulled"; "Created"; "Started"]
         /\ Forall (fun e => K8sEvent.type e = K8sEvent.Normal) (Pod.events pod)
         /\ K8sEvent.message <$> head (Pod.events pod)
            = Some ("Successfully assigned " +:+ Pod.name pod +:+ " to "
                      +:+ Pod.node pod).
Proof.
  intros Hr.
  destruct (reachable_seed_inv sim w Hr) as (st & Hst & _ & (_ & _ & _ & He) & _).
  exists st. split; [exact Hst|]. intros pod Hin.
  rewrite Forall_forall in He. exact (He pod Hin).
Qed.

(** X9. Along every run the links of every pod are as the connection
    loop made them: at most two, none to the pod itself, no target
    twice, and every target is the identifier of a pod of the cluster. *)
Theorem seed_connections (sim : KubernetesSimulator) (w : World) :
  reachable sim w ->
  exists st, heap w !! state sim = Some st
    /\ forall pod, pod ∈ ClusterState.pods st ->
         exists cs, Pod.connections pod = Some cs
           /\ (length cs <= 2)%nat /\ NoDup cs /\ (Pod.id pod ∉ cs)
           /\ forall x, x ∈ cs ->
                exists target, target ∈ ClusterState.pods st /\ Pod.id target = x.
Proof.
  intros Hr.
  destruct (reachable_seed_inv sim w Hr) as (st & Hst & _ & _ & Hc).
  exists st. split; [exact Hst|]. intros pod Hin.
  rewrite Forall_forall in Hc.
  destruct (Hc pod Hin) as (cs & H1 & H2 & H3 & H4 & H5).
  exists cs. repeat (split; [assumption|]).
  intros x Hx. apply H4, list_elem_of_fmap in Hx as (target & -> & Ht). eauto.
Qed.

(** ** Strings: searching and trimming texts made of words *)

Lemma prefix_noSpace (sub t : string) :
  String.prefix sub t = true -> noSpace t -> noSpace sub.
Proof.
  revert t. induction sub as [|a sub IH]; intros t H Ht; [exact I|].
  destruct t as [|b t]; [discriminate|]. simpl in H.
  destruct (Ascii.ascii_dec a b) as [->|]; [|discriminate].
  destruct Ht as [Hb Ht]. split; [exact Hb|]. by apply (IH t).
Qed.

Lemma includes_cons (sub s : string) (c : ascii) :
  JS.includes sub (String c s)
  = String.prefix sub (String c s) || JS.includes sub s.
Proof. reflexivity. Qed.

(** A text without white space contains no token that has some. *)
Lemma includes_noSpace (sub t : string) :
  noSpace t -> ~ noSpace sub -> JS.includes sub t = false.
Proof.
  intros Ht Hsub. induction t as [|b t IH].
  - destruct sub; [by destruct Hsub|reflexivity].
  - rewrite includes_cons. destruct Ht as [Hb Ht].
    destruct (String.prefix sub (String b t)) eqn:E.
    + destruct Hsub. apply (prefix_noSpace _ _ E). by split.
    + by apply IH.
Qed.

Lemma includes_append_r (sub s t : string) :
  JS.includes sub t = true -> JS.includes sub (s +:+ t) = true.
Proof.
  intros H. induction s as [|c s IH]; [exact H|].
  rewrite append_String, includes_cons, IH. apply orb_true_r.
Qed.

Lemma prefix_append (sub s t : string) :
  String.prefix sub s = true -> String.prefix sub (s +:+ t) = true.
Proof.
  revert s. induction sub as [|a sub IH]; intros s H; [by destruct (s +:+ t)|].
  destruct s as [|b s]; [discriminate|]. rewrite append_String. simpl in *.
  destruct (Ascii.ascii_dec a b); [by apply IH|discriminate].
Qed.

Lemma includes_append_l (sub s t : string) :
  JS.includes sub s = true -> JS.includes sub (s +:+ t) = true.
Proof.
  induction s as [|c s IH].
  - simpl. rewrite orb_false_r. intros H. destruct sub; [|discriminate].
    by destruct t.
  - rewrite append_String, !includes_cons. intros H.
    apply orb_true_iff in H as [H|H].
    + apply (prefix_append _ _ t) in H. rewrite append_String in H.
      by rewrite H.
    + rewrite (IH H). apply orb_true_r.
Qed.

(** Where a token [u sp v] with one white space can start inside a word
    that is followed by white space: only where [u] is the rest of the
    word. *)
Lemma prefix_first_space (u v t rest : string) (sp c : ascii) :
  noSpace u -> noSpace t -> JS.isSpace sp = true -> JS.isSpace c = true ->
  String.prefix (u +:+ String sp v) (t +:+ String c rest) = true ->
  u = t /\ sp = c /\ String.prefix v rest = true.
Proof.
  intros Hu Ht Hsp Hc. revert t Ht.
  induction u as [|a u IH]; intros t Ht H.
  - rewrite append_empty_l in H. destruct t as [|b t].
    + rewrite append_empty_l in H. simpl in H.
      destruct (Ascii.ascii_dec sp c) as [->|]; [done|discriminate].
    + rewrite append_String in H. simpl in H. destruct Ht as [Hb _].
      destruct (Ascii.ascii_dec sp b) as [->|]; [congruence|discriminate].
  - destruct Hu as [Ha Hu]. rewrite append_String in H. destruct t as [|b t].
    + rewrite append_empty_l in H. simpl in H.
      destruct (Ascii.ascii_dec a c) as [->|]; [congruence|discriminate].
    + rewrite append_String in H. simpl in H. destruct Ht as [_ Ht].
      destruct (Ascii.ascii_dec a b) as [->|]; [|discriminate].
      destruct (IH Hu t Ht H) as (-> & ? & ?). done.
Qed.

(** Searching such a token skips a word unless [u] ends the word and [v]
    follows it. *)
Lemma includes_skip_word (u v t rest : string) (sp c : ascii) :
  noSpace u -> noSpace t -> JS.isSpace sp = true -> JS.isSpace c = true ->
  (forall t1, t = t1 +:+ u -> String.prefix v rest = false) ->
  JS.includes (u +:+ String sp v) (t +:+ String c rest)
  = JS.includes (u +:+ String sp v) (String c rest).
Proof.
  intros Hu Ht Hsp Hc Hv. induction t as [|b t IH]; [reflexivity|].
  rewrite append_String, includes_cons.
  destruct (String.prefix _ (String b _)) eqn:E.
  - rewrite <- append_String in E.
    destruct (prefix_first_space _ _ _ _ _ _ Hu Ht Hsp Hc E) as (-> & _ & E').
    rewrite (Hv "" eq_refl) in E'. discriminate.
  - destruct Ht as [_ Ht]. apply IH; [exact Ht|].
    intros t1 ->. by apply (Hv (String b t1)).
Qed.

Lemma rev_app_rev_app (s a b : string) :
  String.rev_app (String.rev_app s a) b = String.rev_app a (s +:+ b).
Proof.
  revert a. induction s as [|c s IH]; intros a; [reflexivity|].
  simpl. by rewrite IH.
Qed.

Lemma rev_app_append (s t a : string) :
  String.rev_app (s +:+ t) a = String.rev_app t (String.rev_app s a).
Proof.
  revert a. induction s as [|c s IH]; intros a; [reflexivity|].
  rewrite append_String. simpl. by rewrite IH.
Qed.

Lemma rev_app_acc (s a : string) :
  String.rev_app s a = String.rev s +:+ a.
Proof.
  unfold String.rev. revert a. induction s as [|c s IH]; intros a; [reflexivity|].
  simpl. rewrite (IH (String c a)), (IH (String c "")).
  by rewrite append_assoc.
Qed.

Lemma rev_involutive (s : string) : String.rev (String.rev s) = s.
Proof.
  unfold String.rev. rewrite rev_app_rev_app. simpl. apply append_empty_r.
Qed.

Lemma rev_append (s t : string) :
  String.rev (s +:+ t) = String.rev t +:+ String.rev s.
Proof.
  unfold String.rev at 1. rewrite rev_app_append. apply rev_app_acc.
Qed.

Lemma trimStart_append_l (s t : string) :
  JS.trimStart s <> "" -> JS.trimStart (s +:+ t) = JS.trimStart s +:+ t.
Proof.
  induction s as [|c s IH]; intros H; [done|].
  rewrite append_String. simpl in *. destruct (JS.isSpace c); [by apply IH|].
  reflexivity.
Qed.

(** [trimEnd] leaves alone what is in front of the last word. *)
Lemma trimEnd_append (s t : string) :
  JS.trimEnd t <> "" -> JS.trimEnd (s +:+ t) = s +:+ JS.trimEnd t.
Proof.
  intros H. unfold JS.trimEnd in *.
  rewrite rev_append, trimStart_append_l, rev_append, rev_involutive; [done|].
  intros E. by rewrite E in H.
Qed.

Lemma trimStart_noSpace (t : string) : noSpace t -> JS.trimStart t = t.
Proof. destruct t as [|c t]; [done|]. intros [Hc _]. simpl. by rewrite Hc. Qed.

Lemma noSpace_append (s t : string) : noSpace s -> noSpace t -> noSpace (s +:+ t).
Proof.
  induction s as [|c s IH]; intros Hs Ht; [exact Ht|].
  destruct Hs as [Hc Hs]. rewrite append_String. split; [exact Hc|]. by apply IH.
Qed.

Lemma noSpace_rev (t : string) : noSpace t -> noSpace (String.rev t).
Proof.
  induction t as [|c t IH]; intros H; [exact I|]. destruct H as [Hc Ht].
  change (String c t) with (String c "" +:+ t). rewrite rev_append.
  apply noSpace_append; [by apply IH|]. by split.
Qed.

Lemma trimEnd_noSpace (t : string) : noSpace t -> JS.trimEnd t = t.
Proof.
  intros H. unfold JS.trimEnd.
  rewrite trimStart_noSpace by by apply noSpace_rev. apply rev_involutive.
Qed.

Lemma append_nonempty (s t : string) : t <> "" -> s +:+ t <> "".
Proof. destruct s; [done|]. by rewrite append_String. Qed.

(** [split] on a text that holds no occurrence of the separator. *)
Lemma split_go_noSpace (sep t cur : string) :
  noSpace t -> ~ noSpace sep ->
  JS.split_go sep t 0 cur = [String.rev cur +:+ t].
Proof.
  intros Ht Hsep. revert cur. induction t as [|c t IH]; intros cur.
  - simpl. by rewrite append_empty_r.
  - change (JS.split_go sep (String c t) 0 cur)
      with (if String.prefix sep (String c t)
            then String.rev cur :: JS.split_go sep t (String.length sep - 1) ""
            else JS.split_go sep t 0 (String c cur)).
    destruct (String.prefix sep (String c t)) eqn:E.
    { destruct Hsep. by apply (prefix_noSpace _ _ E). }
    destruct Ht as [_ Ht]. rewrite (IH Ht). f_equal.
    change (String.rev (String c cur)) with (String.rev_app cur (String c "")).
    by rewrite rev_app_acc, append_assoc.
Qed.

Lemma prefix_spec (sub s : string) :
  String.prefix sub s = true <-> exists post, s = sub +:+ post.
Proof.
  revert s. induction sub as [|a sub IH]; intros s.
  - split; [intros _; by exists s|intros _; by destruct s].
  - destruct s as [|b s].
    + split; [discriminate|]. by intros (post & ?).
    + simpl. destruct (Ascii.ascii_dec a b) as [->|Hne].
      * rewrite IH. split; intros (post & H); exists post.
        -- by rewrite append_String, H.
        -- rewrite append_String in H. by injection H.
      * split; [discriminate|]. intros (post & H).
        rewrite append_String in H. by injection H.
Qed.

(** [s.includes(sub)] holds exactly when [sub] occurs in [s]. *)
Lemma includes_spec (sub s : string) :
  JS.includes sub s = true <-> exists pre post, s = pre +:+ sub +:+ post.
Proof.
  induction s as [|c s IH].
  - change (JS.includes sub "") with (String.prefix sub "" || false).
    rewrite orb_false_r, prefix_spec. split.
    + intros (post & H). by exists "", post.
    + intros (pre & post & H). destruct pre; [by exists post|].
      by rewrite append_String in H.
  - change (JS.includes sub (String c s))
      with (String.prefix sub (String c s) || JS.includes sub s).
    rewrite orb_true_iff, prefix_spec, IH. split.
    + intros [(post & H)|(pre & post & H)].
      * by exists "", post.
      * exists (String c pre), post. by rewrite append_String, H.
    + intros (pre & post & H). destruct pre as [|a pre].
      * left. by exists post.
      * right. exists pre, post. rewrite append_String in H. by injection H.
Qed.

Lemma includes_rev (sub s : string) :
  JS.includes (String.rev sub) (String.rev s) = JS.includes sub s.
Proof.
  assert (Hdir : forall sub s,
            JS.includes sub s = true ->
            JS.includes (String.rev sub) (String.rev s) = true).
  { intros u t. rewrite !includes_spec. intros (pre & post & ->).
    exists (String.rev post), (String.rev pre).
    by rewrite !rev_append, append_assoc. }
  destruct (JS.includes sub s) eqn:E; [by apply Hdir|].
  destruct (JS.includes (String.rev sub) (String.rev s)) eqn:E'; [|reflexivity].
  apply Hdir in E'. rewrite !rev_involutive in E'. congruence.
Qed.

Lemma includes_trimStart (sub s r : string) (a : ascii) :
  sub = String a r -> JS.isSpace a = false ->
  JS.includes sub (JS.trimStart s) = JS.includes sub s.
Proof.
  intros -> Ha. induction s as [|c s IH]; [reflexivity|].
  simpl JS.trimStart. destruct (JS.isSpace c) eqn:Hc; [|reflexivity].
  rewrite IH. simpl. destruct (Ascii.ascii_dec a c) as [->|]; [congruence|].
  reflexivity.
Qed.

(** White space around a text does not change whether it contains a token
    that begins and ends with a character other than white space. *)
Lemma includes_trim (sub s r r' : string) (a b : ascii) :
  sub = String a r -> JS.isSpace a = false ->
  String.rev sub = String b r' -> JS.isSpace b = false ->
  JS.includes sub (JS.trim s) = JS.includes sub s.
Proof.
  intros Hsub Ha Hrev Hb. unfold JS.trim, JS.trimEnd.
  rewrite <- includes_rev, rev_involutive.
  rewrite (includes_trimStart _ _ _ _ Hrev Hb), includes_rev.
  by apply (includes_trimStart _ _ r a).
Qed.

Lemma matchExec_eq (s : string) :
  JS.matchExec s =
  match JS.litSpacesWordAt "exec -it" s with
  | Some w => Some w
  | None => match s with String _ s' => JS.matchExec s' | "" => None end
  end.
Proof. destruct s; reflexivity. Qed.

Lemma litSpacesWordAt_word (lit w post : string) (c : ascii) :
  JS.isSpace c = true -> w <> "" -> noSpace w -> wordEnds post ->
  JS.litSpacesWordAt lit (lit +:+ String c (w +:+ post)) = Some w.
Proof.
  intros Hc Hne Hw Hpost. unfold JS.litSpacesWordAt.
  rewrite dropPrefix_append, Hc.
  destruct w as [|a w]; [done|].
  assert (JS.trimStart (String a w +:+ post) = String a w +:+ post) as ->.
  { rewrite append_String. simpl. by destruct Hw as [-> _]. }
  by rewrite (nonSpaceRun_append _ _ Hw Hpost).
Qed.

Lemma includes_skip_space (u v rest : string) (sp c : ascii) :
  noSpace u -> u <> "" -> JS.isSpace c = true ->
  JS.includes (u +:+ String sp v) (String c rest)
  = JS.includes (u +:+ String sp v) rest.
Proof.
  intros Hu Hne Hc. destruct u as [|a u]; [done|]. destruct Hu as [Ha _].
  rewrite includes_cons, append_String. simpl.
  destruct (Ascii.ascii_dec a c) as [->|]; [congruence|reflexivity].
Qed.

(** One step of the search over a text made of words: the token
    [u sp v] does not start inside a word [t] that is followed by white
    space and by a text at which [v] does not start. *)
Lemma includes_next_word_r (u v t rest : string) (sp c : ascii) :
  noSpace u -> u <> "" -> noSpace t ->
  JS.isSpace sp = true -> JS.isSpace c = true ->
  String.prefix v rest = false ->
  JS.includes (u +:+ String sp v) (t +:+ String c rest)
  = JS.includes (u +:+ String sp v) rest.
Proof.
  intros. rewrite includes_skip_word by done. by apply includes_skip_space.
Qed.

(** The same when the word [t] does not end with [u]. *)
Lemma includes_next_word_l (u v t rest : string) (sp c : ascii) :
  noSpace u -> u <> "" -> noSpace t ->
  JS.isSpace sp = true -> JS.isSpace c = true ->
  String.prefix (String.rev u) (String.rev t) = false ->
  JS.includes (u +:+ String sp v) (t +:+ String c rest)
  = JS.includes (u +:+ String sp v) rest.
Proof.
  intros Hu Hne Ht Hsp Hc H. rewrite includes_skip_word; try assumption.
  - by apply includes_skip_space.
  - intros t1 ->. rewrite rev_append in H.
    assert (String.prefix (String.rev u) (String.rev u +:+ String.rev t1) = true)
      by (apply prefix_spec; by eexists).
    congruence.
Qed.

Lemma hasSpace (u v : string) (sp : ascii) :
  JS.isSpace sp = true -> ~ noSpace (u +:+ String sp v).
Proof.
  intros Hsp. induction u as [|a u IH]; [intros [H _]; simpl in *; congruence|].
  rewrite append_String. intros [_ H]. by apply IH.
Qed.

Lemma includes_last_word (u v t : string) (sp : ascii) :
  noSpace t -> JS.isSpace sp = true ->
  JS.includes (u +:+ String sp v) t = false.
Proof.
  intros Ht Hsp. apply includes_noSpace; [exact Ht|]. by apply hasSpace.
Qed.

Lemma includes_here (sub pre post : string) :
  JS.includes sub (pre +:+ sub +:+ post) = true.
Proof. apply includes_spec. by exists pre, post. Qed.

Ltac word_side :=
  first [ assumption | discriminate | reflexivity | by repeat split ].

Ltac next_word :=
  first [ rewrite includes_next_word_r by word_side
        | rewrite includes_next_word_l by word_side ].

Lemma tokens_logs (name ns : string) :
  noSpace name -> noSpace ns ->
  let cmd := "kubectl logs " +:+ name +:+ " -n " +:+ ns in
  JS.includes "exec -it" cmd = false
  /\ JS.includes "get pods" cmd = false
  /\ JS.includes "describe pod" cmd = false
  /\ JS.includes "logs" cmd = true.
Proof.
  intros Hname Hns cmd.
  assert (Hcmd : cmd = "kubectl" +:+ String " " ("logs" +:+ String " "
                   (name +:+ String " " ("-n" +:+ String " " ns))))
    by reflexivity.
  split; [|split; [|split]].
  - rewrite Hcmd. change "exec -it" with ("exec" +:+ String " " "-it").
    do 4 next_word. by apply includes_last_word.
  - rewrite Hcmd. change "get pods" with ("get" +:+ String " " "pods").
    do 4 next_word. by apply includes_last_word.
  - rewrite Hcmd. change "describe pod" with ("describe" +:+ String " " "pod").
    do 4 next_word. by apply includes_last_word.
  - apply (includes_here "logs" "kubectl ").
Qed.

(** ** Pod actions and the commands they build *)

Lemma trimEnd_keep (s t : string) :
  JS.trimEnd t = t -> t <> "" ->
  JS.trimEnd (s +:+ t) = s +:+ t /\ s +:+ t <> "".
Proof.
  intros E Hne. split; [|by apply append_nonempty].
  rewrite trimEnd_append; by rewrite E.
Qed.

Lemma trim_exec_command (name ns : string) :
  JS.trim ("kubectl exec -it " +:+ name +:+ " -n " +:+ ns +:+ " -- /bin/sh")
  = "kubectl exec -it " +:+ name +:+ " -n " +:+ ns +:+ " -- /bin/sh".
Proof.
  unfold JS.trim.
  change (JS.trimStart ("kubectl exec -it " +:+ ?x)) with ("kubectl exec -it " +:+ x).
  assert (H0 : JS.trimEnd " -- /bin/sh" = " -- /bin/sh" /\ " -- /bin/sh" <> "")
    by (split; [reflexivity|discriminate]).
  destruct H0 as [E0 N0].
  destruct (trimEnd_keep ns _ E0 N0) as [E1 N1].
  destruct (trimEnd_keep " -n " _ E1 N1) as [E2 N2].
  destruct (trimEnd_keep name _ E2 N2) as [E3 N3].
  by destruct (trimEnd_keep "kubectl exec -it " _ E3 N3) as [E4 _].
Qed.

(** The command of the exec action reaches the shell rule, which reads the
    pod name back. *)
Lemma executeCommand_exec_pod (this : KubernetesSimulator) (name ns : string)
    (w : World) :
  name <> "" -> noSpace name ->
  executeCommand this
    ("kubectl exec -it " +:+ name +:+ " -n " +:+ ns +:+ " -- /bin/sh") w
  = Some (shellTranscript name, w).
Proof.
  intros Hne Hname. unfold executeCommand. rewrite trim_exec_command.
  assert (JS.includes "exec -it"
            ("kubectl exec -it " +:+ name +:+ " -n " +:+ ns +:+ " -- /bin/sh")
          = true) as ->
    by exact (includes_here "exec -it" "kubectl "
                (String " " (name +:+ " -n " +:+ ns +:+ " -- /bin/sh"))).
  assert (JS.matchExec ("kubectl exec -it " +:+ name +:+ " -n " +:+ ns
                          +:+ " -- /bin/sh") = Some name) as ->;
    [|by destruct name].
  pose proof (litSpacesWordAt_word "exec -it" name
                (" -n " +:+ ns +:+ " -- /bin/sh") " " eq_refl Hne Hname eq_refl)
    as E.
  rewrite !append_String, append_empty_l.
  do 8 (rewrite matchExec_eq;
        match goal with |- context [JS.litSpacesWordAt ?l ?s] =>
          change (JS.litSpacesWordAt l s) with (@None string) end;
        cbv beta iota).
  rewrite matchExec_eq.
  match goal with |- context [JS.litSpacesWordAt ?l ?s] =>
    replace (JS.litSpacesWordAt l s) with (Some name) by (symmetry; exact E) end.
  reflexivity.
Qed.

(** The command of the logs action reaches the logs rule. *)
Lemma executeCommand_logs_pod (this : KubernetesSimulator) (name ns : string)
    (w : World) :
  noSpace name -> noSpace ns ->
  executeCommand this ("kubectl logs " +:+ name +:+ " -n " +:+ ns) w
  = Some (logLines (clock (reads w)) (clock (S (reads w)))
            (clock (S (S (reads w)))),
          mkWorld (heap w) (draws w) (S (S (S (reads w))))).
Proof.
  intros Hname Hns. destruct (tokens_logs name ns Hname Hns) as (E1 & E2 & E3 & E4).
  unfold executeCommand.
  rewrite (includes_trim "exec -it" _ _ _ _ _ eq_refl eq_refl eq_refl eq_refl), E1.
  rewrite (includes_trim "get pods" _ _ _ _ _ eq_refl eq_refl eq_refl eq_refl), E2.
  rewrite (includes_trim "describe pod" _ _ _ _ _ eq_refl eq_refl eq_refl eq_refl), E3.
  rewrite (includes_trim "logs" _ _ _ _ _ eq_refl eq_refl eq_refl eq_refl), E4.
  reflexivity.
Qed.

(** Every command leaves the heap and the random source alone. *)
Lemma executeCommand_frame (this : KubernetesSimulator) (command : string)
    (w w' : World) (out : string) :
  executeCommand this command w = Some (out, w') ->
  heap w' = heap w /\ draws w' = draws w.
Proof.
  unfold executeCommand.
  destruct (JS.includes "exec -it" (JS.trim command)).
  { by intros [= _ <-]. }
  destruct (JS.includes "get pods" (JS.trim command)).
  { rewrite bind_eq. unfold deref. destruct (heap w !! state this); [|discriminate].
    match goal with |- context [if ?b then _ else _] => destruct b end;
      by intros [= _ <-]. }
  destruct (JS.includes "describe pod" (JS.trim command)).
  { rewrite bind_eq. unfold deref. destruct (heap w !! state this); [|discriminate].
    match goal with |- context [List.find ?f ?l] => destruct (List.find f l) end;
      by intros [= _ <-]. }
  destruct (JS.includes "logs" (JS.trim command)).
  { by intros [= _ <-]. }
  destruct (JS.includes "tcpdump" (JS.trim command)); by intros [= _ <-].
Qed.

Lemma includes_transcript (podName : string) :
  JS.includes "command terminated" (shellTranscript podName) = true.
Proof.
  unfold shellTranscript, JS.join. cbn [String.concat].
  do 4 apply includes_append_r. reflexivity.
Qed.

(** A terminal message that carries a shell transcript does not light the
    badge. *)
Lemma isShellActive_transcript (msgs : list Message.t) (command podName : string)
    (now : Z) :
  isShellActive (msgs ++ [terminalMessage command (shellTranscript podName) now])
  = false.
Proof.
  unfold isShellActive. rewrite last_snoc. cbn [Message.content terminalMessage].
  rewrite (includes_append_r _ "$ " _
             (includes_append_r _ command _
                (includes_append_r _ JS.nl _ (includes_transcript podName)))).
  apply andb_false_r.
Qed.

Lemma terminalViewMessages_snoc (app : App) (msgs : list Message.t)
    (command out : string) (now : Z) :
  messages app = msgs ++ [terminalMessage command out now] ->
  exists msgs',
    terminalViewMessages app = msgs' ++ [terminalMessage command out now].
Proof.
  intros E. unfold terminalViewMessages. rewrite E, List.filter_app.
  by eexists.
Qed.

(** X10. The exec action on a pod whose name is not empty and has no white
    space: the shell rule reads the pod name back from the command, so the
    terminal shows the transcript "Successfully connected to pod/{name}";
    one agent message and one terminal message are appended and the tab
    switches to the terminal.  The cluster is not ticked (heap and random
    source are untouched, the clock is read twice), and since the
    transcript ends with "command terminated" the Active Shell badge of the
    terminal view stays off. *)
Theorem handlePodAction_exec (pod : Pod.t) (app : App) (view : View) (w : World) :
  Pod.name pod <> "" -> noSpace (Pod.name pod) ->
  exists app',
    handlePodAction "exec" pod app view w
    = Some ((app', mkView (contexts view) (activeContext view)
                          (showContextSelector view) terminal),
            mkWorld (heap w) (draws w) (S (S (reads w))))
    /\ messages app'
       = messages app ++ [
           Message.mk Message.agent
             ("Initializing interactive shell in " +:+ Pod.name pod +:+ " on "
                +:+ activeContext view +:+ "...") (clock (reads w));
           terminalMessage
             ("kubectl exec -it " +:+ Pod.name pod +:+ " -n "
                +:+ Pod.namespace pod +:+ " -- /bin/sh")
             (shellTranscript (Pod.name pod)) (clock (S (reads w))) ]
    /\ simulator app' = simulator app /\ clusterState app' = clusterState app
    /\ alerts app' = alerts app /\ activeToast app' = activeToast app
    /\ lastStateRef app' = lastStateRef app
    /\ isShellActive (terminalViewMessages app') = false.
Proof.
  intros Hne Hname. eexists. split.
  - unfold handlePodAction. rewrite bind_eq.
    change (String.eqb "exec" "logs") with false.
    change (String.eqb "exec" "exec") with true. cbv iota.
    rewrite bind_eq, (executeCommand_exec_pod _ _ _ _ Hne Hname).
    reflexivity.
  - cbn [messages simulator clusterState alerts activeToast lastStateRef].
    repeat (split; [reflexivity|]).
    unfold terminalViewMessages. cbn [messages].
    rewrite List.filter_app. cbn [List.filter Message.role terminalMessage].
    apply isShellActive_transcript.
Qed.

(** X11. The logs action on a pod whose name and namespace have no white
    space reaches the logs rule: the terminal shows the three log lines,
    stamped with three consecutive clock readings; one agent message and
    one terminal message are appended, the tab switches to the terminal
    and the cluster is not ticked. *)
Theorem handlePodAction_logs (pod : Pod.t) (app : App) (view : View) (w : World) :
  noSpace (Pod.name pod) -> noSpace (Pod.namespace pod) ->
  exists app',
    handlePodAction "logs" pod app view w
    = Some ((app', mkView (contexts view) (activeContext view)
                          (showContextSelector view) terminal),
            mkWorld (heap w) (draws w) (5 + reads w))
    /\ messages app'
       = messages app ++ [
           Message.mk Message.agent
             ("Opening logs for " +:+ Pod.name pod +:+ " in "
                +:+ activeContext view +:+ "...") (clock (3 + reads w));
           terminalMessage
             ("kubectl logs " +:+ Pod.name pod +:+ " -n " +:+ Pod.namespace pod)
             (logLines (clock (reads w)) (clock (1 + reads w))
                (clock (2 + reads w)))
             (clock (4 + reads w)) ]
    /\ simulator app' = simulator app /\ clusterState app' = clusterState app
    /\ alerts app' = alerts app /\ activeToast app' = activeToast app
    /\ lastStateRef app' = lastStateRef app.
Proof.
  intros Hname Hns. eexists. split.
  - unfold handlePodAction. rewrite bind_eq.
    change (String.eqb "logs" "logs") with true. cbv iota.
    rewrite bind_eq, (executeCommand_logs_pod _ _ _ _ Hname Hns).
    reflexivity.
  - cbn [messages simulator clusterState alerts activeToast lastStateRef].
    repeat (split; [reflexivity|]). reflexivity.
Qed.

(** X12. No pod action advances the simulation: whatever the action and
    the pod, [handlePodAction] returns, the heap (hence every cluster state
    object) and the random source are as before, only messages are
    appended, and the tab is the terminal.  An action other than "logs"
    and "exec" changes nothing but the tab. *)
Theorem handlePodAction_no_tick (action : string) (pod : Pod.t) (app : App)
    (view : View) (w : World) (st : ClusterState.t) :
  heap w !! state (simulator app) = Some st ->
  exists app' w' new,
    handlePodAction action pod app view w
    = Some ((app', mkView (contexts view) (activeContext view)
                          (showContextSelector view) terminal), w')
    /\ heap w' = heap w /\ draws w' = draws w
    /\ messages app' = messages app ++ new
    /\ simulator app' = simulator app /\ clusterState app' = clusterState app
    /\ alerts app' = alerts app /\ activeToast app' = activeToast app
    /\ lastStateRef app' = lastStateRef app
    /\ (action <> "logs" -> action <> "exec" -> app' = app /\ w' = w).
Proof.
  intros Hst. unfold handlePodAction. rewrite bind_eq.
  destruct (String.eqb_spec action "logs") as [->|Hl].
  { destruct (executeCommand_spec (simulator app)
                ("kubectl logs " +:+ Pod.name pod +:+ " -n " +:+ Pod.namespace pod)
                w st Hst) as (out & w1 & E & H).
    destruct (executeCommand_frame _ _ _ _ _ E) as [_ Hd].
    rewrite bind_eq, E. eexists _, _, _. split; [reflexivity|].
    cbn [heap draws messages simulator clusterState alerts activeToast lastStateRef].
    repeat (split; [done|]). done. }
  destruct (String.eqb_spec action "exec") as [->|He].
  { destruct (executeCommand_spec (simulator app)
                ("kubectl exec -it " +:+ Pod.name pod +:+ " -n "
                   +:+ Pod.namespace pod +:+ " -- /bin/sh")
                w st Hst) as (out & w1 & E & H).
    destruct (executeCommand_frame _ _ _ _ _ E) as [_ Hd].
    rewrite bind_eq, E. eexists _, _, _. split; [reflexivity|].
    cbn [heap draws messages simulator clusterState alerts activeToast lastStateRef].
    repeat (split; [done|]). done. }
  exists app, w, []. split; [reflexivity|]. rewrite app_nil_r.
  repeat (split; [done|]). done.
Qed.

Lemma handleTerminalCommand_messages (command : string) (app : App) (w w1 : World)
    (st : ClusterState.t) (out : string) :
  JS.trim command <> "" ->
  heap w !! state (simulator app) = Some st ->
  executeCommand (simulator app) command w = Some (out, w1) ->
  exists app' w',
    handleTerminalCommand command app w = Some (app', w')
    /\ messages app'
       = messages app ++ [terminalMessage command out (clock (reads w1))].
Proof.
  intros Hnb Hst E1.
  pose proof (executeCommand_heap _ _ _ _ _ E1) as H1.
  set (w1' := mkWorld (heap w1) (draws w1) (S (reads w1))).
  assert (Hst1 : heap w1' !! state (simulator app) = Some st)
    by (cbn [heap w1']; by rewrite H1).
  destruct (getState_spec (simulator app) w1' st Hst1) as (pods' & w2 & E2 & H2 & HF).
  assert (Hst2 : heap w2 !! state (simulator app)
                 = Some (ClusterState.mk pods' (ClusterState.namespaces st)))
    by (by rewrite H2, lookup_insert_eq).
  eexists _, _.
  unfold handleTerminalCommand. rewrite bool_decide_eq_false_2 by exact Hnb.
  rewrite bind_eq, E1, bind_eq. unfold Date_new at 1. fold w1'.
  rewrite bind_eq, E2, bind_eq, (deref_eq _ _ _ Hst2), bind_eq. unfold alloc.
  split; reflexivity.
Qed.

Lemma includes_nonempty (sub s : string) :
  sub <> "" -> JS.includes sub s = true -> s <> "".
Proof. intros Hne H ->. destruct sub; [done|discriminate]. Qed.

(** X13. The Active Shell badge of the terminal view never lights up after
    a shell command.  For every command that contains "exec -it", typed
    into the terminal: the handler appends the terminal message
    "$ {command}\n{transcript}"; that message, the last one the terminal
    view is given, contains "exec -it" and also "command terminated", so
    [isShellActive] is false. *)
Theorem shell_badge_stays_off (command : string) (app : App) (w : World)
    (st : ClusterState.t) :
  JS.includes "exec -it" (JS.trim command) = true ->
  heap w !! state (simulator app) = Some st ->
  exists app' w' m,
    handleTerminalCommand command app w = Some (app', w')
    /\ last (terminalViewMessages app') = Some m
    /\ last (messages app') = Some m
    /\ JS.includes "exec -it" (Message.content m) = true
    /\ JS.includes "command terminated" (Message.content m) = true
    /\ isShellActive (terminalViewMessages app') = false.
Proof.
  intros Hex Hst.
  assert (E1 : executeCommand (simulator app) command w
               = Some (shellTranscript
                         (JS.show (JS.orElse (JS.matchExec (JS.trim command))
                                             (Some "pod"))), w))
    by (unfold executeCommand; by rewrite Hex).
  assert (Hnb : JS.trim command <> "")
    by (by apply (includes_nonempty "exec -it")).
  destruct (handleTerminalCommand_messages _ app _ _ _ _ Hnb Hst E1)
    as (app' & w' & E & Hm).
  destruct (terminalViewMessages_snoc _ _ _ _ _ Hm) as (msgs' & Hv).
  exists app', w'. eexists. split; [exact E|].
  rewrite Hv, Hm, !last_snoc. split; [reflexivity|]. split; [reflexivity|].
  cbn [Message.content terminalMessage]. split; [|split].
  - apply includes_append_r, includes_append_l.
    by rewrite <- (includes_trim "exec -it" command _ _ _ _
                     eq_refl eq_refl eq_refl eq_refl).
  - do 3 apply includes_append_r. apply includes_transcript.
  - apply isShellActive_transcript.
Qed.

(** ** Describing a pod *)

Lemma find_name (name : string) (pods : list Pod.t) :
  List.find (fun p => bool_decide (Some (Pod.name p) = Some name)) pods
  = List.find (fun p => String.eqb (Pod.name p) name) pods.
Proof.
  induction pods as [|p pods IH]; [reflexivity|]. simpl. rewrite IH.
  destruct (String.eqb_spec (Pod.name p) name) as [->|Hne].
  - by rewrite bool_decide_eq_true_2.
  - rewrite bool_decide_eq_false_2; [reflexivity|]. by intros [= ?].
Qed.

Lemma find_undefined (pods : list Pod.t) :
  List.find (fun p => bool_decide (Some (Pod.name p) = None)) pods = None.
Proof. induction pods as [|p pods IH]; [reflexivity|]. simpl. exact IH. Qed.

Lemma split_go_miss (sep s cur : string) (c : ascii) :
  String.prefix sep (String c s) = false ->
  JS.split_go sep (String c s) 0 cur = JS.split_go sep s 0 (String c cur).
Proof.
  intros H.
  change (JS.split_go sep (String c s) 0 cur)
    with (if String.prefix sep (String c s)
          then String.rev cur :: JS.split_go sep s (String.length sep - 1) ""
          else JS.split_go sep s 0 (String c cur)).
  by rewrite H.
Qed.

Lemma split_go_hit (sep s cur : string) (c : ascii) :
  String.prefix sep (String c s) = true ->
  JS.split_go sep (String c s) 0 cur
  = String.rev cur :: JS.split_go sep s (String.length sep - 1) "".
Proof.
  intros H.
  change (JS.split_go sep (String c s) 0 cur)
    with (if String.prefix sep (String c s)
          then String.rev cur :: JS.split_go sep s (String.length sep - 1) ""
          else JS.split_go sep s 0 (String c cur)).
  by rewrite H.
Qed.

Lemma split_go_skip (sep s cur : string) (c : ascii) (k : nat) :
  JS.split_go sep (String c s) (S k) cur = JS.split_go sep s k cur.
Proof. reflexivity. Qed.

Lemma split_describe (name : string) :
  noSpace name ->
  JS.split "describe pod " ("kubectl describe pod " +:+ name) !! 1%nat
  = Some name.
Proof.
  intros Hname. unfold JS.split. rewrite !append_String, append_empty_l.
  do 8 (rewrite split_go_miss by reflexivity).
  rewrite split_go_hit by (apply prefix_spec; by exists name).
  change (String.length "describe pod " - 1)%nat with 12%nat.
  do 12 rewrite split_go_skip.
  rewrite (split_go_noSpace "describe pod " name "" Hname); [reflexivity|].
  exact (hasSpace "describe" "pod " " " eq_refl).
Qed.

Lemma split_space (name : string) :
  noSpace name -> JS.split " " name = [name].
Proof.
  intros Hname. unfold JS.split.
  rewrite (split_go_noSpace " " name "" Hname); [reflexivity|].
  exact (hasSpace "" "" " " eq_refl).
Qed.

(** X14. "kubectl describe pod NAME", for a name that is not empty and has
    no white space, looks up exactly NAME: the answer describes the first
    pod of the store with that name (name, namespace, status, IP), or is
    the error line with the name in quotes when there is none.  Without a
    name the lookup key is undefined and the answer is always
    [Error: pod "undefined" not found]. *)
Theorem describe_pod (this : KubernetesSimulator) (name : string) (w : World)
    (st : ClusterState.t) :
  heap w !! state this = Some st ->
  name <> "" -> noSpace name ->
  executeCommand this ("kubectl describe pod " +:+ name) w
  = Some (match List.find (fun p => String.eqb (Pod.name p) name)
                          (ClusterState.pods st) with
          | Some pod =>
              "Name: " +:+ Pod.name pod +:+ JS.nl
                +:+ "Namespace: " +:+ Pod.namespace pod +:+ JS.nl
                +:+ "Status: " +:+ statusString (Pod.status pod) +:+ JS.nl
                +:+ "IP: " +:+ Pod.ip pod
          | None =>
              "Error: pod " +:+ JS.dquote +:+ name +:+ JS.dquote +:+ " not found"
          end, w)
  /\ executeCommand this "kubectl describe pod" w
     = Some ("Error: pod " +:+ JS.dquote +:+ "undefined" +:+ JS.dquote
               +:+ " not found", w).
Proof.
  intros Hst Hne Hname. split.
  - unfold executeCommand.
    assert (JS.trim ("kubectl describe pod " +:+ name)
            = "kubectl describe pod " +:+ name) as ->.
    { unfold JS.trim.
      change (JS.trimStart ("kubectl describe pod " +:+ name))
        with ("kubectl describe pod " +:+ name).
      by apply trimEnd_keep; [apply trimEnd_noSpace|]. }
    assert (Hcmd : "kubectl describe pod " +:+ name
                   = "kubectl" +:+ String " " ("describe" +:+ String " "
                       ("pod" +:+ String " " name))) by reflexivity.
    assert (JS.includes "exec -it" ("kubectl describe pod " +:+ name) = false) as ->.
    { rewrite Hcmd. change "exec -it" with ("exec" +:+ String " " "-it").
      do 3 next_word. by apply includes_last_word. }
    assert (JS.includes "get pods" ("kubectl describe pod " +:+ name) = false) as ->.
    { rewrite Hcmd. change "get pods" with ("get" +:+ String " " "pods").
      do 3 next_word. by apply includes_last_word. }
    assert (JS.includes "describe pod" ("kubectl describe pod " +:+ name) = true)
      as -> by exact (includes_here "describe pod" "kubectl " (String " " name)).
    rewrite (split_describe name Hname), (split_space name Hname).
    cbn [lookup list_lookup head].
    rewrite bind_eq, (deref_eq _ _ _ Hst), find_name.
    by destruct (List.find _ _).
  - unfold executeCommand.
    change (JS.trim "kubectl describe pod") with "kubectl describe pod".
    change (JS.includes "exec -it" "kubectl describe pod") with false.
    change (JS.includes "get pods" "kubectl describe pod") with false.
    change (JS.includes "describe pod" "kubectl describe pod") with true.
    change (JS.split "describe pod " "kubectl describe pod")
      with ["kubectl describe pod"].
    cbn [lookup list_lookup].
    by rewrite bind_eq, (deref_eq _ _ _ Hst), find_undefined.
Qed.

(** ** Listing the pods of a namespace of the seed cluster *)

Lemma matchNamespace_skip (c : ascii) (s : string) :
  JS.litSpacesWordAt "-n" (String c s) = None ->
  JS.litWordAt "--namespace=" (String c s) = None ->
  JS.matchNamespace (String c s) = JS.matchNamespace s.
Proof. intros H1 H2. by rewrite matchNamespace_eq, H1, H2. Qed.

Lemma matchNamespace_get_pods (ns : string) :
  ns <> "" -> noSpace ns ->
  JS.matchNamespace ("kubectl get pods -n " +:+ ns) = Some (Some ns, None).
Proof.
  intros Hne Hns.
  pose proof (litSpacesWordAt_word "-n" ns "" " " eq_refl Hne Hns I) as E.
  rewrite append_empty_r in E.
  rewrite !append_String, append_empty_l.
  do 17 (rewrite matchNamespace_skip by reflexivity).
  rewrite matchNamespace_eq.
  match goal with |- context [JS.litSpacesWordAt ?l ?s] =>
    replace (JS.litSpacesWordAt l s) with (Some ns) by (symmetry; exact E) end.
  reflexivity.
Qed.

Lemma includes_miss (sub s : string) (c : ascii) :
  String.prefix sub (String c s) = false ->
  JS.includes sub (String c s) = JS.includes sub s.
Proof. intros H. by rewrite includes_cons, H. Qed.

Lemma includes_all_get_pods (ns : string) :
  JS.includes "-A" ("kubectl get pods -n " +:+ ns) = JS.includes "-A" ns
  /\ JS.includes "--all-namespaces" ("kubectl get pods -n " +:+ ns)
     = JS.includes "--all-namespaces" ns.
Proof.
  rewrite !append_String, append_empty_l. split.
  - by do 20 (rewrite includes_miss by reflexivity).
  - by do 20 (rewrite includes_miss by reflexivity).
Qed.

Lemma tokens_get_pods (ns : string) :
  ns <> "" -> noSpace ns ->
  JS.trim ("kubectl get pods -n " +:+ ns) = "kubectl get pods -n " +:+ ns
  /\ JS.includes "exec -it" ("kubectl get pods -n " +:+ ns) = false
  /\ JS.includes "get pods" ("kubectl get pods -n " +:+ ns) = true.
Proof.
  intros Hne Hns. split; [|split].
  - unfold JS.trim.
    change (JS.trimStart ("kubectl get pods -n " +:+ ns))
      with ("kubectl get pods -n " +:+ ns).
    by apply trimEnd_keep; [apply trimEnd_noSpace|].
  - change ("kubectl get pods -n " +:+ ns)
      with ("kubectl" +:+ String " " ("get" +:+ String " "
              ("pods" +:+ String " " ("-n" +:+ String " " ns)))).
    change "exec -it" with ("exec" +:+ String " " "-it").
    do 4 next_word. by apply includes_last_word.
  - exact (includes_here "get pods" "kubectl " (" -n " +:+ ns)).
Qed.

(** The pods of a namespace, in a cluster with the seed placement. *)
Lemma filter_namespace_seed (pods : list Pod.t) (ns : string) :
  placement <$> pods = seedPlacement ->
  List.filter (fun p => String.eqb (Pod.namespace p) ns) pods
  = if String.eqb ns "default" then take 5 pods
    else if String.eqb ns "kube-system" then drop 5 pods
    else [].
Proof.
  intros H.
  assert (Hn : Pod.namespace <$> pods = (fun t => t.1.1.1) <$> seedPlacement)
    by (by rewrite <- H, <- list_fmap_compose).
  clear H. do 10 (destruct pods as [|? pods]; try discriminate).
  injection Hn as H0 H1 H2 H3 H4 H5 H6 H7 H8.
  cbn [List.filter take drop].
  rewrite H0, H1, H2, H3, H4, H5, H6, H7, H8.
  rewrite !(String.eqb_sym _ ns).
  destruct (String.eqb_spec ns "default") as [->|Hd]; [reflexivity|].
  by destruct (String.eqb_spec ns "kube-system") as [->|Hk].
Qed.

(** X15. Listing one namespace of the running cluster.  In every reachable
    world, for a namespace name that is not empty and has no white space,
    "kubectl get pods -n NS" prints the table of the five application pods
    for "default", of the four system pods for "kube-system", and the line
    "No resources found in NS namespace." for every other name, the
    declared namespaces production and monitoring included.  A name that
    contains "-A" or "--all-namespaces" is taken for the all-namespaces
    flag: the table then holds all nine pods. *)
Theorem get_pods_of_namespace (sim : KubernetesSimulator) (w : World)
    (ns : string) :
  reachable sim w -> ns <> "" -> noSpace ns ->
  exists st, heap w !! state sim = Some st
    /\ length (ClusterState.pods st) = 9%nat
    /\ executeCommand sim ("kubectl get pods -n " +:+ ns) w
       = Some (if JS.includes "-A" ns || JS.includes "--all-namespaces" ns
               then listing (ClusterState.pods st)
               else if String.eqb ns "default"
               then listing (take 5 (ClusterState.pods st))
               else if String.eqb ns "kube-system"
               then listing (drop 5 (ClusterState.pods st))
               else "No resources found in " +:+ ns +:+ " namespace.", w).
Proof.
  intros Hr Hne Hns.
  destruct (reachable_seed_inv sim w Hr) as (st & Hst & _ & (Hpl & _) & _).
  exists st. split; [exact Hst|].
  assert (Hlen : length (ClusterState.pods st) = 9%nat)
    by (by rewrite <- (length_fmap placement), Hpl).
  split; [exact Hlen|].
  destruct (tokens_get_pods ns Hne Hns) as (Etrim & Eexec & Eget).
  destruct (includes_all_get_pods ns) as (EA & Eall).
  unfold executeCommand.
  rewrite Etrim, Eexec, Eget, (matchNamespace_get_pods ns Hne Hns), EA, Eall.
  cbv zeta.
  assert (JS.orElse (Some ns) None = Some ns) as -> by (by destruct ns).
  rewrite bind_eq, (deref_eq _ _ _ Hst), filter_namespace.
  rewrite (filter_namespace_seed _ ns Hpl).
  destruct (ClusterState.pods st) as [|p0 [|p1 [|p2 [|p3 [|p4 [|p5 l]]]]]];
    try discriminate.
  destruct (JS.includes "-A" ns || JS.includes "--all-namespaces" ns);
    [reflexivity|].
  destruct (String.eqb ns "default"); [reflexivity|].
  destruct (String.eqb ns "kube-system"); [|reflexivity].
  destruct l as [|p6 l]; [discriminate|]. reflexivity.
Qed.

(** ** Contexts *)

(** X16. Adding a context keeps the list of contexts free of duplicates
    and the active context a member of it, and never drops a context.  A
    name that is new and not empty is appended, becomes the active
    context, closes the selector and is announced by one agent message; a
    cancelled dialog, an empty name and a name already in the list change
    nothing at all - in particular an existing name is not switched to.
    The cluster is not touched. *)
Theorem handleAddContext_spec (name : option string) (app : App) (view : View)
    (w : World) :
  NoDup (contexts view) -> activeContext view ∈ contexts view ->
  exists app' view' w',
    handleAddContext name app view w = Some ((app', view'), w')
    /\ NoDup (contexts view') /\ activeContext view' ∈ contexts view'
    /\ heap w' = heap w /\ draws w' = draws w
    /\ ((exists n, name = Some n /\ n <> "" /\ (n ∉ contexts view)
           /\ contexts view' = contexts view ++ [n]
           /\ activeContext view' = n
           /\ showContextSelector view' = false
           /\ activeTab view' = activeTab view
           /\ messages app'
              = messages app ++ [
                  Message.mk Message.agent
                    ("Switched context to " +:+ JS.dquote +:+ n +:+ JS.dquote
                       +:+ ". I am now monitoring this new environment.")
                    (clock (reads w)) ])
        \/ ((name = None \/ name = Some "" \/ exists n, name = Some n /\ n ∈ contexts view)
            /\ app' = app /\ view' = view /\ w' = w)).
Proof.
  intros Hnd Hact. unfold handleAddContext.
  destruct name as [[|c n]|].
  - exists app, view, w. repeat (split; [done|]). right. auto.
  - destruct (decide (String c n ∈ contexts view)) as [Hin|Hout].
    + rewrite bool_decide_eq_true_2 by exact Hin.
      exists app, view, w. repeat (split; [done|]). right.
      split; [|done]. right. right. by exists (String c n).
    + rewrite bool_decide_eq_false_2 by exact Hout. cbn [negb].
      eexists _, _, _. split; [reflexivity|].
      cbn [contexts activeContext showContextSelector activeTab heap draws messages].
      split; [|split; [|split; [|split]]]; try reflexivity.
      * apply NoDup_app. split; [exact Hnd|]. split; [|apply NoDup_singleton].
        intros x Hx Hx'. apply list_elem_of_singleton in Hx'. by subst.
      * apply elem_of_app. right. by apply list_elem_of_singleton.
      * left. exists (String c n). by repeat (split; [done|]).
  - exists app, view, w. repeat (split; [done|]). right. auto.
Qed.

(** ** The topology view *)

Lemma zoom_step (s : ClusterView.State) (e : ClusterView.Event) :
  (3 # 10 <= ClusterView.zoom s <= 2)%Q ->
  (3 # 10 <= ClusterView.zoom (ClusterView.handle s e) <= 2)%Q.
Proof.
  intros [Hlo Hhi].
  destruct e as [deltaY| | |m|ns]; cbn [ClusterView.handle].
  - unfold ClusterView.handleWheel. destruct (ClusterView.viewMode s); [|done].
    cbn [ClusterView.zoom]. unfold JS.max, JS.min. split.
    + apply Q.le_max_l.
    + apply Q.max_lub; [done|]. apply Q.le_min_l.
  - cbn [ClusterView.zoomOut ClusterView.zoom]. unfold JS.max. split.
    + apply Q.le_max_l.
    + apply Q.max_lub; [done|]. lra.
  - cbn [ClusterView.zoomIn ClusterView.zoom]. unfold JS.min. split.
    + apply Q.min_glb; [done|]. lra.
    + apply Q.le_min_l.
  - done.
  - done.
Qed.

(** X17. Whatever the user does with the wheel, the two zoom buttons, the
    mode switch and the namespace filter, the zoom level of the topology
    view stays between 0.3 and 2, and the percentage shown between the
    buttons between 30 and 200. *)
Theorem zoom_bounded (events : list ClusterView.Event) :
  let s := foldl ClusterView.handle ClusterView.initial events in
  (3 # 10 <= ClusterView.zoom s <= 2)%Q
  /\ (30 <= ClusterView.percent s <= 200)%Z.
Proof.
  cbv zeta.
  assert (H : (3 # 10 <= ClusterView.zoom
                 (foldl ClusterView.handle ClusterView.initial events) <= 2)%Q).
  { assert (H0 : (3 # 10 <= ClusterView.zoom ClusterView.initial <= 2)%Q)
      by (split; discriminate).
    revert H0. generalize ClusterView.initial.
    induction events as [|e events IH]; intros s Hs; [exact Hs|].
    cbn [foldl]. apply IH. by apply zoom_step. }
  split; [exact H|]. destruct H as [Hlo Hhi].
  unfold ClusterView.percent, JS.round. split.
  - change 30%Z with (Qfloor 30). apply Qfloor_resp_le. lra.
  - change 200%Z with (Qfloor (401 # 2)). apply Qfloor_resp_le. lra.
Qed.

Lemma foldl_add (l : list Pod.t) (acc : list string) :
  NoDup acc ->
  NoDup (foldl (fun nodeSet p => ClusterView.add nodeSet (Pod.node p)) acc l)
  /\ forall x,
       x ∈ foldl (fun nodeSet p => ClusterView.add nodeSet (Pod.node p)) acc l
       <-> x ∈ acc \/ exists p, p ∈ l /\ Pod.node p = x.
Proof.
  revert acc. induction l as [|p l IH]; intros acc Hacc.
  - split; [exact Hacc|]. intros x. split; [auto|].
    intros [H|(p & Hp & _)]; [exact H|]. by apply elem_of_nil in Hp.
  - cbn [foldl].
    assert (Hadd : NoDup (ClusterView.add acc (Pod.node p))
                   /\ forall x, x ∈ ClusterView.add acc (Pod.node p)
                                <-> x ∈ acc \/ x = Pod.node p).
    { unfold ClusterView.add. destruct (decide (Pod.node p ∈ acc)) as [Hin|Hout].
      - rewrite bool_decide_eq_true_2 by exact Hin. split; [exact Hacc|].
        intros x. split; [auto|]. by intros [H| ->].
      - rewrite bool_decide_eq_false_2 by exact Hout. split.
        + apply NoDup_app. split; [exact Hacc|]. split; [|apply NoDup_singleton].
          intros x Hx Hx'. apply list_elem_of_singleton in Hx'. by subst.
        + intros x. by rewrite elem_of_app, list_elem_of_singleton. }
    destruct Hadd as [Hnd Hin]. destruct (IH _ Hnd) as [IH1 IH2].
    split; [exact IH1|]. intros x. rewrite IH2, Hin. split.
    + intros [[H| ->]|(q & Hq & E)]; [by left| |].
      * right. exists p. split; [apply elem_of_cons; by left|reflexivity].
      * right. exists q. split; [apply elem_of_cons; by right|exact E].
    + intros [H|(q & Hq & E)]; [by left; left|].
      apply elem_of_cons in Hq as [->|Hq]; [left; right; by symmetry|].
      right. by exists q.
Qed.

(** X18. The node columns of the topology view: [nodes] lists exactly the
    nodes that host one of the filtered pods, each once, in ascending
    order of their names. *)
Theorem nodes_spec (filteredPods : list Pod.t) :
  StronglySorted String.le (ClusterView.nodes filteredPods)
  /\ NoDup (ClusterView.nodes filteredPods)
  /\ forall x, x ∈ ClusterView.nodes filteredPods
               <-> exists p, p ∈ filteredPods /\ Pod.node p = x.
Proof.
  unfold ClusterView.nodes. cbv zeta.
  destruct (foldl_add filteredPods [] (NoDup_nil_2)) as [Hnd Hin].
  split; [|split].
  - apply StronglySorted_merge_sort; apply _.
  - by rewrite merge_sort_Permutation.
  - intros x. rewrite merge_sort_Permutation, Hin. split.
    + intros [H|H]; [by apply elem_of_nil in H|exact H].
    + auto.
Qed.

Lemma nodes_of_names (l : list Pod.t) :
  ClusterView.nodes l
  = merge_sort String.le (foldl ClusterView.add [] (Pod.node <$> l)).
Proof.
  unfold ClusterView.nodes. cbv zeta. f_equal.
  generalize (@nil string). induction l as [|p l IH]; intros acc; [reflexivity|].
  cbn [foldl fmap list_fmap]. apply IH.
Qed.

(** X19. What the topology view shows of the running cluster, for each
    choice of the namespace filter: in every reachable world "all" gives
    the nine pods on the three nodes node-1, node-2, node-3, "default" the
    five application pods on the same three nodes, "kube-system" the four
    system pods on node-1 alone, and every other namespace - production and
    monitoring, which the filter offers, included - no pod and no node. *)
Theorem topology_by_namespace (sim : KubernetesSimulator) (w : World) :
  reachable sim w ->
  exists st, heap w !! state sim = Some st
    /\ ClusterView.filteredPods "all" (ClusterState.pods st) = ClusterState.pods st
    /\ length (ClusterState.pods st) = 9%nat
    /\ ClusterView.nodes (ClusterView.filteredPods "all" (ClusterState.pods st))
       = ["node-1"; "node-2"; "node-3"]
    /\ ClusterView.filteredPods "default" (ClusterState.pods st)
       = take 5 (ClusterState.pods st)
    /\ ClusterView.nodes (ClusterView.filteredPods "default" (ClusterState.pods st))
       = ["node-1"; "node-2"; "node-3"]
    /\ ClusterView.filteredPods "kube-system" (ClusterState.pods st)
       = drop 5 (ClusterState.pods st)
    /\ ClusterView.nodes (ClusterView.filteredPods "kube-system" (ClusterState.pods st))
       = ["node-1"]
    /\ forall ns, ns <> "all" -> ns <> "default" -> ns <> "kube-system" ->
         ClusterView.filteredPods ns (ClusterState.pods st) = []
         /\ ClusterView.nodes (ClusterView.filteredPods ns (ClusterState.pods st)) = [].
Proof.
  intros Hr.
  destruct (reachable_seed_inv sim w Hr) as (st & Hst & _ & (Hpl & _) & _).
  exists st. split; [exact Hst|].
  assert (Hnodes : Pod.node <$> ClusterState.pods st
                   = (fun t => t.1.2) <$> seedPlacement)
    by (by rewrite <- Hpl, <- list_fmap_compose).
  assert (Hlen : length (ClusterState.pods st) = 9%nat)
    by (by rewrite <- (length_fmap placement), Hpl).
  split; [reflexivity|]. split; [exact Hlen|].
  split; [|split; [|split; [|split; [|split]]]].
  - change (ClusterView.filteredPods "all" ?l) with l.
    by rewrite nodes_of_names, Hnodes.
  - unfold ClusterView.filteredPods. cbn [String.eqb Ascii.eqb Bool.eqb].
    by rewrite (filter_namespace_seed _ "default" Hpl).
  - unfold ClusterView.filteredPods. cbn [String.eqb Ascii.eqb Bool.eqb].
    rewrite (filter_namespace_seed _ "default" Hpl).
    change (String.eqb "default" "default") with true. cbv iota.
    by rewrite nodes_of_names, fmap_take, Hnodes.
  - unfold ClusterView.filteredPods. cbn [String.eqb Ascii.eqb Bool.eqb].
    by rewrite (filter_namespace_seed _ "kube-system" Hpl).
  - unfold ClusterView.filteredPods. cbn [String.eqb Ascii.eqb Bool.eqb].
    rewrite (filter_namespace_seed _ "kube-system" Hpl).
    change (String.eqb "kube-system" "default") with false.
    change (String.eqb "kube-system" "kube-system") with true. cbv iota.
    by rewrite nodes_of_names, fmap_drop, Hnodes.
  - intros ns Ha Hd Hk. unfold ClusterView.filteredPods.
    destruct (String.eqb_spec ns "all"); [done|].
    rewrite (filter_namespace_seed _ ns Hpl).
    destruct (String.eqb_spec ns "default"); [done|].
    destruct (String.eqb_spec ns "kube-system"); [done|]. done.
Qed.

(** ** The input line of the terminal *)

Lemma trimStart_idem (s : string) : JS.trimStart (JS.trimStart s) = JS.trimStart s.
Proof.
  induction s as [|c s IH]; [reflexivity|]. simpl.
  destruct (JS.isSpace c) eqn:E; [exact IH|]. simpl. by rewrite E.
Qed.

Lemma trimStart_head (s : string) :
  JS.trimStart s = ""
  \/ exists a r, JS.trimStart s = String a r /\ JS.isSpace a = false.
Proof.
  induction s as [|c s IH]; [by left|]. simpl.
  destruct (JS.isSpace c) eqn:E; [exact IH|]. right. by exists c, s.
Qed.

Lemma trimStart_snoc (x : string) (a : ascii) :
  JS.isSpace a = false ->
  exists z, JS.trimStart (x +:+ String a "") = z +:+ String a "".
Proof.
  intros Ha. induction x as [|c x IH].
  - exists "". simpl. by rewrite Ha.
  - rewrite append_String. simpl. destruct (JS.isSpace c); [exact IH|].
    by exists (String c x).
Qed.

Lemma trimEnd_head (a : ascii) (r : string) :
  JS.isSpace a = false -> exists r', JS.trimEnd (String a r) = String a r'.
Proof.
  intros Ha. unfold JS.trimEnd.
  change (String a r) with (String a "" +:+ r). rewrite rev_append.
  change (String.rev (String a "")) with (String a "").
  destruct (trimStart_snoc (String.rev r) a Ha) as (z & ->).
  rewrite rev_append. by exists (String.rev z).
Qed.

(** [trim] is idempotent. *)
Lemma trim_idem (s : string) : JS.trim (JS.trim s) = JS.trim s.
Proof.
  unfold JS.trim.
  assert (JS.trimStart (JS.trimEnd (JS.trimStart s)) = JS.trimEnd (JS.trimStart s))
    as ->.
  { destruct (trimStart_head s) as [->|(a & r & -> & Ha)]; [reflexivity|].
    destruct (trimEnd_head a r Ha) as (r' & ->). simpl. by rewrite Ha. }
  unfold JS.trimEnd. by rewrite rev_involutive, trimStart_idem.
Qed.

(** X20. Submitting the input line of the terminal.  A line that is blank
    does nothing and stays in the box.  Any other line is run without its
    surrounding white space: the command that is executed and shown after
    "$ " is the trimmed line, one terminal message is appended, and the
    box is cleared. *)
Theorem handleSubmit_trims (inputValue : string) (app : App) (w : World)
    (st : ClusterState.t) :
  heap w !! state (simulator app) = Some st ->
  exists app' box w',
    handleSubmit inputValue app w = Some ((app', box), w')
    /\ (JS.trim inputValue = "" -> app' = app /\ box = inputValue /\ w' = w)
    /\ (JS.trim inputValue <> "" ->
        box = ""
        /\ exists out w1,
             executeCommand (simulator app) (JS.trim inputValue) w = Some (out, w1)
             /\ messages app'
                = messages app
                  ++ [terminalMessage (JS.trim inputValue) out (clock (reads w1))]).
Proof.
  intros Hst. unfold handleSubmit.
  destruct (decide (JS.trim inputValue = "")) as [E|Hne].
  - rewrite bool_decide_eq_true_2 by exact E. exists app, inputValue, w.
    split; [reflexivity|]. split; [done|]. by intros [].
  - rewrite bool_decide_eq_false_2 by exact Hne. cbn [negb].
    destruct (executeCommand_spec (simulator app) (JS.trim inputValue) w st Hst)
      as (out & w1 & E1 & _).
    assert (Hne' : JS.trim (JS.trim inputValue) <> "") by (by rewrite trim_idem).
    destruct (handleTerminalCommand_messages _ app _ _ _ _ Hne' Hst E1)
      as (app' & w' & E & Hm).
    exists app', "", w'. rewrite bind_eq, E.
    split; [reflexivity|]. split; [done|]. intros _. split; [reflexivity|].
    by exists out, w1.
Qed.

(** ** Commands as typed *)

(** X21. White space around a command never changes the answer of a rule:
    a command and its trimmed text get the same answer from the shell,
    list, describe, logs and tcpdump rules.  Only the fallback, which
    echoes the command, shows it as typed. *)
Theorem executeCommand_trim (this : KubernetesSimulator) (command : string)
    (w : World) :
  (JS.includes "exec -it" command
   || JS.includes "get pods" command
   || JS.includes "describe pod" command
   || JS.includes "logs" command
   || JS.includes "tcpdump" command = true ->
   executeCommand this (JS.trim command) w = executeCommand this command w)
  /\ (JS.includes "exec -it" command
      || JS.includes "get pods" command
      || JS.includes "describe pod" command
      || JS.includes "logs" command
      || JS.includes "tcpdump" command = false ->
      executeCommand this command w
      = Some ("Command executed: " +:+ command +:+ JS.nl
                +:+ "Output: Success (Simulated)", w)).
Proof.
  unfold executeCommand. rewrite trim_idem.
  rewrite (includes_trim "exec -it" command _ _ _ _ eq_refl eq_refl eq_refl eq_refl).
  rewrite (includes_trim "get pods" command _ _ _ _ eq_refl eq_refl eq_refl eq_refl).
  rewrite (includes_trim "describe pod" command _ _ _ _ eq_refl eq_refl eq_refl eq_refl).
  rewrite (includes_trim "logs" command _ _ _ _ eq_refl eq_refl eq_refl eq_refl).
  rewrite (includes_trim "tcpdump" command _ _ _ _ eq_refl eq_refl eq_refl eq_refl).
  destruct (JS.includes "exec -it" command); [by split|].
  destruct (JS.includes "get pods" command); [by split|].
  destruct (JS.includes "describe pod" command); [by split|].
  destruct (JS.includes "logs" command); [by split|].
  destruct (JS.includes "tcpdump" command); by split.
Qed.

(** ** The steps of an assistant response *)

Lemma forEach_go_runStep (sim : KubernetesSimulator) (st : ClusterState.t)
    (steps : list K8sStep.t) (w0 : World) :
  forall i msgs w,
  heap w = heap w0 -> draws w = draws w0 ->
  heap w0 !! state sim = Some st ->
  exists tail w',
    forEach_go (fun step _ acc => runStep step acc sim) i steps msgs w
    = Some (msgs ++ tail, w')
    /\ heap w' = heap w0 /\ draws w' = draws w0
    /\ Forall2 (stepMessage sim w0) steps tail.
Proof.
  induction steps as [|step steps IH]; intros i msgs w Hh Hd Hst.
  - exists [], w. rewrite app_nil_r. repeat split; done.
  - assert (Hst' : heap w !! state sim = Some st) by (by rewrite Hh).
    destruct (executeCommand_spec sim (K8sStep.command step) w st Hst')
      as (out & w1 & E1 & H1).
    destruct (executeCommand_frame _ _ _ _ _ E1) as [_ Hd1].
    set (w2 := mkWorld (heap w1) (draws w1) (S (reads w1))).
    destruct (IH (S i)
                (msgs ++ [terminalMessage (K8sStep.command step) out
                            (clock (reads w1))]) w2)
      as (tail & w' & E & Hh' & Hd' & HF).
    { cbn [heap w2]. congruence. }
    { cbn [draws w2]. congruence. }
    { exact Hst. }
    eexists (_ :: tail), w'. split; [|split; [exact Hh'|split; [exact Hd'|]]].
    + cbn [forEach_go]. rewrite bind_eq. unfold runStep at 1.
      rewrite bind_eq, E1, bind_eq. unfold Date_new at 1. fold w2.
      rewrite <- app_assoc in E. exact E.
    + constructor; [|exact HF]. by exists w, out, w1.
Qed.

(** X22. A request answered by the assistant.  The chat gains the user's
    message, the assistant's summary and then exactly one terminal message
    per step of the response, in the order of the steps, each the command
    of its step with its output.  Every step runs on the cluster as it was
    when the loop began: no step ticks it and none draws a random number.
    After the last step the cluster is ticked once and the view is given a
    copy of the ticked state.  Feed, toast and [lastStateRef] are left
    alone. *)
Theorem handleUserInput_transcript (text : string) (response : AgentResponse.t)
    (app : App) (w : World) (st : ClusterState.t) :
  heap w !! state (simulator app) = Some st ->
  exists app' w' tail pods',
    handleUserInput text response app w = Some (app', w')
    /\ messages app'
       = messages app
         ++ [Message.mk Message.user text (clock (reads w));
             Message.mk Message.agent (AgentResponse.summary response)
               (clock (S (reads w)))]
         ++ tail
    /\ Forall2 (stepMessage (simulator app) w) (AgentResponse.steps response) tail
    /\ Forall2 tick_rel (ClusterState.pods st) pods'
    /\ heap w' !! state (simulator app)
       = Some (ClusterState.mk pods' (ClusterState.namespaces st))
    /\ heap w' !! clusterState app' = heap w' !! state (simulator app)
    /\ clusterState app' <> state (simulator app)
    /\ alerts app' = alerts app /\ activeToast app' = activeToast app
    /\ lastStateRef app' = lastStateRef app.
Proof.
  intros Hst.
  set (wa := mkWorld (heap w) (draws w) (S (S (reads w)))).
  set (msgs := (messages app ++ [Message.mk Message.user text (clock (reads w))])
                 ++ [Message.mk Message.agent (AgentResponse.summary response)
                       (clock (S (reads w)))]).
  destruct (forEach_go_runStep (simulator app) st (AgentResponse.steps response)
              w 0%nat msgs wa eq_refl eq_refl Hst)
    as (tail & w1 & E1 & Hh1 & Hd1 & HF).
  assert (Hst1 : heap w1 !! state (simulator app) = Some st) by (by rewrite Hh1).
  destruct (getState_spec (simulator app) w1 st Hst1) as (pods' & w2 & E2 & H2 & HT).
  set (st' := ClusterState.mk pods' (ClusterState.namespaces st)) in *.
  assert (Hst2 : heap w2 !! state (simulator app) = Some st')
    by (by rewrite H2, lookup_insert_eq).
  assert (Hne : fresh (dom (heap w2)) <> state (simulator app))
    by (by apply (fresh_not_store w2 _ st')).
  exists (mkApp (simulator app) (fresh (dom (heap w2))) (alerts app)
            (activeToast app) (lastStateRef app) (msgs ++ tail)),
         (mkWorld (<[fresh (dom (heap w2)) := st']> (heap w2)) (draws w2) (reads w2)),
         tail, pods'.
  split.
  - unfold handleUserInput. rewrite bind_eq. unfold Date_new at 1.
    rewrite bind_eq. unfold Date_new at 1. cbn [reads heap draws]. fold wa. fold msgs.
    rewrite bind_eq. unfold forEach. rewrite E1.
    rewrite bind_eq, E2, bind_eq, (deref_eq _ _ _ Hst2), bind_eq. reflexivity.
  - cbn [messages heap clusterState alerts activeToast lastStateRef].
    split; [unfold msgs; by rewrite <- !app_assoc|].
    split; [exact HF|]. split; [exact HT|].
    rewrite lookup_insert_ne by exact Hne. rewrite lookup_insert_eq.
    split; [exact Hst2|]. split; [by rewrite Hst2|]. auto.
Qed.
End Simulator.

(** ** Concrete runs *)

Lemma sampleRandom_range (n : nat) : (0 <= sampleRandom n < 1)%Q.
Proof.
  unfold sampleRandom.
  pose proof (Nat.mod_upper_bound n 10 ltac:(lia)) as H.
  unfold Qle, Qlt, Qdiv, Qmult, Qinv, inject_Z. simpl. lia.
Qed.

(** C1 on a run: construction, one tick, one command. *)
Lemma usage_invariant_witness :
  exists sim w0 l w1 out w2,
    new_KubernetesSimulator sampleRandom sampleClock sampleToString36
      sampleToISOString emptyWorld = Some (sim, w0)
    /\ getState sampleRandom sim w0 = Some (l, w1)
    /\ executeCommand sampleClock sampleToISOString sim "kubectl get pods -A" w1
       = Some (out, w2)
    /\ exists st, heap w2 !! state sim = Some st
         /\ forall pod, pod ∈ ClusterState.pods st ->
              (0 <= PodUsage.cpu (Pod.usage pod) <= 100)%Q
              /\ (0 <= PodUsage.memory (Pod.usage pod) <= 100)%Q.
Proof.
  eexists _, _, _, _, _, _.
  split; [vm_compute; reflexivity|].
  split; [vm_compute; reflexivity|].
  split; [vm_compute; reflexivity|].
  apply (usage_invariant sampleRandom sampleClock sampleToString36
           sampleToISOString sampleRandom_range).
  eapply reachable_step;
    [eapply reachable_step; [eapply (reachable_init _ _ _ _ _ emptyWorld)|]|].
  - vm_compute; reflexivity.
  - eapply step_tick. vm_compute; reflexivity.
  - eapply step_command with (command := "kubectl get pods -A").
    vm_compute; reflexivity.
Defined.

(** C2.  Two calls of [getState] on the seed cluster: both return the
    reference the simulator keeps in [this.state], so the second snapshot
    is the first one, and the object the first call handed out has been
    written by the second call (the cpu of its pods has changed). *)
Theorem getState_snapshots_alias :
  exists sim w0 l1 w1 l2 w2 st1 st2,
    new_KubernetesSimulator sampleRandom sampleClock sampleToString36
      sampleToISOString emptyWorld = Some (sim, w0)
    /\ getState sampleRandom sim w0 = Some (l1, w1)
    /\ getState sampleRandom sim w1 = Some (l2, w2)
    /\ l1 = state sim /\ l2 = l1
    /\ heap w1 !! l1 = Some st1 /\ heap w2 !! l1 = Some st2
    /\ (fun p => PodUsage.cpu (Pod.usage p)) <$> ClusterState.pods st1
       <> (fun p => PodUsage.cpu (Pod.usage p)) <$> ClusterState.pods st2.
Proof.
  eexists _, _, _, _, _, _, _, _.
  split; [vm_compute; reflexivity|].
  split; [vm_compute; reflexivity|].
  split; [vm_compute; reflexivity|].
  split; [reflexivity|]. split; [reflexivity|].
  split; [vm_compute; reflexivity|].
  split; [vm_compute; reflexivity|].
  vm_compute. discriminate.
Qed.

(** In the dashboard the same holds by construction: after [mount] the
    reference kept for the previous snapshot is the store. *)
Lemma mount_aliases_store :
  exists app w,
    mount sampleRandom sampleClock sampleToString36 sampleToISOString emptyWorld
    = Some (app, w)
    /\ lastStateRef app = state (simulator app)
    /\ clusterState app = state (simulator app).
Proof.
  eexists _, _. split; [vm_compute; reflexivity|]. split; reflexivity.
Qed.

(** C3, the sequence part as stated, fails: cpu crosses from 80 to 95
    and stays at 95, memory crosses on the following tick, and a second
    Utilization alert is raised for the pod on that tick. *)
Lemma second_utilization_alert_above_threshold :
  exists runs w',
    alertRuns sampleRandom sampleClock sampleToString36
      [samplePod "p1" "default" RUNNING 80 50]
      [[samplePod "p1" "default" RUNNING 95 50];
       [samplePod "p1" "default" RUNNING 95 95]] emptyWorld
    = Some (runs, w')
    /\ (fun alerts => length (alertsFor Alert.Utilization "p1" alerts)) <$> runs
       = [1%nat; 1%nat].
Proof.
  eexists _, _. split; [vm_compute; reflexivity|]. vm_compute. reflexivity.
Qed.

(** C3, as amended, on the sequence 80, 95, 95, 95, 95, 95 of cpu values
    with memory at 50: one alert, on the crossing tick. *)
Lemma utilization_edge_triggered_witness :
  exists runs w',
    alertRuns sampleRandom sampleClock sampleToString36
      [samplePod "p1" "default" RUNNING 80 50]
      (replicate 5 [samplePod "p1" "default" RUNNING 95 50]) emptyWorld
    = Some (runs, w')
    /\ (fun alerts => length (alertsFor Alert.Utilization "p1" alerts)) <$> runs
       = [1%nat; 0%nat; 0%nat; 0%nat; 0%nat].
Proof.
  destruct (utilization_edge_triggered sampleRandom sampleClock sampleToString36
              "p1" [samplePod "p1" "default" RUNNING 80 50]
              (replicate 5 [samplePod "p1" "default" RUNNING 95 50])
              (samplePod "p1" "default" RUNNING 80 50)
              (replicate 5 (samplePod "p1" "default" RUNNING 95 50))
              emptyWorld) as (runs & w' & E & _ & H).
  - repeat constructor; by intros ?%elem_of_nil.
  - reflexivity.
  - repeat constructor.
  - exists runs, w'. split; [exact E|].
    apply (H (samplePod "p1" "default" RUNNING 95 50)
             (replicate 4 (samplePod "p1" "default" RUNNING 95 50)) eq_refl).
    + vm_compute. discriminate.
    + vm_compute. reflexivity.
    + repeat constructor.
    + vm_compute. auto.
Defined.

(** C4 on the example of the specification: usage (85, 50) to (96, 50). *)
Lemma utilization_alert_content_witness :
  exists alerts w' a,
    alertLoop sampleRandom sampleClock sampleToString36
      [samplePod "p1" "default" RUNNING 85 50]
      [samplePod "p1" "default" RUNNING 96 50] emptyWorld = Some (alerts, w')
    /\ alerts = [a]
    /\ Alert.type a = Alert.Utilization
    /\ Alert.severity a = Alert.Critical
    /\ Alert.message a = "High CPU usage on web-p1 (96%)".
Proof.
  eexists _, _, _.
  split; [vm_compute; reflexivity|]. split; [reflexivity|].
  split; [reflexivity|].
  edestruct (proj1 (utilization_alert_content sampleRandom sampleClock
                      sampleToString36)
               [samplePod "p1" "default" RUNNING 85 50]
               [samplePod "p1" "default" RUNNING 96 50] emptyWorld)
    as (pod & Hpod & _ & _ & Hsev & Hmsg).
  - vm_compute; reflexivity.
  - apply list_elem_of_singleton. reflexivity.
  - reflexivity.
  - apply list_elem_of_singleton in Hpod. subst pod.
    split; [exact Hsev | exact Hmsg].
Defined.

(** C5 on the examples of the specification: Running to Error raises
    one Status alert, Error to Error none. *)
Lemma status_alert_edge_witness :
  (exists alerts w' aid now,
     alertLoop sampleRandom sampleClock sampleToString36
       [samplePod "p1" "default" RUNNING 10 10]
       [samplePod "p1" "default" ERROR 10 10] emptyWorld = Some (alerts, w')
     /\ alertsFor Alert.Status "p1" alerts
        = [Alert.mk aid "p1" "web-p1" Alert.Status Alert.Critical
             "Pod web-p1 has entered Error state!" now])
  /\ (exists alerts w',
        alertLoop sampleRandom sampleClock sampleToString36
          [samplePod "p1" "default" ERROR 10 10]
          [samplePod "p1" "default" ERROR 10 10] emptyWorld = Some (alerts, w')
        /\ alertsFor Alert.Status "p1" alerts = []).
Proof.
  split.
  - destruct (status_alert_edge sampleRandom sampleClock sampleToString36
                [samplePod "p1" "default" RUNNING 10 10]
                [samplePod "p1" "default" ERROR 10 10]
                (samplePod "p1" "default" ERROR 10 10) emptyWorld)
      as (alerts & w' & E & aid & now & H).
    + repeat constructor; by intros ?%elem_of_nil.
    + apply list_elem_of_singleton. reflexivity.
    + exists alerts, w', aid, now. split; [exact E | exact H].
  - destruct (status_alert_edge sampleRandom sampleClock sampleToString36
                [samplePod "p1" "default" ERROR 10 10]
                [samplePod "p1" "default" ERROR 10 10]
                (samplePod "p1" "default" ERROR 10 10) emptyWorld)
      as (alerts & w' & E & H).
    + repeat constructor; by intros ?%elem_of_nil.
    + apply list_elem_of_singleton. reflexivity.
    + exists alerts, w'. split; [exact E | exact H].
Defined.


(** On that tick the pods at the indices 2 and 7 draw 0 and go from
    Running to Error; the other seven keep their status. *)
Lemma first_tick_statuses :
  exists sim w l w' st st',
    new_KubernetesSimulator sampleRandom sampleClock sampleToString36
      sampleToISOString emptyWorld = Some (sim, w)
    /\ getState sampleRandom sim w = Some (l, w')
    /\ heap w !! state sim = Some st /\ heap w' !! state sim = Some st'
    /\ Pod.status <$> ClusterState.pods st
       = [RUNNING; RUNNING; RUNNING; RUNNING; RUNNING; RUNNING; RUNNING;
          RUNNING; RUNNING]
    /\ Pod.status <$> ClusterState.pods st'
       = [RUNNING; RUNNING; ERROR; RUNNING; RUNNING; RUNNING; RUNNING;
          ERROR; RUNNING].
Proof.
  eexists _, _, _, _, _, _.
  split; [vm_compute; reflexivity|]. split; [vm_compute; reflexivity|].
  split; [vm_compute; reflexivity|]. split; [vm_compute; reflexivity|].
  split; vm_compute; reflexivity.
Qed.

(** The list rule on the seed cluster. *)
Lemma get_pods_listing_seed :
  exists sim w,
    new_KubernetesSimulator sampleRandom sampleClock sampleToString36
      sampleToISOString emptyWorld = Some (sim, w)
    /\ exists rows,
         executeCommand sampleClock sampleToISOString sim
           "kubectl get pods -n kube-system" w
         = Some (JS.join JS.nl (podsHeader :: List.map podsRow rows), w)
         /\ length rows = 4%nat
         /\ Forall (fun p => Pod.namespace p = "kube-system") rows.
Proof.
  eexists _, _. split; [vm_compute; reflexivity|].
  match goal with
  | |- exists rows, executeCommand _ _ ?sim _ ?w = _ /\ _ =>
      eassert (Hst : heap w !! state sim = Some _) by (vm_compute; reflexivity);
      edestruct (proj2 (proj2 (proj2 (get_pods_listing sampleClock sampleToISOString)))
                   sim w _ Hst) as (rows & Hrun & Hlen & Hall)
  end.
  - vm_compute; reflexivity.
  - vm_compute; reflexivity.
  - exists rows. split; [exact Hrun|]. split; [exact Hlen|].
    eapply Forall_impl; [exact Hall|]. by intros p [? _].
Defined.

(** C7.  The table of the list rule is not fixed-width.  The header pads
    NAME, READY, STATUS and RESTARTS to 30, 10, 15 and 10 columns.  In a
    row the two outer [padEnd(10)] are applied to the name field already
    joined with "1/1" and to the status field already joined with "0",
    texts of at least 33 and 16 characters, so they add nothing: "1/1" is
    followed at once by the status and "0" at once by the age, and every
    row is 16 characters short of the row laid out in the columns of the
    header.  On the seed cluster "kubectl get pods -n kube-system" prints
    the four rows below, with the status at column 33 where the header has
    STATUS at column 40. *)
Theorem get_pods_rows_misaligned :
  (forall p : Pod.t,
     podsRow p
     = JS.padEnd 30 (Pod.name p) +:+ "1/1"
         +:+ JS.padEnd 15 (statusString (Pod.status p)) +:+ "0" +:+ "2d"
     /\ String.length (fixedWidthRow p) = (String.length (podsRow p) + 16)%nat
     /\ podsRow p <> fixedWidthRow p)
  /\ exists sim w st,
       new_KubernetesSimulator sampleRandom sampleClock sampleToString36
         sampleToISOString emptyWorld = Some (sim, w)
       /\ heap w !! state sim = Some st
       /\ executeCommand sampleClock sampleToISOString sim
            "kubectl get pods -n kube-system" w
          = Some (JS.join JS.nl
                    ["NAME                          READY     STATUS         RESTARTS  AGE";
                     "coredns-0.k3x                 1/1Running        02d";
                     "kube-proxy-0.k3x              1/1Running        02d";
                     "calico-node-0.k3x             1/1Running        02d";
                     "metrics-server-0.k3x          1/1Running        02d"], w)
       /\ fixedWidthRow <$> drop 5 (ClusterState.pods st)
          = ["coredns-0.k3x                 1/1       Running        0         2d";
             "kube-proxy-0.k3x              1/1       Running        0         2d";
             "calico-node-0.k3x             1/1       Running        0         2d";
             "metrics-server-0.k3x          1/1       Running        0         2d"].
Proof.
  split.
  - intros p. split; [apply podsRow_eq|]. split; [apply podsRow_short|].
    intros E. pose proof (podsRow_short p) as H. rewrite <- E in H. lia.
  - eexists _, _, _. split; [vm_compute; reflexivity|].
    split; [vm_compute; reflexivity|]. split; vm_compute; reflexivity.
Qed.

(** C9 on the seed cluster, for a command of the logs rule. *)
Lemma executeCommand_readonly_witness :
  exists sim w,
    new_KubernetesSimulator sampleRandom sampleClock sampleToString36
      sampleToISOString emptyWorld = Some (sim, w)
    /\ exists out w',
         executeCommand sampleClock sampleToISOString sim
           "kubectl logs web -n default" w = Some (out, w')
         /\ heap w' = heap w.
Proof.
  eexists _, _. split; [vm_compute; reflexivity|].
  match goal with
  | |- exists out w', executeCommand _ _ ?sim _ ?w = _ /\ _ =>
      eassert (Hst : heap w !! state sim = Some _) by (vm_compute; reflexivity);
      destruct (executeCommand_readonly sampleClock sampleToISOString sim
                  "kubectl logs web -n default" w _ Hst)
        as (out & w' & Hrun & Hh & _)
  end.
  exists out, w'. split; [exact Hrun | exact Hh].
Defined.

(** C10 on the seed cluster. *)
Lemma getState_frame_witness :
  exists sim w st,
    new_KubernetesSimulator sampleRandom sampleClock sampleToString36
      sampleToISOString emptyWorld = Some (sim, w)
    /\ heap w !! state sim = Some st
    /\ exists w' st',
         getState sampleRandom sim w = Some (state sim, w')
         /\ heap w' !! state sim = Some st'
         /\ ClusterState.namespaces st' = ClusterState.namespaces st
         /\ length (ClusterState.pods st') = length (ClusterState.pods st).
Proof.
  eexists _, _, _. split; [vm_compute; reflexivity|].
  split; [vm_compute; reflexivity|].
  match goal with
  | |- exists w' st', getState _ ?sim ?w = _ /\ _ =>
      edestruct (getState_frame sampleRandom sim w)
        as (w' & st' & Hrun & Hst' & Hns & Hlen & _)
  end.
  - vm_compute; reflexivity.
  - exists w', st'. repeat (split; [assumption|]). assumption.
Defined.

(** C8 in the dashboard: a response of the assistant whose only step has
    a blank command appends the user message, the agent message and a
    terminal message with the fallback output, and the handler then ticks
    the cluster. *)
Lemma blank_step_in_handleUserInput :
  exists app w app' w' st st',
    mount sampleRandom sampleClock sampleToString36 sampleToISOString emptyWorld
    = Some (app, w)
    /\ handleUserInput sampleRandom sampleClock sampleToISOString "status?"
         (AgentResponse.mk [K8sStep.mk "check" "   " "none"]
            AgentResponse.QUERY "Checking.") app w
       = Some (app', w')
    /\ Message.content <$> drop (length (messages app)) (messages app')
       = ["status?"; "Checking.";
          "$    " +:+ JS.nl +:+ "Command executed:    " +:+ JS.nl
            +:+ "Output: Success (Simulated)"]
    /\ heap w !! state (simulator app) = Some st
    /\ heap w' !! state (simulator app) = Some st'
    /\ (fun p => PodUsage.cpu (Pod.usage p)) <$> ClusterState.pods st
       <> (fun p => PodUsage.cpu (Pod.usage p)) <$> ClusterState.pods st'.
Proof.
  eexists _, _, _, _, _, _.
  split; [vm_compute; reflexivity|].
  split; [vm_compute; reflexivity|].
  split; [vm_compute; reflexivity|].
  split; [vm_compute; reflexivity|].
  split; [vm_compute; reflexivity|].
  vm_compute. discriminate.
Qed.

(** ** Instances of the further properties *)

(** X1 on the sample store of two pods: eight draws, no clock reading. *)
Lemma getState_footprint_witness :
  exists w',
    getState sampleRandom (mkSim 0%nat) sampleHeapWorld = Some (0%nat, w')
    /\ draws w' = 8%nat /\ reads w' = 0%nat.
Proof.
  destruct (getState_footprint sampleRandom (mkSim 0%nat) sampleHeapWorld
              sampleStore ltac:(vm_compute; reflexivity))
    as (w' & E & Hd & Hr & _).
  exists w'. split; [exact E|]. split; [exact Hd|exact Hr].
Defined.

(** X2 on a pod at 88% cpu and 40% memory. *)
Lemma tickPod_bounded_step_witness :
  exists pod' w',
    tickPod sampleRandom (samplePod "p1" "default" RUNNING 88 40) emptyWorld
    = Some (pod', w')
    /\ (38 <= PodUsage.memory (Pod.usage pod') <= 42)%Q.
Proof.
  destruct (tickPod_bounded_step sampleRandom sampleRandom_range
              (samplePod "p1" "default" RUNNING 88 40) emptyWorld)
    as (pod' & w' & E & Hm & _).
  - split; discriminate.
  - split; discriminate.
  - exists pod', w'. split; [exact E|].
    cbn [samplePod Pod.usage PodUsage.memory] in Hm. lra.
Defined.

(** X3 on a dashboard whose previous snapshot has the pod Running at 80%
    cpu while the tick takes it to Error at 91%: two alerts are raised,
    they make up the feed and the first of them is the toast. *)
Lemma onInterval_feed_witness :
  exists app' w' a b,
    onInterval sampleRandom sampleClock sampleToString36 sampleAlertApp
      sampleAlertWorld = Some (app', w')
    /\ alerts app' = [a; b]
    /\ activeToast app' = Some a
    /\ messages app' = messages sampleAlertApp.
Proof.
  destruct (onInterval_feed sampleRandom sampleClock sampleToString36
              sampleAlertApp sampleAlertWorld
              (ClusterState.mk [samplePod "p1" "default" RUNNING 95 40] ["default"])
              (ClusterState.mk [samplePod "p1" "default" RUNNING 80 40] ["default"])
              ltac:(vm_compute; reflexivity) ltac:(vm_compute; reflexivity))
    as (pods' & w1 & last' & new & w2 & app' & w' & _ & _ & _ & _ & E & _ & _
        & _ & Hm).
  exists app', w'. pose proof E as E'. vm_compute in E'.
  injection E' as <- _.
  eexists _, _. split; [exact E|]. split; [reflexivity|].
  split; [reflexivity|reflexivity].
Defined.

(** X4 on the sample dashboard, whose two pods have distinct identifiers. *)
Lemma onInterval_twice_witness :
  exists app1 w1 app2 w2,
    onInterval sampleRandom sampleClock sampleToString36 sampleApp sampleHeapWorld
    = Some (app1, w1)
    /\ onInterval sampleRandom sampleClock sampleToString36 app1 w1 = Some (app2, w2)
    /\ alerts app2 = alerts app1 /\ activeToast app2 = activeToast app1.
Proof.
  destruct (onInterval_twice sampleRandom sampleClock sampleToString36 sampleApp
              sampleHeapWorld sampleStore sampleStore
              ltac:(vm_compute; reflexivity) ltac:(vm_compute; reflexivity))
    as (app1 & w1 & app2 & w2 & E1 & _ & E2 & Ha & Ht).
  - apply (bool_decide_unpack _). vm_compute. exact I.
  - exists app1, w1, app2, w2. auto.
Defined.

(** X5 on the sample dashboard. *)
Lemma onInterval_copy_stable_witness :
  exists app' w' snap,
    onInterval sampleRandom sampleClock sampleToString36 sampleApp sampleHeapWorld
    = Some (app', w')
    /\ clusterState app' <> state (simulator sampleApp)
    /\ heap w' !! clusterState app' = Some snap.
Proof.
  destruct (onInterval_copy_stable sampleRandom sampleClock sampleToString36
              sampleToISOString sampleApp sampleHeapWorld sampleStore sampleStore
              ltac:(vm_compute; reflexivity) ltac:(vm_compute; reflexivity))
    as (app' & w' & snap & E & Hne & _ & Hc & _).
  exists app', w', snap. auto.
Defined.

(** X6 for the command "kubectl get pods" on the sample dashboard. *)
Lemma handleTerminalCommand_runs_then_ticks_witness :
  exists app' w',
    handleTerminalCommand sampleRandom sampleClock sampleToISOString
      "kubectl get pods" sampleApp sampleHeapWorld = Some (app', w')
    /\ length (messages app') = 1%nat
    /\ alerts app' = [].
Proof.
  destruct (handleTerminalCommand_runs_then_ticks sampleRandom sampleClock
              sampleToISOString "kubectl get pods" sampleApp sampleHeapWorld
              sampleStore)
    as (out & w1 & app' & w' & pods' & _ & _ & E & Hm & _ & _ & _ & Ha & _).
  - vm_compute. discriminate.
  - vm_compute. reflexivity.
  - exists app', w'. split; [exact E|]. split; [by rewrite Hm|exact Ha].
Defined.

(** X7 right after construction, with the sample random source. *)
Lemma seed_cluster_shape_witness :
  exists sim w,
    new_KubernetesSimulator sampleRandom sampleClock sampleToString36
      sampleToISOString emptyWorld = Some (sim, w)
    /\ exists st, heap w !! state sim = Some st
         /\ placement <$> ClusterState.pods st = seedPlacement.
Proof.
  eexists _, _. split; [vm_compute; reflexivity|].
  edestruct (seed_cluster_shape sampleRandom sampleClock sampleToString36
               sampleToISOString sampleRandom_range)
    as (st & Hst & _ & Hpl & _).
  - eapply (reachable_init _ _ _ _ _ emptyWorld). vm_compute. reflexivity.
  - exists st. split; [exact Hst|exact Hpl].
Defined.

(** X8 after construction and one tick. *)
Lemma seed_event_history_witness :
  exists sim w0 l w,
    new_KubernetesSimulator sampleRandom sampleClock sampleToString36
      sampleToISOString emptyWorld = Some (sim, w0)
    /\ getState sampleRandom sim w0 = Some (l, w)
    /\ exists st, heap w !! state sim = Some st
         /\ forall pod, pod ∈ ClusterState.pods st ->
              K8sEvent.reason <$> Pod.events pod
              = ["Scheduled"; "Pulling"; "Pulled"; "Created"; "Started"].
Proof.
  eexists _, _, _, _. split; [vm_compute; reflexivity|].
  split; [vm_compute; reflexivity|].
  edestruct (seed_event_history sampleRandom sampleClock sampleToString36
               sampleToISOString sampleRandom_range)
    as (st & Hst & Hev).
  - eapply reachable_step; [eapply (reachable_init _ _ _ _ _ emptyWorld)|].
    + vm_compute. reflexivity.
    + eapply step_tick. vm_compute. reflexivity.
  - exists st. split; [exact Hst|]. intros pod Hpod. by destruct (Hev pod Hpod).
Defined.

(** X9 right after construction. *)
Lemma seed_connections_witness :
  exists sim w,
    new_KubernetesSimulator sampleRandom sampleClock sampleToString36
      sampleToISOString emptyWorld = Some (sim, w)
    /\ exists st, heap w !! state sim = Some st
         /\ forall pod, pod ∈ ClusterState.pods st ->
              exists cs, Pod.connections pod = Some cs /\ (length cs <= 2)%nat.
Proof.
  eexists _, _. split; [vm_compute; reflexivity|].
  edestruct (seed_connections sampleRandom sampleClock sampleToString36
               sampleToISOString sampleRandom_range)
    as (st & Hst & Hc).
  - eapply (reachable_init _ _ _ _ _ emptyWorld). vm_compute. reflexivity.
  - exists st. split; [exact Hst|]. intros pod Hpod.
    destruct (Hc pod Hpod) as (cs & E & Hlen & _). by exists cs.
Defined.

(** X10 for the pod web-p1 of the sample store. *)
Lemma handlePodAction_exec_witness :
  exists app' view' w',
    handlePodAction sampleClock sampleToISOString "exec"
      (samplePod "p1" "default" RUNNING 88 40) sampleApp initialView sampleHeapWorld
    = Some ((app', view'), w')
    /\ activeTab view' = terminal
    /\ length (messages app') = 2%nat
    /\ isShellActive (terminalViewMessages app') = false.
Proof.
  destruct (handlePodAction_exec sampleClock sampleToISOString
              (samplePod "p1" "default" RUNNING 88 40) sampleApp initialView
              sampleHeapWorld)
    as (app' & E & Hm & _ & _ & _ & _ & _ & Hb).
  - vm_compute. discriminate.
  - vm_compute. repeat split.
  - eexists app', _, _. split; [exact E|]. split; [reflexivity|].
    split; [by rewrite Hm|exact Hb].
Defined.

(** X11 for the pod web-p1 of the sample store. *)
Lemma handlePodAction_logs_witness :
  exists app' view' w',
    handlePodAction sampleClock sampleToISOString "logs"
      (samplePod "p1" "default" RUNNING 88 40) sampleApp initialView sampleHeapWorld
    = Some ((app', view'), w')
    /\ reads w' = 5%nat
    /\ length (messages app') = 2%nat.
Proof.
  destruct (handlePodAction_logs sampleClock sampleToISOString
              (samplePod "p1" "default" RUNNING 88 40) sampleApp initialView
              sampleHeapWorld)
    as (app' & E & Hm & _).
  - vm_compute. repeat split.
  - vm_compute. repeat split.
  - eexists app', _, _. split; [exact E|]. split; [reflexivity|].
    by rewrite Hm.
Defined.

(** X12 for an action the dashboard has no branch for. *)
Lemma handlePodAction_no_tick_witness :
  exists app' view' w',
    handlePodAction sampleClock sampleToISOString "delete"
      (samplePod "p1" "default" RUNNING 88 40) sampleApp initialView sampleHeapWorld
    = Some ((app', view'), w')
    /\ heap w' = heap sampleHeapWorld /\ draws w' = draws sampleHeapWorld
    /\ app' = sampleApp.
Proof.
  destruct (handlePodAction_no_tick sampleClock sampleToISOString "delete"
              (samplePod "p1" "default" RUNNING 88 40) sampleApp initialView
              sampleHeapWorld sampleStore ltac:(vm_compute; reflexivity))
    as (app' & w' & new & E & Hh & Hd & _ & _ & _ & _ & _ & _ & Hsame).
  eexists app', _, w'. split; [exact E|]. split; [exact Hh|]. split; [exact Hd|].
  by destruct Hsame.
Defined.

(** X13 for a shell command typed into the terminal. *)
Lemma shell_badge_stays_off_witness :
  exists app' w',
    handleTerminalCommand sampleRandom sampleClock sampleToISOString
      "kubectl exec -it web-p1 -- sh" sampleApp sampleHeapWorld = Some (app', w')
    /\ isShellActive (terminalViewMessages app') = false.
Proof.
  destruct (shell_badge_stays_off sampleRandom sampleClock sampleToISOString
              "kubectl exec -it web-p1 -- sh" sampleApp sampleHeapWorld sampleStore)
    as (app' & w' & m & E & _ & _ & _ & _ & Hb).
  - vm_compute. reflexivity.
  - vm_compute. reflexivity.
  - exists app', w'. split; [exact E|exact Hb].
Defined.

(** X14 for the pod web-p1 of the sample store. *)
Lemma describe_pod_witness :
  executeCommand sampleClock sampleToISOString (mkSim 0%nat)
    "kubectl describe pod web-p1" sampleHeapWorld
  = Some ("Name: web-p1" +:+ JS.nl +:+ "Namespace: default" +:+ JS.nl
            +:+ "Status: Running" +:+ JS.nl +:+ "IP: 10.244.0.10",
          sampleHeapWorld).
Proof.
  destruct (describe_pod sampleClock sampleToISOString (mkSim 0%nat) "web-p1"
              sampleHeapWorld sampleStore) as [E _].
  - vm_compute. reflexivity.
  - discriminate.
  - vm_compute. repeat split.
  - exact E.
Defined.

(** X15 for the declared namespace production, right after construction. *)
Lemma get_pods_of_namespace_witness :
  exists sim w,
    new_KubernetesSimulator sampleRandom sampleClock sampleToString36
      sampleToISOString emptyWorld = Some (sim, w)
    /\ executeCommand sampleClock sampleToISOString sim
         "kubectl get pods -n production" w
       = Some ("No resources found in production namespace.", w).
Proof.
  eexists _, _. split; [vm_compute; reflexivity|].
  match goal with
  | |- executeCommand _ _ ?sim _ ?w = _ =>
      destruct (get_pods_of_namespace sampleRandom sampleClock sampleToString36
                  sampleToISOString sampleRandom_range sim w "production")
        as (st & _ & _ & E)
  end.
  - eapply (reachable_init _ _ _ _ _ emptyWorld). vm_compute. reflexivity.
  - discriminate.
  - vm_compute. repeat split.
  - exact E.
Defined.

(** X16 for a new context added to the initial three. *)
Lemma handleAddContext_spec_witness :
  exists app' view' w',
    handleAddContext sampleClock (Some "kind-local") sampleApp initialView
      sampleHeapWorld = Some ((app', view'), w')
    /\ NoDup (contexts view') /\ activeContext view' ∈ contexts view'.
Proof.
  destruct (handleAddContext_spec sampleClock (Some "kind-local") sampleApp
              initialView sampleHeapWorld)
    as (app' & view' & w' & E & Hnd & Hin & _).
  - apply (bool_decide_unpack _). vm_compute. exact I.
  - apply (bool_decide_unpack _). vm_compute. exact I.
  - exists app', view', w'. auto.
Defined.

(** X19 right after construction. *)
Lemma topology_by_namespace_witness :
  exists sim w,
    new_KubernetesSimulator sampleRandom sampleClock sampleToString36
      sampleToISOString emptyWorld = Some (sim, w)
    /\ exists st, heap w !! state sim = Some st
         /\ ClusterView.nodes
              (ClusterView.filteredPods "kube-system" (ClusterState.pods st))
            = ["node-1"].
Proof.
  eexists _, _. split; [vm_compute; reflexivity|].
  edestruct (topology_by_namespace sampleRandom sampleClock sampleToString36
               sampleToISOString sampleRandom_range)
    as (st & Hst & _ & _ & _ & _ & _ & _ & Hk & _).
  - eapply (reachable_init _ _ _ _ _ emptyWorld). vm_compute. reflexivity.
  - exists st. split; [exact Hst|exact Hk].
Defined.

(** X20 for a line with white space around the command. *)
Lemma handleSubmit_trims_witness :
  exists app' w',
    handleSubmit sampleRandom sampleClock sampleToISOString
      "  kubectl get pods  " sampleApp sampleHeapWorld = Some ((app', ""), w')
    /\ length (messages app') = 1%nat.
Proof.
  destruct (handleSubmit_trims sampleRandom sampleClock sampleToISOString
              "  kubectl get pods  " sampleApp sampleHeapWorld sampleStore
              ltac:(vm_compute; reflexivity))
    as (app' & box & w' & E & _ & H).
  destruct H as (-> & out & w1 & _ & Hm); [vm_compute; discriminate|].
  exists app', w'. split; [exact E|]. by rewrite Hm.
Defined.

(** X22 for a response of one step on the sample dashboard. *)
Lemma handleUserInput_transcript_witness :
  exists app' w',
    handleUserInput sampleRandom sampleClock sampleToISOString "list the pods"
      (AgentResponse.mk [K8sStep.mk "List" "kubectl get pods -A" "All pods"]
         AgentResponse.QUERY "Listing pods")
      sampleApp sampleHeapWorld = Some (app', w')
    /\ length (messages app') = 3%nat.
Proof.
  destruct (handleUserInput_transcript sampleRandom sampleClock sampleToISOString
              "list the pods"
              (AgentResponse.mk [K8sStep.mk "List" "kubectl get pods -A" "All pods"]
                 AgentResponse.QUERY "Listing pods")
              sampleApp sampleHeapWorld sampleStore ltac:(vm_compute; reflexivity))
    as (app' & w' & tail & pods' & E & Hm & HF & _).
  exists app', w'. split; [exact E|].
  rewrite Hm. apply Forall2_length in HF. rewrite !length_app, <- HF. reflexivity.
Defined.
